(** * code-ledger: store, search and index coordinator

    A shallow embedding of the persistence layer (connection.ts,
    file.repository.ts, relation.repository.ts), of symbol search
    (symbol-search.ts) and of the index coordinator (index-coordinator.ts),
    with the properties the specification states about them.

    Conventions.  A JavaScript function that may throw is a state
    transformer returning [Ok v] or [Throw e] together with the state it
    leaves behind: an exception does not undo the writes made before it.
    [undefined] and [null] are [None]; a field that can be a string, [null]
    or missing is an [option (option string)]. *)

From Stdlib Require Import String Ascii List Bool Arith ZArith Lia.
From Stdlib Require DecimalString.
Import ListNotations.
Set Warnings "-register-all".
Local Open Scope string_scope.
Local Open Scope list_scope.

(* ================================================================== *)
(** * JavaScript values, exceptions and the effect monad               *)
(* ================================================================== *)

Module Js.

(** A thrown value: an [Error] object (its [name] and [message]), one
    built with [{ cause }], or any other value. *)
Inductive Exn : Type :=
| Error (name message : string)
| ErrorWithCause (name message : string) (cause : Exn)
| NonError (shown : string).

Inductive Res (A : Type) : Type :=
| Ok (a : A)
| Throw (e : Exn).
Arguments Ok {A} a.
Arguments Throw {A} e.

(** Code running against a state [S] that returns an [A] or throws. *)
Definition M (S A : Type) : Type := S -> Res A * S.

Definition ret {S A : Type} (a : A) : M S A := fun s => (Ok a, s).

Definition throw {S A : Type} (e : Exn) : M S A := fun s => (Throw e, s).

Definition bind {S A B : Type} (m : M S A) (k : A -> M S B) : M S B :=
  fun s =>
    match m s with
    | (Ok a, s') => k a s'
    | (Throw e, s') => (Throw e, s')
    end.

(** [try { m }]: the outcome of [m] as a value; nothing escapes. *)
Definition attempt {S A : Type} (m : M S A) : M S (Res A) :=
  fun s => let (r, s') := m s in (Ok r, s').

(** [try { m } finally { f }] for a finalizer that cannot throw. *)
Definition finally {S A : Type} (m : M S A) (f : S -> S) : M S A :=
  fun s => let (r, s') := m s in (r, f s').

Definition get {S : Type} : M S S := fun s => (Ok s, s).

Definition modify {S : Type} (f : S -> S) : M S unit := fun s => (Ok tt, f s).

(** [for (const x of l) f(x)]: stops at the first throw. *)
Fixpoint forEach {S A : Type} (l : list A) (f : A -> M S unit) : M S unit :=
  match l with
  | [] => ret tt
  | x :: rest => bind (f x) (fun _ => forEach rest f)
  end.

(** [x ?? d] for [x : A | undefined | null]. *)
Definition nullish {A : Type} (x : option A) (d : A) : A :=
  match x with
  | Some a => a
  | None => d
  end.

(** [x ?? null] for a field that is a string, [null] or missing. *)
Definition nullishNull {A : Type} (x : option (option A)) : option A :=
  match x with
  | Some (Some a) => Some a
  | _ => None
  end.

(** The double quote character. *)
Definition dquote : ascii :=
  Ascii false true false false false true false false.

(** [s.endsWith(suffix)]. *)
Definition endsWith (s suffix : string) : bool :=
  let n := String.length s in
  let m := String.length suffix in
  Nat.leb m n && String.eqb (substring (n - m) m s) suffix.

(** [s.startsWith(p)]. *)
Fixpoint startsWith (p s : string) : bool :=
  match p, s with
  | EmptyString, _ => true
  | String _ _, EmptyString => false
  | String a p', String b s' => Ascii.eqb a b && startsWith p' s'
  end.

(** [s.includes(needle)]. *)
Fixpoint includes (needle s : string) : bool :=
  startsWith needle s ||
  match s with
  | EmptyString => false
  | String _ rest => includes needle rest
  end.

(** [c.toLowerCase()] on an ASCII character. *)
Definition lowerAscii (c : ascii) : ascii :=
  let n := nat_of_ascii c in
  if Nat.leb 65 n && Nat.leb n 90 then ascii_of_nat (n + 32) else c.

Fixpoint toLowerCase (s : string) : string :=
  match s with
  | EmptyString => EmptyString
  | String c rest => String (lowerAscii c) (toLowerCase rest)
  end.

End Js.

Import Js.

Declare Scope js_scope.
Delimit Scope js_scope with js.
Notation "x <- m ;; k" := (bind m (fun x => k))
  (at level 100, m at next level, right associativity) : js_scope.
Notation "m ;;; k" := (bind m (fun _ => k))
  (at level 100, right associativity) : js_scope.
Local Open Scope js_scope.

(* ================================================================== *)
(** * Rows and tables                                                  *)
(* ================================================================== *)

(** [FileRecord] of file.repository.ts. [mtimeMs] and [size] are numbers;
    only their identity matters here. *)
Module FileRecord.
Record t : Type := mk {
  project : string;
  filePath : string;
  mtimeMs : Z;
  size : Z;
  contentHash : string;
  updatedAt : string
}.
End FileRecord.

(** [RelationRecord] of relation.repository.ts. *)
Module RelationRecord.
Record t : Type := mk {
  project : string;
  type : string;
  srcFilePath : string;
  srcSymbolName : option string;
  dstFilePath : string;
  dstSymbolName : option string;
  metaJson : option string
}.
End RelationRecord.

(** [Partial<RelationRecord>]: every field may be missing. *)
Module PartialRelation.
Record t : Type := mk {
  project : option string;
  type : option string;
  srcFilePath : option string;
  srcSymbolName : option (option string);
  dstFilePath : option string;
  dstSymbolName : option (option string);
  metaJson : option (option string)
}.

(** A fully specified row seen as a partial one. *)
Definition full (r : RelationRecord.t) : t :=
  {| project := Some (RelationRecord.project r);
     type := Some (RelationRecord.type r);
     srcFilePath := Some (RelationRecord.srcFilePath r);
     srcSymbolName := Some (RelationRecord.srcSymbolName r);
     dstFilePath := Some (RelationRecord.dstFilePath r);
     dstSymbolName := Some (RelationRecord.dstSymbolName r);
     metaJson := Some (RelationRecord.metaJson r) |}.
End PartialRelation.

(** The rows of the database the repositories below read and write. A
    table is the list of its rows in row-id order; the generated [id]
    column, which no query of these repositories selects, is left out. *)
Record Database : Type := mkDatabase {
  files : list FileRecord.t;
  relations : list RelationRecord.t
}.

Definition emptyDatabase : Database := {| files := []; relations := [] |}.

(** The relation types the extractor produces
    ([CodeRelation['type']]). *)
Definition relationTypes : list string :=
  ["imports"; "calls"; "extends"; "implements"].

(** [eq(column, value)] on a nullable text column: a NULL cell equals
    nothing. *)
Definition eqNullable (cell : option string) (value : string) : bool :=
  match cell with
  | Some v => String.eqb v value
  | None => false
  end.

(* ================================================================== *)
(** * file.repository.ts                                               *)
(* ================================================================== *)

Module FileRepository.

Definition isFile (project filePath : string) (f : FileRecord.t) : bool :=
  String.eqb (FileRecord.project f) project &&
  String.eqb (FileRecord.filePath f) filePath.

Definition getFile (project filePath : string) (db : Database)
  : option FileRecord.t :=
  find (isFile project filePath) (files db).

(** [insert ... onConflictDoUpdate] on the primary key
    [(project, filePath)]. *)
Definition upsertFile (record : FileRecord.t) (db : Database) : Database :=
  let key := isFile (FileRecord.project record) (FileRecord.filePath record) in
  if existsb key (files db)
  then {| files := map (fun f => if key f then record else f) (files db);
          relations := relations db |}
  else {| files := files db ++ [record]; relations := relations db |}.

(** [SELECT * FROM files WHERE project = ?] has no [ORDER BY]: SQLite
    answers it through the index of the primary key
    [(project, file_path)], so the rows of a project come in the order
    of their paths, compared byte by byte, and not in the order they
    were written in.  [byPath] sorts by insertion. *)
Fixpoint insertByPath (r : FileRecord.t) (l : list FileRecord.t)
  : list FileRecord.t :=
  match l with
  | [] => [r]
  | x :: rest =>
      if String.leb (FileRecord.filePath r) (FileRecord.filePath x)
      then r :: l
      else x :: insertByPath r rest
  end.

Definition byPath (l : list FileRecord.t) : list FileRecord.t :=
  fold_right insertByPath [] l.

Definition getAllFiles (project : string) (db : Database)
  : list FileRecord.t :=
  byPath
    (filter (fun f => String.eqb (FileRecord.project f) project) (files db)).

(** [Map.set(key, value)] on a map kept in insertion order. *)
Fixpoint mapSet {V : Type} (key : string) (value : V)
  (m : list (string * V)) : list (string * V) :=
  match m with
  | [] => [(key, value)]
  | (k, v) :: rest =>
      if String.eqb k key then (k, value) :: rest
      else (k, v) :: mapSet key value rest
  end.

Definition getFilesMap (project : string) (db : Database)
  : list (string * FileRecord.t) :=
  fold_left (fun m r => mapSet (FileRecord.filePath r) r m)
    (getAllFiles project db) [].

(** Deleting a file row removes, by the foreign key's ON DELETE CASCADE,
    the relations whose [(project, srcFilePath)] is that file. *)
Definition deleteFile (project filePath : string) (db : Database)
  : Database :=
  {| files := filter (fun f => negb (isFile project filePath f)) (files db);
     relations :=
       if existsb (isFile project filePath) (files db)
       then filter
              (fun r =>
                 negb (String.eqb (RelationRecord.project r) project &&
                       String.eqb (RelationRecord.srcFilePath r) filePath))
              (relations db)
       else relations db |}.

End FileRepository.

(* ================================================================== *)
(** * relation.repository.ts                                           *)
(* ================================================================== *)

Module RelationRepository.

(** [and(eq(project, p), eq(srcFilePath, f))]. *)
Definition fromFile (project srcFilePath : string) (r : RelationRecord.t)
  : bool :=
  String.eqb (RelationRecord.project r) project &&
  String.eqb (RelationRecord.srcFilePath r) srcFilePath.

(** [delete(relations).where(cond).run()]. *)
Definition deleteWhere (cond : RelationRecord.t -> bool) : M Database unit :=
  modify (fun db =>
    {| files := files db;
       relations := filter (fun r => negb (cond r)) (relations db) |}).

(** Modelled from the spec: the schema (src/store/schema.ts) is not among
    the sources.  "Foreign key: [...] relations(project, srcFilePath)
    reference files(project, filePath)"; the connection is opened with
    [PRAGMA foreign_keys = ON], so an insert without its parent row
    fails. *)
Definition hasParent (v : RelationRecord.t) (db : Database) : bool :=
  existsb
    (FileRepository.isFile (RelationRecord.project v)
       (RelationRecord.srcFilePath v))
    (files db).

Definition foreignKeyError : Exn :=
  Error "SQLiteError" "FOREIGN KEY constraint failed".

(** [insert(relations).values(v).run()]. *)
Definition insertRelation (v : RelationRecord.t) : M Database unit :=
  fun db =>
    if hasParent v db
    then (Ok tt, {| files := files db; relations := relations db ++ [v] |})
    else (Throw foreignKeyError, db).

(** The object handed to [values] for one element of [rels]. *)
Definition insertedValues (project srcFilePath : string)
  (rel : PartialRelation.t) : RelationRecord.t :=
  {| RelationRecord.project := project;
     RelationRecord.type := nullish (PartialRelation.type rel) "unknown";
     RelationRecord.srcFilePath :=
       nullish (PartialRelation.srcFilePath rel) srcFilePath;
     RelationRecord.srcSymbolName :=
       nullishNull (PartialRelation.srcSymbolName rel);
     RelationRecord.dstFilePath :=
       nullish (PartialRelation.dstFilePath rel) EmptyString;
     RelationRecord.dstSymbolName :=
       nullishNull (PartialRelation.dstSymbolName rel);
     RelationRecord.metaJson := nullishNull (PartialRelation.metaJson rel) |}.

Definition replaceFileRelations (project srcFilePath : string)
  (rels : list PartialRelation.t) : M Database unit :=
  deleteWhere (fromFile project srcFilePath) ;;;
  if Nat.eqb (List.length rels) 0 then ret tt
  else forEach rels
         (fun rel => insertRelation (insertedValues project srcFilePath rel)).

(** [srcSymbolName] is [None] when the argument is left out. *)
Definition getOutgoing (project srcFilePath : string)
  (srcSymbolName : option string) (db : Database) : list RelationRecord.t :=
  match srcSymbolName with
  | Some name =>
      filter
        (fun r =>
           String.eqb (RelationRecord.project r) project &&
           String.eqb (RelationRecord.srcFilePath r) srcFilePath &&
           eqNullable (RelationRecord.srcSymbolName r) name)
        (relations db)
  | None =>
      filter
        (fun r =>
           String.eqb (RelationRecord.project r) project &&
           String.eqb (RelationRecord.srcFilePath r) srcFilePath)
        (relations db)
  end.

Definition getIncoming (project dstFilePath : string) (db : Database)
  : list RelationRecord.t :=
  filter
    (fun r =>
       String.eqb (RelationRecord.project r) project &&
       String.eqb (RelationRecord.dstFilePath r) dstFilePath)
    (relations db).

Definition getByType (project type : string) (db : Database)
  : list RelationRecord.t :=
  filter
    (fun r =>
       String.eqb (RelationRecord.project r) project &&
       String.eqb (RelationRecord.type r) type)
    (relations db).

Definition deleteFileRelations (project srcFilePath : string)
  : M Database unit :=
  deleteWhere (fromFile project srcFilePath).

(** The [condition] of [retargetRelations]. *)
Definition pointsAt (project oldFile : string) (oldSymbol : option string)
  (r : RelationRecord.t) : bool :=
  match oldSymbol with
  | None =>
      String.eqb (RelationRecord.project r) project &&
      String.eqb (RelationRecord.dstFilePath r) oldFile &&
      match RelationRecord.dstSymbolName r with
      | None => true
      | Some _ => false
      end
  | Some name =>
      String.eqb (RelationRecord.project r) project &&
      String.eqb (RelationRecord.dstFilePath r) oldFile &&
      eqNullable (RelationRecord.dstSymbolName r) name
  end.

Definition retargetRelations (project oldFile : string)
  (oldSymbol : option string) (newFile : string) (newSymbol : option string)
  : M Database unit :=
  modify (fun db =>
    {| files := files db;
       relations :=
         map
           (fun r =>
              if pointsAt project oldFile oldSymbol r
              then {| RelationRecord.project := RelationRecord.project r;
                      RelationRecord.type := RelationRecord.type r;
                      RelationRecord.srcFilePath :=
                        RelationRecord.srcFilePath r;
                      RelationRecord.srcSymbolName :=
                        RelationRecord.srcSymbolName r;
                      RelationRecord.dstFilePath := newFile;
                      RelationRecord.dstSymbolName := newSymbol;
                      RelationRecord.metaJson := RelationRecord.metaJson r |}
              else r)
           (relations db) |}).

End RelationRepository.

(* ================================================================== *)
(** * Keys and integrity of the tables                                 *)
(* ================================================================== *)

Module Tables.

(** The conflict target of [upsertFile]: [(project, filePath)]. *)
Definition fileKey (f : FileRecord.t) : string * string :=
  (FileRecord.project f, FileRecord.filePath f).

(** No two file rows share a key. *)
Definition UniqueFiles (db : Database) : Prop :=
  NoDup (map fileKey (files db)).

(** Every relation row has the file row of its source. *)
Definition Referential (db : Database) : Prop :=
  Forall (fun r => RelationRepository.hasParent r db = true) (relations db).

(** [map.get(key)] on a map kept in insertion order. *)
Fixpoint mapGet {V : Type} (key : string) (m : list (string * V))
  : option V :=
  match m with
  | [] => None
  | (k, v) :: rest => if String.eqb k key then Some v else mapGet key rest
  end.

(** What [retargetRelations] leaves alone in a row. *)
Definition sourceOf (r : RelationRecord.t)
  : string * string * string * option string * option string :=
  (RelationRecord.project r, RelationRecord.type r,
   RelationRecord.srcFilePath r, RelationRecord.srcSymbolName r,
   RelationRecord.metaJson r).

End Tables.

(* ================================================================== *)
(** * The SQLite handle ([bun:sqlite]'s [Database])                     *)
(* ================================================================== *)

Module Sqlite.

(** An open transaction or savepoint: its name ([None] for [BEGIN]) and
    the rows as they were when it was opened. *)
Record Frame : Type := mkFrame {
  savepointName : option string;
  before : Database
}.

(** The handle: the current rows and the open frames, innermost first. *)
Record Handle : Type := mkHandle {
  rows : Database;
  frames : list Frame
}.

Inductive Statement : Type :=
| BEGIN
| COMMIT
| ROLLBACK
| SAVEPOINT (name : string)
| RELEASE (name : string)
| ROLLBACK_TO (name : string).

Definition inTransaction (h : Handle) : bool :=
  match frames h with
  | [] => false
  | _ :: _ => true
  end.

Definition isNamed (name : string) (f : Frame) : bool :=
  match savepointName f with
  | Some n => String.eqb n name
  | None => false
  end.

(** The innermost frame called [name] and the frames outside it. *)
Fixpoint findSavepoint (name : string) (fs : list Frame)
  : option (Frame * list Frame) :=
  match fs with
  | [] => None
  | f :: outer =>
      if isNamed name f then Some (f, outer) else findSavepoint name outer
  end.

(** The rows to restore on [ROLLBACK]: those of the outermost frame. *)
Fixpoint outermost (fs : list Frame) (current : Database) : Database :=
  match fs with
  | [] => current
  | [f] => before f
  | _ :: outer => outermost outer current
  end.

Definition sqliteError (message : string) : Exn := Error "SQLiteError" message.

(** [db.run(statement)] for the transaction-control statements. *)
Definition run (q : Statement) : M Handle unit :=
  fun h =>
    match q with
    | BEGIN =>
        if inTransaction h
        then (Throw (sqliteError
                "cannot start a transaction within a transaction"), h)
        else (Ok tt, {| rows := rows h;
                        frames := [{| savepointName := None;
                                      before := rows h |}] |})
    | COMMIT =>
        if inTransaction h
        then (Ok tt, {| rows := rows h; frames := [] |})
        else (Throw (sqliteError
                "cannot commit - no transaction is active"), h)
    | ROLLBACK =>
        if inTransaction h
        then (Ok tt, {| rows := outermost (frames h) (rows h); frames := [] |})
        else (Throw (sqliteError
                "cannot rollback - no transaction is active"), h)
    | SAVEPOINT name =>
        (Ok tt, {| rows := rows h;
                   frames := {| savepointName := Some name;
                                before := rows h |} :: frames h |})
    | RELEASE name =>
        match findSavepoint name (frames h) with
        | Some (_, outer) => (Ok tt, {| rows := rows h; frames := outer |})
        | None => (Throw (sqliteError ("no such savepoint: " ++ name)%string), h)
        end
    | ROLLBACK_TO name =>
        match findSavepoint name (frames h) with
        | Some (f, outer) =>
            (Ok tt, {| rows := before f; frames := f :: outer |})
        | None => (Throw (sqliteError ("no such savepoint: " ++ name)%string), h)
        end
    end.

(** The savepoint name [db.transaction] uses when it is entered inside
    an open transaction (a tab, [_bs3.], a tab). *)
Definition nestedName : string :=
  String (ascii_of_nat 9) ("_bs3." ++ String (ascii_of_nat 9) EmptyString)%string.

End Sqlite.

(* ================================================================== *)
(** * connection.ts                                                    *)
(* ================================================================== *)

Module DbConnection.

Import Sqlite.

(** The fields of the class: [_drizzle] records whether the drizzle
    wrapper is set. *)
Record t : Type := mk {
  dbPath : string;
  client : option Handle;
  _drizzle : bool;
  txDepth : Z
}.

Definition setClient (c : t) (h : option Handle) : t :=
  {| dbPath := dbPath c; client := h; _drizzle := _drizzle c;
     txDepth := txDepth c |}.

Definition setDrizzle (c : t) (d : bool) : t :=
  {| dbPath := dbPath c; client := client c; _drizzle := d;
     txDepth := txDepth c |}.

Definition setDepth (c : t) (n : Z) : t :=
  {| dbPath := dbPath c; client := client c; _drizzle := _drizzle c;
     txDepth := n |}.

(** [new StoreError(message)] and [new StoreError(message, { cause })]. *)
Definition StoreError (message : string) : Exn := Error "StoreError" message.

Definition StoreErrorCausedBy (message : string) (cause : Exn) : Exn :=
  ErrorWithCause "StoreError" message cause.

(** [err instanceof StoreError]. *)
Definition isStoreError (err : Exn) : bool :=
  match err with
  | Error name _ => String.eqb name "StoreError"
  | ErrorWithCause name _ _ => String.eqb name "StoreError"
  | NonError _ => false
  end.

Definition notOpen : Exn := StoreError "Database is not open. Call open() first.".

(** The handle is used after [close()]. *)
Definition closedHandle : Exn := Error "RangeError" "Cannot use a closed database".

(** The rows the connection currently holds. *)
Definition currentRows (c : t) : Database :=
  match client c with
  | Some h => rows h
  | None => emptyDatabase
  end.

(** A query issued through the [drizzleDb] getter. *)
Definition drizzleDb {A : Type} (query : M Database A) : M t A :=
  fun c =>
    if _drizzle c then
      match client c with
      | Some h =>
          let (r, d) := query (rows h) in
          (r, setClient c (Some {| rows := d; frames := frames h |}))
      | None => (Throw closedHandle, c)
      end
    else (Throw notOpen, c).

Definition _requireClient : M t unit :=
  fun c =>
    match client c with
    | Some _ => (Ok tt, c)
    | None => (Throw notOpen, c)
    end.

(** [db.run(statement)] on the handle [_requireClient] returned. *)
Definition clientRun (q : Statement) : M t unit :=
  fun c =>
    match client c with
    | Some h => let (r, h') := run q h in (r, setClient c (Some h'))
    | None => (Throw closedHandle, c)
    end.

Definition clientInTransaction (c : t) : bool :=
  match client c with
  | Some h => inTransaction h
  | None => false
  end.

(** [db.transaction(fn)()] of bun:sqlite: [BEGIN]/[COMMIT]/[ROLLBACK]
    outside a transaction, a savepoint inside one. *)
Definition nativeTransaction {T : Type} (fn : M t T) : M t T :=
  c <- get ;;
  let nested := clientInTransaction c in
  let before := if nested then SAVEPOINT nestedName else BEGIN in
  let after := if nested then RELEASE nestedName else COMMIT in
  let undo := if nested then ROLLBACK_TO nestedName else ROLLBACK in
  r <- attempt (clientRun before ;;;
                result <- fn ;;
                clientRun after ;;;
                ret result) ;;
  match r with
  | Ok result => ret result
  | Throw ex =>
      c' <- get ;;
      (if clientInTransaction c'
       then clientRun undo ;;;
            (if nested then clientRun after else ret tt)
       else ret tt) ;;;
      throw ex
  end.

(** A number as a template literal prints it. *)
Definition showNumber (n : Z) : string :=
  DecimalString.NilZero.string_of_int (Z.to_int n).

(** [this.txDepth++] and [this.txDepth--]. *)
Definition depthUp (c : t) : t := setDepth c (txDepth c + 1)%Z.

Definition depthDown (c : t) : t := setDepth c (txDepth c - 1)%Z.

Definition transaction {T : Type} (fn : M t T) : M t T :=
  _requireClient ;;;
  c <- get ;;
  if Z.eqb (txDepth c) 0 then
    modify depthUp ;;;
    finally (nativeTransaction fn) depthDown
  else
    let sp := ("sp_" ++ showNumber (txDepth c))%string in
    modify depthUp ;;;
    clientRun (SAVEPOINT sp) ;;;
    finally
      (r <- attempt (result <- fn ;;
                     clientRun (RELEASE sp) ;;;
                     ret result) ;;
       match r with
       | Ok result => ret result
       | Throw err =>
           clientRun (ROLLBACK_TO sp) ;;;
           clientRun (RELEASE sp) ;;;
           throw err
       end)
      depthDown.

Definition _closeClient (c : t) : t := setClient c None.

Definition close (c : t) : t := setDrizzle (_closeClient c) false.

Definition _isCorruptionError (err : Exn) : bool :=
  match err with
  | NonError _ => false
  | Error _ message | ErrorWithCause _ message _ =>
      let msg := toLowerCase message in
      includes "malformed" msg || includes "corrupt" msg ||
      includes "not a database" msg
  end.

(** [fn] leaves the connection as deep as it found it: still open, with
    the same open frames and the same nesting depth. *)
Definition Balanced {T : Type} (fn : M t T) : Prop :=
  forall (c : t) (h : Handle),
    client c = Some h ->
    exists h',
      client (snd (fn c)) = Some h' /\
      frames h' = frames h /\
      txDepth (snd (fn c)) = txDepth c.

(** The frame [transaction] opens around [fn], and the state [fn] is
    entered in: one level deeper, one frame more, the same rows. *)
Definition beginFrame (h : Handle) : Frame :=
  {| savepointName := None; before := rows h |}.

Definition savepointFrame (name : string) (h : Handle) : Frame :=
  {| savepointName := Some name; before := rows h |}.

Definition enter (c : t) (h : Handle) (f : Frame) : t :=
  setClient (depthUp c) (Some {| rows := rows h; frames := f :: frames h |}).

(** ** [open()]

    What lies outside the class: the file system ([node:fs]), the SQLite
    library and the migrator, acting on a state [Os]. *)
Section Open.

Variable Os : Type.
Variable dirname : string -> string.
Variable mkdirSync : string -> M Os unit.
Variable existsSync : string -> Os -> bool.
Variable unlinkSync : string -> M Os unit.
(** [new Database(path)]. *)
Variable newDatabase : string -> M Os Handle.
(** [client.run(sql)] for the pragmas and the full-text setup. *)
Variable runSql : string -> M Os unit.
(** [migrate(drizzle, { migrationsFolder })]. *)
Variable migrate : M Os unit.
(** [client.close()]. *)
Variable closeDatabase : Os -> Os.
(** The statements of [FTS_SETUP_SQL] (schema.ts). *)
Variable FTS_SETUP_SQL : list string.

(** The connection object and the world it opens its file in. *)
Definition World : Type := (t * Os)%type.

Definition os {A : Type} (m : M Os A) : M World A :=
  fun w => let (r, o) := m (snd w) in (r, (fst w, o)).

Definition conn (f : t -> t) : M World unit :=
  modify (fun w => (f (fst w), snd w)).

(** The body of the [try] block. *)
Definition openBody : M World unit :=
  w <- get ;;
  let path := dbPath (fst w) in
  os (mkdirSync (dirname path)) ;;;
  h <- os (newDatabase path) ;;
  conn (fun c => setClient c (Some h)) ;;;
  os (runSql "PRAGMA journal_mode = WAL") ;;;
  os (runSql "PRAGMA foreign_keys = ON") ;;;
  os (runSql "PRAGMA busy_timeout = 5000") ;;;
  conn (fun c => setDrizzle c true) ;;;
  os migrate ;;;
  forEach FTS_SETUP_SQL (fun sql => os (runSql sql)).

(** [_closeClient()] as seen from the world. *)
Definition closeClientInWorld : M World unit :=
  modify (fun w =>
    match client (fst w) with
    | Some _ => (_closeClient (fst w), closeDatabase (snd w))
    | None => w
    end).

Definition unlinkIfPresent (p : string) : M World unit :=
  w <- get ;;
  if existsSync p (snd w) then os (unlinkSync p) else ret tt.

(** [open()] calls itself in its [catch] block; [fuel] bounds the depth of
    these calls, and [None] is a run that needs more of them. *)
Fixpoint open (fuel : nat) (w : World) : option (Res unit * World) :=
  match fuel with
  | 0 => None
  | S fuel' =>
      match openBody w with
      | (Ok _, w1) => Some (Ok tt, w1)
      | (Throw err, w1) =>
          let path := dbPath (fst w1) in
          if _isCorruptionError err && existsSync path (snd w1) then
            match (closeClientInWorld ;;;
                   os (unlinkSync path) ;;;
                   forEach ["-wal"; "-shm"]
                     (fun ext => unlinkIfPresent (path ++ ext)%string)) w1 with
            | (Throw e, w2) => Some (Throw e, w2)
            | (Ok _, w2) =>
                match open fuel' w2 with
                | None => None
                | Some (Ok _, w3) => Some (Ok tt, w3)
                | Some (Throw retryErr, w3) =>
                    Some (Throw (StoreErrorCausedBy
                                   ("Failed to recover database at " ++ path)%string
                                   retryErr), w3)
                end
            end
          else if isStoreError err then Some (Throw err, w1)
          else Some (Throw (StoreErrorCausedBy
                              ("Failed to open database at " ++ path)%string
                              err),
                     w1)
      end
  end.

End Open.

End DbConnection.

(* ================================================================== *)
(** * A file system to run [open()] against                            *)
(* ================================================================== *)

(** A disk on which the next [faults] migrations fail with SQLite's
    "database disk image is malformed".  [new Database(path)] creates the
    file when it is missing; the counters record what [open()] did. *)
Module FaultyDisk.

Record t : Type := mk {
  present : list string;
  faults : nat;
  opened : nat;
  unlinked : list string
}.

Definition dirname (p : string) : string := p.

Definition mkdirSync (_ : string) : M t unit := ret tt.

Definition existsSync (p : string) (d : t) : bool :=
  existsb (String.eqb p) (present d).

Definition unlinkSync (p : string) : M t unit :=
  modify (fun d =>
    {| present := filter (fun q => negb (String.eqb p q)) (present d);
       faults := faults d;
       opened := opened d;
       unlinked := unlinked d ++ [p] |}).

Definition newDatabase (p : string) : M t Sqlite.Handle :=
  fun d =>
    (Ok {| Sqlite.rows := emptyDatabase; Sqlite.frames := [] |},
     {| present := if existsSync p d then present d else p :: present d;
        faults := faults d;
        opened := S (opened d);
        unlinked := unlinked d |}).

Definition runSql (_ : string) : M t unit := ret tt.

Definition malformed : Exn :=
  Error "SQLiteError" "database disk image is malformed".

Definition migrate : M t unit :=
  fun d =>
    match faults d with
    | 0 => (Ok tt, d)
    | S n =>
        (Throw malformed,
         {| present := present d; faults := n; opened := opened d;
            unlinked := unlinked d |})
    end.

Definition closeDatabase (d : t) : t := d.

Definition FTS_SETUP_SQL : list string := [].

Definition path : string := "/project/.zipbul/code-ledger.db".

(** A connection that was never opened, on a disk that holds the
    database file and fails [n] times. *)
Definition start (n : nat) : DbConnection.t * t :=
  ({| DbConnection.dbPath := path; DbConnection.client := None;
      DbConnection._drizzle := false; DbConnection.txDepth := 0 |},
   {| present := [path]; faults := n; opened := 0; unlinked := [] |}).

Definition open (fuel : nat) (w : DbConnection.t * t)
  : option (Res unit * (DbConnection.t * t)) :=
  DbConnection.open t dirname mkdirSync existsSync unlinkSync newDatabase
    runSql migrate closeDatabase FTS_SETUP_SQL fuel w.

End FaultyDisk.

(* ================================================================== *)
(** * [JSON.parse]                                                     *)
(* ================================================================== *)

(** The runtime's [JSON.parse], after the JSON grammar (ECMA-404): one
    value between optional white space.  A number keeps its lexeme and a
    string the characters between its quotes, escapes as written;
    [None] is the [SyntaxError]. *)
Module Json.

Inductive value : Type :=
| JNull
| JBool (b : bool)
| JNumber (lexeme : string)
| JString (chars : string)
| JArray (items : list value)
| JObject (members : list (string * value)).

Definition code (c : ascii) : nat := nat_of_ascii c.

Definition isWs (c : ascii) : bool :=
  let n := code c in
  Nat.eqb n 32 || Nat.eqb n 9 || Nat.eqb n 10 || Nat.eqb n 13.

Definition isDigit (c : ascii) : bool :=
  let n := code c in Nat.leb 48 n && Nat.leb n 57.

Definition isHex (c : ascii) : bool :=
  let n := code c in
  isDigit c || (Nat.leb 65 n && Nat.leb n 70) || (Nat.leb 97 n && Nat.leb n 102).

Fixpoint skipWs (s : string) : string :=
  match s with
  | String c rest => if isWs c then skipWs rest else s
  | EmptyString => s
  end.

(** [expect word s]: [s] without its prefix [word]. *)
Fixpoint expect (word s : string) : option string :=
  match word, s with
  | EmptyString, _ => Some s
  | String a word', String b s' =>
      if Ascii.eqb a b then expect word' s' else None
  | String _ _, EmptyString => None
  end.

Fixpoint digits (s : string) : string * string :=
  match s with
  | String c rest =>
      if isDigit c
      then let (ds, r) := digits rest in (String c ds, r)
      else (EmptyString, s)
  | EmptyString => (EmptyString, s)
  end.

(** The text after an opening quote: the characters up to the closing
    quote, and what follows it. *)
Fixpoint stringBody (s : string) : option (string * string) :=
  match s with
  | EmptyString => None
  | String c rest =>
      if Ascii.eqb c dquote then Some (EmptyString, rest)
      else if Ascii.eqb c "\" then
        match rest with
        | EmptyString => None
        | String e rest' =>
            if Ascii.eqb e "u" then
              match rest' with
              | String h1 (String h2 (String h3 (String h4 rest''))) =>
                  if isHex h1 && isHex h2 && isHex h3 && isHex h4 then
                    match stringBody rest'' with
                    | Some (body, r) =>
                        Some (String c (String e (String h1 (String h2
                                (String h3 (String h4 body))))), r)
                    | None => None
                    end
                  else None
              | _ => None
              end
            else if existsb (Ascii.eqb e)
                      [dquote; "\"%char; "/"%char; "b"%char; "f"%char;
                       "n"%char; "r"%char; "t"%char] then
              match stringBody rest' with
              | Some (body, r) => Some (String c (String e body), r)
              | None => None
              end
            else None
        end
      else if Nat.ltb (code c) 32 then None
      else
        match stringBody rest with
        | Some (body, r) => Some (String c body, r)
        | None => None
        end
  end.

(** A number at the head of [s]: its lexeme and what follows. *)
Definition number (s : string) : option (string * string) :=
  let (sign, s1) :=
    match s with
    | String c rest =>
        if Ascii.eqb c "-" then ("-", rest) else (EmptyString, s)
    | EmptyString => (EmptyString, s)
    end in
  let (int, s2) := digits s1 in
  match int with
  | EmptyString => None
  | String d more =>
      if Ascii.eqb d "0" && negb (String.eqb more EmptyString) then None
      else
        let fraction :=
          match s2 with
          | String c rest =>
              if Ascii.eqb c "." then
                let (fs, r) := digits rest in
                match fs with
                | EmptyString => None
                | _ => Some (String c fs, r)
                end
              else Some (EmptyString, s2)
          | EmptyString => Some (EmptyString, s2)
          end in
        match fraction with
        | None => None
        | Some (frac, s3) =>
            let exponent :=
              match s3 with
              | String c rest =>
                  if Ascii.eqb c "e" || Ascii.eqb c "E" then
                    let (sg, r1) :=
                      match rest with
                      | String g rest' =>
                          if Ascii.eqb g "+" || Ascii.eqb g "-"
                          then (String g EmptyString, rest')
                          else (EmptyString, rest)
                      | EmptyString => (EmptyString, rest)
                      end in
                    let (es, r2) := digits r1 in
                    match es with
                    | EmptyString => None
                    | _ => Some (String c (sg ++ es), r2)
                    end
                  else Some (EmptyString, s3)
              | EmptyString => Some (EmptyString, s3)
              end in
            match exponent with
            | None => None
            | Some (ex, s4) => Some ((sign ++ int ++ frac ++ ex)%string, s4)
            end
        end
  end.

(** [parseValue], with [parseItems] (the elements of an array after its
    first) and [parseMembers] (the members of an object after its first)
    folded into one function by [mode]; [fuel] bounds the nesting and
    the number of elements, both at most the length of the text. *)
Inductive mode : Type :=
| Value
| Items (acc : list value)
| Members (acc : list (string * value)).

Definition member (s : string) : option (string * string) :=
  match skipWs s with
  | String q rest =>
      if Ascii.eqb q dquote then
        match stringBody rest with
        | Some (key, r) =>
            match skipWs r with
            | String colon r' =>
                if Ascii.eqb colon ":" then Some (key, r') else None
            | EmptyString => None
            end
        | None => None
        end
      else None
  | EmptyString => None
  end.

Fixpoint parse (fuel : nat) (m : mode) (s : string)
  : option (value * string) :=
  match fuel with
  | 0 => None
  | S fuel' =>
      match m with
      | Value =>
          match skipWs s with
          | EmptyString => None
          | String c rest as s0 =>
              if Ascii.eqb c "n" then
                option_map (fun r => (JNull, r)) (expect "null" s0)
              else if Ascii.eqb c "t" then
                option_map (fun r => (JBool true, r)) (expect "true" s0)
              else if Ascii.eqb c "f" then
                option_map (fun r => (JBool false, r)) (expect "false" s0)
              else if Ascii.eqb c dquote then
                option_map (fun br => (JString (fst br), snd br))
                  (stringBody rest)
              else if Ascii.eqb c "[" then
                match skipWs rest with
                | String close r =>
                    if Ascii.eqb close "]" then Some (JArray [], r)
                    else
                      match parse fuel' Value rest with
                      | Some (v, r1) => parse fuel' (Items [v]) r1
                      | None => None
                      end
                | EmptyString => None
                end
              else if Ascii.eqb c "{" then
                match skipWs rest with
                | String close r =>
                    if Ascii.eqb close "}" then Some (JObject [], r)
                    else
                      match member rest with
                      | Some (key, r1) =>
                          match parse fuel' Value r1 with
                          | Some (v, r2) => parse fuel' (Members [(key, v)]) r2
                          | None => None
                          end
                      | None => None
                      end
                | EmptyString => None
                end
              else if Ascii.eqb c "-" || isDigit c then
                option_map (fun nr => (JNumber (fst nr), snd nr)) (number s0)
              else None
          end
      | Items acc =>
          match skipWs s with
          | String c rest =>
              if Ascii.eqb c "]" then Some (JArray acc, rest)
              else if Ascii.eqb c "," then
                match parse fuel' Value rest with
                | Some (v, r1) => parse fuel' (Items (acc ++ [v])) r1
                | None => None
                end
              else None
          | EmptyString => None
          end
      | Members acc =>
          match skipWs s with
          | String c rest =>
              if Ascii.eqb c "}" then Some (JObject acc, rest)
              else if Ascii.eqb c "," then
                match member rest with
                | Some (key, r1) =>
                    match parse fuel' Value r1 with
                    | Some (v, r2) =>
                        parse fuel' (Members (acc ++ [(key, v)])) r2
                    | None => None
                    end
                | None => None
                end
              else None
          | EmptyString => None
          end
      end
  end.

(** [JSON.parse(text)]. *)
Definition JSON_parse (text : string) : option value :=
  match parse (2 * String.length text + 2) Value text with
  | Some (v, rest) =>
      match skipWs rest with
      | EmptyString => Some v
      | String _ _ => None
      end
  | None => None
  end.

End Json.

(* ================================================================== *)
(** * symbol-search.ts                                                 *)
(* ================================================================== *)

(** A row of the symbols table as the repository returns it
    ([SymbolRecord & { id }]). *)
Module SymbolRecord.
Record t : Type := mk {
  id : Z;
  project : string;
  filePath : string;
  kind : string;
  name : string;
  startLine : Z;
  startColumn : Z;
  endLine : Z;
  endColumn : Z;
  isExported : Z;
  signature : option string;
  fingerprint : option string;
  detailJson : option string;
  contentHash : string;
  indexedAt : string
}.
End SymbolRecord.

Module SymbolSearchQuery.
Record t : Type := mk {
  text : option string;
  kind : option string;
  filePath : option string;
  isExported : option bool;
  project : option string;
  limit : option Z
}.
End SymbolSearchQuery.

(** The argument of [ISymbolRepo.searchByQuery]. *)
Module SearchOpts.
Record t : Type := mk {
  ftsQuery : option string;
  kind : option string;
  filePath : option string;
  isExported : option bool;
  project : option string;
  limit : Z
}.
End SearchOpts.

Module SymbolSearchResult.
Record position : Type := mkPosition { line : Z; column : Z }.
Record span : Type := mkSpan { start : position; end_ : position }.
Record t : Type := mk {
  id : Z;
  filePath : string;
  kind : string;
  name : string;
  span_ : span;
  isExported : bool;
  signature : option string;
  fingerprint : option string;
  detail : Json.value
}.
End SymbolSearchResult.

Module SymbolSearch.

(** White space as [trim] and [\s] see it among the ASCII characters:
    the space and the five characters from the tab to the carriage
    return.  The white space of Unicode beyond ASCII (the no-break space
    and the like) is not modelled; what is proved of [trim], [split] and
    [ftsQueryOf] is stated for ASCII text. *)
Definition isSpace (c : ascii) : bool :=
  let n := nat_of_ascii c in
  Nat.eqb n 32 || (Nat.leb 9 n && Nat.leb n 13).

Fixpoint trimStart (s : string) : string :=
  match s with
  | String c rest => if isSpace c then trimStart rest else s
  | EmptyString => s
  end.

Fixpoint trimEnd (s : string) : string :=
  match s with
  | EmptyString => EmptyString
  | String c rest =>
      match trimEnd rest with
      | EmptyString => if isSpace c then EmptyString else String c EmptyString
      | kept => String c kept
      end
  end.

Definition trim (s : string) : string := trimEnd (trimStart s).

(** [s.split(/\s+/)]: [cur] is the piece being read, [inRun] says that
    the last character read was white space. *)
Fixpoint splitSpaces (inRun : bool) (cur s : string) : list string :=
  match s with
  | EmptyString => [cur]
  | String c rest =>
      if isSpace c then
        if inRun then splitSpaces true cur rest
        else cur :: splitSpaces true EmptyString rest
      else splitSpaces false (cur ++ String c EmptyString) rest
  end.

Definition split (s : string) : list string :=
  splitSpaces false EmptyString s.

(** The characters the escaping [replace] of [symbolSearch] puts a
    backslash before: the double quote, [*], [^], the parentheses and
    [-]. *)
Definition isFtsMeta (c : ascii) : bool :=
  existsb (Ascii.eqb c)
    [dquote; "*"%char; "^"%char; "("%char; ")"%char; "-"%char].

Fixpoint escapeFts (s : string) : string :=
  match s with
  | EmptyString => EmptyString
  | String c rest =>
      if isFtsMeta c then String "\" (String c (escapeFts rest))
      else String c (escapeFts rest)
  end.

Fixpoint join (sep : string) (l : list string) : string :=
  match l with
  | [] => EmptyString
  | [x] => x
  | x :: rest => (x ++ sep ++ join sep rest)%string
  end.

Definition ftsQueryOf (text : string) : string :=
  join " " (map (fun t => (escapeFts t ++ "*")%string) (split (trim text))).

(** A string in a condition: empty is false. *)
Definition truthy (s : option string) : bool :=
  match s with
  | Some (String _ _) => true
  | _ => false
  end.

(** The [SyntaxError] of [JSON.parse]; its message is the engine's. *)
Definition syntaxError : Exn := Error "SyntaxError" "JSON Parse error".

(** [r.detailJson ? JSON.parse(r.detailJson) : {}]. *)
Definition detailOf (detailJson : option string) : Res Json.value :=
  match detailJson with
  | Some (String c rest) =>
      match Json.JSON_parse (String c rest) with
      | Some v => Ok v
      | None => Throw syntaxError
      end
  | _ => Ok (Json.JObject [])
  end.

(** The callback of [records.map]. *)
Definition toResult (r : SymbolRecord.t) : Res SymbolSearchResult.t :=
  match detailOf (SymbolRecord.detailJson r) with
  | Ok detail =>
      Ok {| SymbolSearchResult.id := SymbolRecord.id r;
            SymbolSearchResult.filePath := SymbolRecord.filePath r;
            SymbolSearchResult.kind := SymbolRecord.kind r;
            SymbolSearchResult.name := SymbolRecord.name r;
            SymbolSearchResult.span_ :=
              {| SymbolSearchResult.start :=
                   {| SymbolSearchResult.line := SymbolRecord.startLine r;
                      SymbolSearchResult.column :=
                        SymbolRecord.startColumn r |};
                 SymbolSearchResult.end_ :=
                   {| SymbolSearchResult.line := SymbolRecord.endLine r;
                      SymbolSearchResult.column :=
                        SymbolRecord.endColumn r |} |};
            SymbolSearchResult.isExported :=
              Z.eqb (SymbolRecord.isExported r) 1;
            SymbolSearchResult.signature := SymbolRecord.signature r;
            SymbolSearchResult.fingerprint := SymbolRecord.fingerprint r;
            SymbolSearchResult.detail := detail |}
  | Throw e => Throw e
  end.

(** [records.map(f)] for a callback that may throw. *)
Fixpoint mapThrowing {A B : Type} (f : A -> Res B) (l : list A)
  : Res (list B) :=
  match l with
  | [] => Ok []
  | x :: rest =>
      match f x with
      | Throw e => Throw e
      | Ok y =>
          match mapThrowing f rest with
          | Throw e => Throw e
          | Ok ys => Ok (y :: ys)
          end
      end
  end.

(** The [opts] object [symbolSearch] hands to the repository. *)
Definition searchOpts (project : option string)
  (query : SymbolSearchQuery.t) : SearchOpts.t :=
  let effectiveProject :=
    match SymbolSearchQuery.project query with
    | Some p => Some p
    | None => project
    end in
  let limit := nullish (SymbolSearchQuery.limit query) 100%Z in
  {| SearchOpts.ftsQuery :=
       if truthy (SymbolSearchQuery.text query)
       then option_map ftsQueryOf (SymbolSearchQuery.text query)
       else None;
     SearchOpts.kind := SymbolSearchQuery.kind query;
     SearchOpts.filePath := SymbolSearchQuery.filePath query;
     SearchOpts.isExported := SymbolSearchQuery.isExported query;
     SearchOpts.project := effectiveProject;
     SearchOpts.limit := limit |}.

Section Search.

(** [symbolRepo.searchByQuery]. *)
Variable searchByQuery : SearchOpts.t -> Res (list SymbolRecord.t).

Definition symbolSearch (project : option string)
  (query : SymbolSearchQuery.t) : Res (list SymbolSearchResult.t) :=
  match searchByQuery (searchOpts project query) with
  | Throw e => Throw e
  | Ok records => mapThrowing toResult records
  end.

End Search.

End SymbolSearch.

(** ASCII texts as a user types them into a search: words with white
    space around and between them. *)
Module SearchText.

Fixpoint allOf (p : ascii -> bool) (s : string) : bool :=
  match s with
  | EmptyString => true
  | String c rest => p c && allOf p rest
  end.

(** An ASCII character: a code below 128. *)
Definition isAscii (c : ascii) : bool := Nat.ltb (nat_of_ascii c) 128.

(** Nothing but ASCII white space. *)
Definition blank (s : string) : bool := allOf SymbolSearch.isSpace s.

(** An ASCII character that is not white space. *)
Definition isWordChar (c : ascii) : bool :=
  isAscii c && negb (SymbolSearch.isSpace c).

(** A word: not empty, of ASCII characters, no white space in it. *)
Definition word (s : string) : bool :=
  match s with
  | EmptyString => false
  | String _ _ => allOf isWordChar s
  end.

(** A run of ASCII white space between two words: blank and not empty. *)
Definition gap (s : string) : bool :=
  match s with
  | EmptyString => false
  | String _ _ => blank s
  end.

(** [first], then each further word after its gap. *)
Fixpoint spaced (first : string) (rest : list (string * string)) : string :=
  match rest with
  | [] => first
  | (ws, t) :: rest' => (first ++ ws ++ spaced t rest')%string
  end.

End SearchText.

(** Test data in the manner of [makeSymbolRecord] (test/store.test.ts). *)
Module Fixtures.

Definition makeSymbolRecord (filePath name : string)
  (fingerprint detailJson : option string) : SymbolRecord.t :=
  {| SymbolRecord.id := 1;
     SymbolRecord.project := "test-project";
     SymbolRecord.filePath := filePath;
     SymbolRecord.kind := "function";
     SymbolRecord.name := name;
     SymbolRecord.startLine := 1;
     SymbolRecord.startColumn := 0;
     SymbolRecord.endLine := 5;
     SymbolRecord.endColumn := 1;
     SymbolRecord.isExported := 1;
     SymbolRecord.signature := Some "params:1|async:0";
     SymbolRecord.fingerprint := fingerprint;
     SymbolRecord.detailJson := detailJson;
     SymbolRecord.contentHash := "abc123";
     SymbolRecord.indexedAt := "2026-01-01T00:00:00.000Z" |}.

Definition makeFileRecord (filePath : string) : FileRecord.t :=
  {| FileRecord.project := "test-project";
     FileRecord.filePath := filePath;
     FileRecord.mtimeMs := 1000000;
     FileRecord.size := 100;
     FileRecord.contentHash := "abc123";
     FileRecord.updatedAt := "2026-01-01T00:00:00.000Z" |}.

Definition makeRelationRecord (srcFilePath : string)
  (srcSymbolName : option string) (dstFilePath : string)
  : RelationRecord.t :=
  {| RelationRecord.project := "test-project";
     RelationRecord.type := "imports";
     RelationRecord.srcFilePath := srcFilePath;
     RelationRecord.srcSymbolName := srcSymbolName;
     RelationRecord.dstFilePath := dstFilePath;
     RelationRecord.dstSymbolName := None;
     RelationRecord.metaJson := None |}.

(** Two files of the test project and one import between them. *)
Definition twoFiles : Database :=
  {| files := [makeFileRecord "src/index.ts"; makeFileRecord "src/utils.ts"];
     relations := [makeRelationRecord "src/index.ts" None "src/utils.ts"] |}.

Definition emptyQuery : SymbolSearchQuery.t :=
  {| SymbolSearchQuery.text := None;
     SymbolSearchQuery.kind := None;
     SymbolSearchQuery.filePath := None;
     SymbolSearchQuery.isExported := None;
     SymbolSearchQuery.project := None;
     SymbolSearchQuery.limit := None |}.

End Fixtures.

(* ================================================================== *)
(** * symbol-indexer.ts                                                *)
(* ================================================================== *)

(** [ExtractedSymbol] (extractor/types.ts), as far as the indexer reads
    it: the parameters count by their number, the members are symbols
    themselves.  The fields only [buildDetailJson] reads stay inside
    the symbol the extractor hands over. *)
Module ExtractedSymbol.

Inductive t (Param : Type) : Type :=
  mk (kind name : string)
     (startLine startColumn endLine endColumn : Z)
     (isExported : bool)
     (parameters : option (list Param))
     (modifiers : list string)
     (members : option (list (t Param))).

Arguments mk {Param}.

Section Fields.
Context {Param : Type}.

Definition kind (s : t Param) : string :=
  match s with mk k _ _ _ _ _ _ _ _ _ => k end.
Definition name (s : t Param) : string :=
  match s with mk _ n _ _ _ _ _ _ _ _ => n end.
Definition startLine (s : t Param) : Z :=
  match s with mk _ _ l _ _ _ _ _ _ _ => l end.
Definition startColumn (s : t Param) : Z :=
  match s with mk _ _ _ c _ _ _ _ _ _ => c end.
Definition endLine (s : t Param) : Z :=
  match s with mk _ _ _ _ l _ _ _ _ _ => l end.
Definition endColumn (s : t Param) : Z :=
  match s with mk _ _ _ _ _ c _ _ _ _ => c end.
Definition isExported (s : t Param) : bool :=
  match s with mk _ _ _ _ _ _ e _ _ _ => e end.
Definition parameters (s : t Param) : option (list Param) :=
  match s with mk _ _ _ _ _ _ _ p _ _ => p end.
Definition modifiers (s : t Param) : list string :=
  match s with mk _ _ _ _ _ _ _ _ m _ => m end.
Definition members (s : t Param) : option (list (t Param)) :=
  match s with mk _ _ _ _ _ _ _ _ _ m => m end.

End Fields.
End ExtractedSymbol.

(** [SymbolDbRow]. *)
Module SymbolDbRow.
Record t : Type := mk {
  project : string;
  filePath : string;
  kind : string;
  name : string;
  startLine : Z;
  startColumn : Z;
  endLine : Z;
  endColumn : Z;
  isExported : Z;
  signature : option string;
  fingerprint : option string;
  detailJson : option string;
  contentHash : string;
  indexedAt : string
}.
End SymbolDbRow.

Module SymbolIndexer.

Section Indexer.

Context {Param ParsedFile W : Type}.

(** [extractSymbols] (extractor/symbol-extractor.ts), [hashString]
    (common/hasher.ts), the [JSON.stringify] of the detail object, the
    clock ([new Date().toISOString()], by the number of the reading) and
    [symbolRepo.replaceFileSymbols]. *)
Variable extractSymbols : ParsedFile -> list (ExtractedSymbol.t Param).
Variable hashString : string -> string.
Variable buildDetailJson : ExtractedSymbol.t Param -> option string.
Variable clock : nat -> string.
Variable replaceFileSymbols :
  string -> string -> string -> list SymbolDbRow.t -> M W unit.

Definition isCallable (kind : string) : bool :=
  String.eqb kind "function" || String.eqb kind "method".

Definition buildSignature (sym : ExtractedSymbol.t Param)
  : option string :=
  if isCallable (ExtractedSymbol.kind sym) then
    let paramCount :=
      match ExtractedSymbol.parameters sym with
      | Some ps => List.length ps
      | None => 0
      end in
    let isAsync :=
      if existsb (String.eqb "async") (ExtractedSymbol.modifiers sym)
      then 1%Z else 0%Z in
    Some ("params:" ++ DbConnection.showNumber (Z.of_nat paramCount)
          ++ "|async:" ++ DbConnection.showNumber isAsync)%string
  else None.

(** The text [buildRow] hashes. *)
Definition fingerprintText (name kind : string) (signature : option string)
  : string :=
  (name ++ "|" ++ kind ++ "|" ++ nullish signature EmptyString)%string.

(** [buildRow]; [reading] is the number of the clock reading it makes. *)
Definition buildRow (sym : ExtractedSymbol.t Param) (name : string)
  (project filePath contentHash : string) (reading : nat) : SymbolDbRow.t :=
  let signature := buildSignature sym in
  let fingerprint :=
    hashString (fingerprintText name (ExtractedSymbol.kind sym) signature) in
  {| SymbolDbRow.project := project;
     SymbolDbRow.filePath := filePath;
     SymbolDbRow.kind := ExtractedSymbol.kind sym;
     SymbolDbRow.name := name;
     SymbolDbRow.startLine := ExtractedSymbol.startLine sym;
     SymbolDbRow.startColumn := ExtractedSymbol.startColumn sym;
     SymbolDbRow.endLine := ExtractedSymbol.endLine sym;
     SymbolDbRow.endColumn := ExtractedSymbol.endColumn sym;
     SymbolDbRow.isExported := if ExtractedSymbol.isExported sym then 1 else 0;
     SymbolDbRow.signature := signature;
     SymbolDbRow.fingerprint := Some fingerprint;
     SymbolDbRow.detailJson := buildDetailJson sym;
     SymbolDbRow.contentHash := contentHash;
     SymbolDbRow.indexedAt := clock reading |}.

(** The inner loop: the rows of the members of [sym]. *)
Fixpoint memberRows (sym : ExtractedSymbol.t Param)
  (members : list (ExtractedSymbol.t Param))
  (project filePath contentHash : string) (reading : nat)
  : list SymbolDbRow.t :=
  match members with
  | [] => []
  | member :: rest =>
      buildRow member
        (ExtractedSymbol.name sym ++ "." ++ ExtractedSymbol.name member)%string
        project filePath contentHash reading
      :: memberRows sym rest project filePath contentHash (S reading)
  end.

(** The outer loop: [rows] after the symbols of [extracted]. *)
Fixpoint symbolRows (extracted : list (ExtractedSymbol.t Param))
  (project filePath contentHash : string) (reading : nat)
  : list SymbolDbRow.t :=
  match extracted with
  | [] => []
  | sym :: rest =>
      let members := nullish (ExtractedSymbol.members sym) [] in
      buildRow sym (ExtractedSymbol.name sym) project filePath contentHash
        reading
      :: memberRows sym members project filePath contentHash (S reading)
      ++ symbolRows rest project filePath contentHash
           (S reading + List.length members)
  end.

Definition indexFileSymbols (parsed : ParsedFile)
  (project filePath contentHash : string) : M W unit :=
  let extracted := extractSymbols parsed in
  let rows := symbolRows extracted project filePath contentHash 0 in
  replaceFileSymbols project filePath contentHash rows.

(** The names the rows of one symbol carry: its own, then
    [symbol.member] for each member. *)
Definition rowNames (sym : ExtractedSymbol.t Param) : list string :=
  ExtractedSymbol.name sym ::
  map (fun member =>
         (ExtractedSymbol.name sym ++ "." ++ ExtractedSymbol.name member)%string)
    (nullish (ExtractedSymbol.members sym) []).

(** What every row of one call has in common. *)
Definition rowOfCall (project filePath contentHash : string)
  (r : SymbolDbRow.t) : Prop :=
  SymbolDbRow.project r = project /\
  SymbolDbRow.filePath r = filePath /\
  SymbolDbRow.contentHash r = contentHash /\
  SymbolDbRow.fingerprint r =
    Some (hashString (fingerprintText (SymbolDbRow.name r)
                        (SymbolDbRow.kind r) (SymbolDbRow.signature r))) /\
  (SymbolDbRow.signature r = None <-> isCallable (SymbolDbRow.kind r) = false).

End Indexer.

(** What a row keeps when its file moves. *)
Definition identityOf (r : SymbolDbRow.t)
  : string * string * option string * option string * option string :=
  (SymbolDbRow.name r, SymbolDbRow.kind r, SymbolDbRow.signature r,
   SymbolDbRow.fingerprint r, SymbolDbRow.detailJson r).

End SymbolIndexer.

(* ================================================================== *)
(** * relation-search.ts                                               *)
(* ================================================================== *)

(** [CodeRelation] (extractor/types.ts) as [relationSearch] builds it. *)
Module CodeRelation.
Record t : Type := mk {
  type : string;
  srcFilePath : string;
  srcSymbolName : option string;
  dstFilePath : string;
  dstSymbolName : option string;
  metaJson : option string
}.
End CodeRelation.

Module RelationSearchQuery.
Record t : Type := mk {
  srcFilePath : option string;
  srcSymbolName : option string;
  dstFilePath : option string;
  dstSymbolName : option string;
  type : option string;
  project : option string;
  limit : option Z
}.
End RelationSearchQuery.

(** The argument of [IRelationRepo.searchRelations]. *)
Module RelationSearchOpts.
Record t : Type := mk {
  srcFilePath : option string;
  srcSymbolName : option string;
  dstFilePath : option string;
  dstSymbolName : option string;
  type : option string;
  project : option string;
  limit : Z
}.
End RelationSearchOpts.

Module RelationSearch.

Definition searchOpts (project : option string)
  (query : RelationSearchQuery.t) : RelationSearchOpts.t :=
  let effectiveProject :=
    match RelationSearchQuery.project query with
    | Some p => Some p
    | None => project
    end in
  let limit := nullish (RelationSearchQuery.limit query) 500%Z in
  {| RelationSearchOpts.srcFilePath := RelationSearchQuery.srcFilePath query;
     RelationSearchOpts.srcSymbolName :=
       RelationSearchQuery.srcSymbolName query;
     RelationSearchOpts.dstFilePath := RelationSearchQuery.dstFilePath query;
     RelationSearchOpts.dstSymbolName :=
       RelationSearchQuery.dstSymbolName query;
     RelationSearchOpts.type := RelationSearchQuery.type query;
     RelationSearchOpts.project := effectiveProject;
     RelationSearchOpts.limit := limit |}.

(** The callback of [records.map]. *)
Definition toRelation (r : RelationRecord.t) : CodeRelation.t :=
  {| CodeRelation.type := RelationRecord.type r;
     CodeRelation.srcFilePath := RelationRecord.srcFilePath r;
     CodeRelation.srcSymbolName := RelationRecord.srcSymbolName r;
     CodeRelation.dstFilePath := RelationRecord.dstFilePath r;
     CodeRelation.dstSymbolName := RelationRecord.dstSymbolName r;
     CodeRelation.metaJson := RelationRecord.metaJson r |}.

Definition relationSearch {W : Type}
  (searchRelations : RelationSearchOpts.t -> M W (list RelationRecord.t))
  (project : option string) (query : RelationSearchQuery.t)
  : M W (list CodeRelation.t) :=
  records <- searchRelations (searchOpts project query) ;;
  ret (map toRelation records).

End RelationSearch.

(* ================================================================== *)
(** * code-ledger.ts: the life cycle and the search interface          *)
(* ================================================================== *)

Module CodeLedger.

(** What the instance asks of its collaborators, in the order asked. *)
Inductive Call : Type :=
| ProcessOff (signal : string) (handler : nat)
| CoordinatorShutdown
| WatcherClose
| ClearInterval (timer : nat)
| ReleaseWatcherRole
| DbClose
| CoordinatorFullIndex
| SymbolSearchFn (project : option string) (query : SymbolSearchQuery.t)
| RelationSearchFn (project : option string) (query : RelationSearchQuery.t).

Section Ledger.

(** The world of the collaborators and what [fullIndex] resolves to. *)
Context {W IndexResult : Type}.

(** The fields of the instance the life cycle and the searches use;
    [coordinator] and [watcher] record whether the field is set. *)
Record t : Type := mk {
  _closed : bool;
  coordinator : bool;
  watcher : bool;
  _timer : option nat;
  _signalHandlers : list (string * nat);
  defaultProject : string;
  world : W;
  calls : list Call
}.

Definition setClosed (s : t) (b : bool) : t :=
  {| _closed := b; coordinator := coordinator s; watcher := watcher s;
     _timer := _timer s; _signalHandlers := _signalHandlers s;
     defaultProject := defaultProject s; world := world s;
     calls := calls s |}.

Definition setTimer (s : t) (timer : option nat) : t :=
  {| _closed := _closed s; coordinator := coordinator s; watcher := watcher s;
     _timer := timer; _signalHandlers := _signalHandlers s;
     defaultProject := defaultProject s; world := world s;
     calls := calls s |}.

Definition setSignalHandlers (s : t) (hs : list (string * nat)) : t :=
  {| _closed := _closed s; coordinator := coordinator s; watcher := watcher s;
     _timer := _timer s; _signalHandlers := hs;
     defaultProject := defaultProject s; world := world s;
     calls := calls s |}.

Definition setWorldCalls (s : t) (w : W) (cs : list Call) : t :=
  {| _closed := _closed s; coordinator := coordinator s; watcher := watcher s;
     _timer := _timer s; _signalHandlers := _signalHandlers s;
     defaultProject := defaultProject s; world := w; calls := cs |}.

(** The collaborators: [coordinator.shutdown], [watcher.close],
    [_releaseWatcherRoleFn], [db.close], [coordinator.fullIndex] and the
    two injected search functions. *)
Record Collaborators : Type := mkCollaborators {
  shutdown : M W unit;
  watcherClose : M W unit;
  releaseWatcherRole : M W unit;
  dbClose : M W unit;
  fullIndex : M W IndexResult;
  _symbolSearchFn :
    option string -> SymbolSearchQuery.t -> M W (list SymbolSearchResult.t);
  _relationSearchFn :
    option string -> RelationSearchQuery.t -> M W (list CodeRelation.t)
}.

Variable deps : Collaborators.

(** A call on a collaborator: recorded, then run against the world. *)
Definition call {A : Type} (c : Call) (m : M W A) : M t A :=
  fun s =>
    let (r, w) := m (world s) in
    (r, setWorldCalls s w (calls s ++ [c])).

(** [process.off] and [clearInterval] are only recorded. *)
Definition record (c : Call) : M t unit :=
  fun s => (Ok tt, setWorldCalls s (world s) (calls s ++ [c])).

(** [close()], taken as one step: what it awaits is there when it asks
    for it. *)
Definition close : M t unit :=
  s <- get ;;
  if _closed s then ret tt
  else
    modify (fun s => setClosed s true) ;;;
    forEach (_signalHandlers s)
      (fun h => record (ProcessOff (fst h) (snd h))) ;;;
    modify (fun s => setSignalHandlers s []) ;;;
    (if coordinator s then call CoordinatorShutdown (shutdown deps)
     else ret tt) ;;;
    (if watcher s then call WatcherClose (watcherClose deps) else ret tt) ;;;
    (match _timer s with
     | Some timer =>
         record (ClearInterval timer) ;;;
         modify (fun s => setTimer s None)
     | None => ret tt
     end) ;;;
    call ReleaseWatcherRole (releaseWatcherRole deps) ;;;
    call DbClose (dbClose deps).

Definition closedError : Exn := Error "Error" "CodeLedger: instance is closed".

Definition readerError : Exn :=
  Error "Error" "CodeLedger: reindex() is not available for readers".

Definition reindex : M t IndexResult :=
  s <- get ;;
  if coordinator s then call CoordinatorFullIndex (fullIndex deps)
  else throw readerError.

Definition searchSymbols (query : SymbolSearchQuery.t)
  : M t (list SymbolSearchResult.t) :=
  s <- get ;;
  if _closed s then throw closedError
  else
    let project := Some (defaultProject s) in
    call (SymbolSearchFn project query) (_symbolSearchFn deps project query).

Definition searchRelations (query : RelationSearchQuery.t)
  : M t (list CodeRelation.t) :=
  s <- get ;;
  if _closed s then throw closedError
  else
    let project := Some (defaultProject s) in
    call (RelationSearchFn project query)
      (_relationSearchFn deps project query).

(** The query of [getDependencies]. *)
Definition dependenciesQuery (filePath project : string)
  : RelationSearchQuery.t :=
  {| RelationSearchQuery.srcFilePath := Some filePath;
     RelationSearchQuery.srcSymbolName := None;
     RelationSearchQuery.dstFilePath := None;
     RelationSearchQuery.dstSymbolName := None;
     RelationSearchQuery.type := Some "imports";
     RelationSearchQuery.project := Some project;
     RelationSearchQuery.limit := Some 10000%Z |}.

(** The query of [getDependents]. *)
Definition dependentsQuery (filePath project : string)
  : RelationSearchQuery.t :=
  {| RelationSearchQuery.srcFilePath := None;
     RelationSearchQuery.srcSymbolName := None;
     RelationSearchQuery.dstFilePath := Some filePath;
     RelationSearchQuery.dstSymbolName := None;
     RelationSearchQuery.type := Some "imports";
     RelationSearchQuery.project := Some project;
     RelationSearchQuery.limit := Some 10000%Z |}.

Definition getDependencies (filePath : string) (project : option string)
  : M t (list string) :=
  s <- get ;;
  let query :=
    dependenciesQuery filePath (nullish project (defaultProject s)) in
  found <- call (RelationSearchFn None query)
             (_relationSearchFn deps None query) ;;
  ret (map CodeRelation.dstFilePath found).

Definition getDependents (filePath : string) (project : option string)
  : M t (list string) :=
  s <- get ;;
  let query :=
    dependentsQuery filePath (nullish project (defaultProject s)) in
  found <- call (RelationSearchFn None query)
             (_relationSearchFn deps None query) ;;
  ret (map CodeRelation.srcFilePath found).

(** The calls [close()] makes when nothing fails. *)
Definition cleanup (s : t) : list Call :=
  map (fun h => ProcessOff (fst h) (snd h)) (_signalHandlers s) ++
  (if coordinator s then [CoordinatorShutdown] else []) ++
  (if watcher s then [WatcherClose] else []) ++
  (match _timer s with
   | Some timer => [ClearInterval timer]
   | None => []
   end) ++
  [ReleaseWatcherRole; DbClose].

(** A collaborator that never fails. *)
Definition answers (m : M W unit) : Prop :=
  forall w, exists w', m w = (Ok tt, w').

(** What keeps a closed instance closed. *)
Definition staysClosed {A : Type} (m : M t A) : Prop :=
  forall s, _closed s = true -> _closed (snd (m s)) = true.

End Ledger.

End CodeLedger.

(* ================================================================== *)
(** * index-coordinator.ts                                             *)
(* ================================================================== *)

Module EventType.
Inductive t : Type := create | change | delete.
End EventType.

Module FileChangeEvent.
Record t : Type := mk { eventType : EventType.t; filePath : string }.
End FileChangeEvent.

Module ProjectBoundary.
Record t : Type := mk { dir : string; project : string }.
End ProjectBoundary.

(** An element of [changed]. *)
Module FileChange.
Record t : Type := mk {
  filePath : string;
  contentHash : string;
  mtimeMs : Z;
  size : Z
}.
End FileChange.

Module DetectChangesResult.
Record t : Type := mk {
  changed : list FileChange.t;
  unchanged : list FileChange.t;
  deleted : list string
}.
End DetectChangesResult.

Module IndexResult.
Record t : Type := mk {
  indexedFiles : Z;
  removedFiles : Z;
  totalSymbols : Z;
  totalRelations : Z;
  durationMs : Z;
  changedFiles : list string;
  deletedFiles : list string;
  failedFiles : list string
}.
End IndexResult.

Module IndexCoordinator.

Definition WATCHER_DEBOUNCE_MS : Z := 100.

(** What the coordinator does to the outside, in the order it does it:
    the calls a test double of a collaborator would record, the runs it
    starts and the timers it arms. *)
Inductive Call : Type :=
| GetFilesMap (project : string)
| GetAllFiles (project : string)
| UpsertFile (record : FileRecord.t)
| DeleteFile (project filePath : string)
| GetFileSymbols (project filePath : string)
| GetByFingerprint (project fingerprint : string)
| DeleteFileSymbols (project filePath : string)
| RetargetRelations (project oldFile : string) (oldSymbol : option string)
    (newFile : string) (newSymbol : option string)
| DeleteFileRelations (project filePath : string)
| DetectChanges
| BunFile (absPath : string)
| ParseSource (absPath : string)
| ParseCacheSet (filePath : string)
| IndexFileSymbols (project filePath contentHash : string)
| IndexFileRelations (project filePath : string)
| Transaction
| ConsoleError (message : string)
| ClearTsconfigPathsCache (projectRoot : string)
| LoadTsconfigPaths (projectRoot : string)
| DiscoverProjects (projectRoot : string)
| Callback (subscriber : nat)
| SetTimeout (handle : nat) (ms : Z)
| ClearTimeout (handle : nat)
| DoIndex (promise : nat) (events : option (list FileChangeEvent.t))
    (useTransaction : bool).

Section Coordinator.

(** The world outside the coordinator (database, file system, parse
    cache), the parser's output and the path-alias table are opaque to
    it. *)
Context {W ParsedFile Paths : Type}.

(** The fields of the class, the world, and the record of calls.
    [boundaries] is [opts.boundaries], which the coordinator reassigns.
    [tsconfigPathsRaw] is the loaded table or, [Throw], a promise that
    rejects.  [boundariesRefresh] is the pending refresh together with
    the outcome of the discovery it waits for.  [callbacks] lists the
    subscribers in registration order.  Promises and timers are numbers
    drawn from [nextId]. *)
Record State : Type := mkState {
  boundaries : list ProjectBoundary.t;
  callbacks : list nat;
  indexingLock : bool;
  pendingEvents : list FileChangeEvent.t;
  debounceTimer : option nat;
  currentIndexing : option nat;
  _pendingFullIndex : bool;
  tsconfigPathsRaw : Res Paths;
  boundariesRefresh : option (Res (list ProjectBoundary.t));
  world : W;
  calls : list Call;
  nextId : nat
}.

Definition setBoundaries (s : State) (v : list ProjectBoundary.t) : State :=
  {| boundaries := v;
     callbacks := callbacks s;
     indexingLock := indexingLock s;
     pendingEvents := pendingEvents s;
     debounceTimer := debounceTimer s;
     currentIndexing := currentIndexing s;
     _pendingFullIndex := _pendingFullIndex s;
     tsconfigPathsRaw := tsconfigPathsRaw s;
     boundariesRefresh := boundariesRefresh s;
     world := world s;
     calls := calls s;
     nextId := nextId s |}.

Definition setCallbacks (s : State) (v : list nat) : State :=
  {| boundaries := boundaries s;
     callbacks := v;
     indexingLock := indexingLock s;
     pendingEvents := pendingEvents s;
     debounceTimer := debounceTimer s;
     currentIndexing := currentIndexing s;
     _pendingFullIndex := _pendingFullIndex s;
     tsconfigPathsRaw := tsconfigPathsRaw s;
     boundariesRefresh := boundariesRefresh s;
     world := world s;
     calls := calls s;
     nextId := nextId s |}.

Definition setIndexingLock (s : State) (v : bool) : State :=
  {| boundaries := boundaries s;
     callbacks := callbacks s;
     indexingLock := v;
     pendingEvents := pendingEvents s;
     debounceTimer := debounceTimer s;
     currentIndexing := currentIndexing s;
     _pendingFullIndex := _pendingFullIndex s;
     tsconfigPathsRaw := tsconfigPathsRaw s;
     boundariesRefresh := boundariesRefresh s;
     world := world s;
     calls := calls s;
     nextId := nextId s |}.

Definition setPendingEvents (s : State) (v : list FileChangeEvent.t) : State :=
  {| boundaries := boundaries s;
     callbacks := callbacks s;
     indexingLock := indexingLock s;
     pendingEvents := v;
     debounceTimer := debounceTimer s;
     currentIndexing := currentIndexing s;
     _pendingFullIndex := _pendingFullIndex s;
     tsconfigPathsRaw := tsconfigPathsRaw s;
     boundariesRefresh := boundariesRefresh s;
     world := world s;
     calls := calls s;
     nextId := nextId s |}.

Definition setDebounceTimer (s : State) (v : option nat) : State :=
  {| boundaries := boundaries s;
     callbacks := callbacks s;
     indexingLock := indexingLock s;
     pendingEvents := pendingEvents s;
     debounceTimer := v;
     currentIndexing := currentIndexing s;
     _pendingFullIndex := _pendingFullIndex s;
     tsconfigPathsRaw := tsconfigPathsRaw s;
     boundariesRefresh := boundariesRefresh s;
     world := world s;
     calls := calls s;
     nextId := nextId s |}.

Definition setCurrentIndexing (s : State) (v : option nat) : State :=
  {| boundaries := boundaries s;
     callbacks := callbacks s;
     indexingLock := indexingLock s;
     pendingEvents := pendingEvents s;
     debounceTimer := debounceTimer s;
     currentIndexing := v;
     _pendingFullIndex := _pendingFullIndex s;
     tsconfigPathsRaw := tsconfigPathsRaw s;
     boundariesRefresh := boundariesRefresh s;
     world := world s;
     calls := calls s;
     nextId := nextId s |}.

Definition setPendingFullIndex (s : State) (v : bool) : State :=
  {| boundaries := boundaries s;
     callbacks := callbacks s;
     indexingLock := indexingLock s;
     pendingEvents := pendingEvents s;
     debounceTimer := debounceTimer s;
     currentIndexing := currentIndexing s;
     _pendingFullIndex := v;
     tsconfigPathsRaw := tsconfigPathsRaw s;
     boundariesRefresh := boundariesRefresh s;
     world := world s;
     calls := calls s;
     nextId := nextId s |}.

Definition setTsconfigPathsRaw (s : State) (v : Res Paths) : State :=
  {| boundaries := boundaries s;
     callbacks := callbacks s;
     indexingLock := indexingLock s;
     pendingEvents := pendingEvents s;
     debounceTimer := debounceTimer s;
     currentIndexing := currentIndexing s;
     _pendingFullIndex := _pendingFullIndex s;
     tsconfigPathsRaw := v;
     boundariesRefresh := boundariesRefresh s;
     world := world s;
     calls := calls s;
     nextId := nextId s |}.

Definition setBoundariesRefresh (s : State) (v : option (Res (list ProjectBoundary.t))) : State :=
  {| boundaries := boundaries s;
     callbacks := callbacks s;
     indexingLock := indexingLock s;
     pendingEvents := pendingEvents s;
     debounceTimer := debounceTimer s;
     currentIndexing := currentIndexing s;
     _pendingFullIndex := _pendingFullIndex s;
     tsconfigPathsRaw := tsconfigPathsRaw s;
     boundariesRefresh := v;
     world := world s;
     calls := calls s;
     nextId := nextId s |}.

Definition setWorld (s : State) (v : W) : State :=
  {| boundaries := boundaries s;
     callbacks := callbacks s;
     indexingLock := indexingLock s;
     pendingEvents := pendingEvents s;
     debounceTimer := debounceTimer s;
     currentIndexing := currentIndexing s;
     _pendingFullIndex := _pendingFullIndex s;
     tsconfigPathsRaw := tsconfigPathsRaw s;
     boundariesRefresh := boundariesRefresh s;
     world := v;
     calls := calls s;
     nextId := nextId s |}.

Definition setCalls (s : State) (v : list Call) : State :=
  {| boundaries := boundaries s;
     callbacks := callbacks s;
     indexingLock := indexingLock s;
     pendingEvents := pendingEvents s;
     debounceTimer := debounceTimer s;
     currentIndexing := currentIndexing s;
     _pendingFullIndex := _pendingFullIndex s;
     tsconfigPathsRaw := tsconfigPathsRaw s;
     boundariesRefresh := boundariesRefresh s;
     world := world s;
     calls := v;
     nextId := nextId s |}.

Definition setNextId (s : State) (v : nat) : State :=
  {| boundaries := boundaries s;
     callbacks := callbacks s;
     indexingLock := indexingLock s;
     pendingEvents := pendingEvents s;
     debounceTimer := debounceTimer s;
     currentIndexing := currentIndexing s;
     _pendingFullIndex := _pendingFullIndex s;
     tsconfigPathsRaw := tsconfigPathsRaw s;
     boundariesRefresh := boundariesRefresh s;
     world := world s;
     calls := calls s;
     nextId := v |}.

(** [IndexCoordinatorOptions], without [boundaries]. *)
Record Options : Type := mkOptions {
  projectRoot : string;
  extensions : list string;
  ignorePatterns : list string;
  (** [dbConnection.transaction] *)
  transaction : forall A : Type, M State A -> M State A;
  (** [parseCache.set] *)
  parseCacheSet : string -> ParsedFile -> M W unit;
  (** [fileRepo] *)
  getFilesMap : string -> M W (list (string * FileRecord.t));
  getAllFiles : string -> M W (list FileRecord.t);
  upsertFile : FileRecord.t -> M W unit;
  deleteFile : string -> string -> M W unit;
  (** [symbolRepo] *)
  getFileSymbols : string -> string -> M W (list SymbolRecord.t);
  getByFingerprint : string -> string -> M W (list SymbolRecord.t);
  deleteFileSymbols : string -> string -> M W unit;
  (** [relationRepo] *)
  retargetRelations :
    string -> string -> option string -> string -> option string -> M W unit;
  deleteFileRelations : string -> string -> M W unit;
  parseSourceFn : option (string -> string -> M W ParsedFile);
  discoverProjectsFn : option (string -> M W (list ProjectBoundary.t))
}.

(** The functions the module imports, the runtime ([Bun.file], [Date])
    and the subscribers' functions. *)
Record Imports : Type := mkImports {
  resolveFileProject : string -> list ProjectBoundary.t -> string;
  discoverProjects : string -> M W (list ProjectBoundary.t);
  (** The table, or the rejection of the promise it is. *)
  loadTsconfigPaths : string -> W -> Res Paths * W;
  clearTsconfigPathsCache : string -> M W unit;
  toAbsolutePath : string -> string -> string;
  hashString : string -> string;
  parseSource : string -> string -> M W ParsedFile;
  (** [detectChanges] on the aggregated map of known files. *)
  detectChanges : list (string * FileRecord.t) -> M W DetectChangesResult.t;
  indexFileSymbols : ParsedFile -> string -> string -> string -> M W unit;
  indexFileRelations : ParsedFile -> string -> string -> Paths -> M W Z;
  (** [Bun.file(path).text()], [.lastModified] and [.size]. *)
  bunText : string -> M W string;
  bunLastModified : string -> W -> Z;
  bunSize : string -> W -> Z;
  (** [Date.now()] and [new Date().toISOString()]. *)
  dateNow : W -> Z;
  isoNow : W -> string;
  (** The function registered by [onIndexed] under a number. *)
  subscriber : nat -> IndexResult.t -> M W unit
}.

Variable opts : Options.
Variable env : Imports.

(** A call on a collaborator: recorded, then run against the world. *)
Definition call {A : Type} (c : Call) (m : M W A) : M State A :=
  fun s =>
    let (r, w) := m (world s) in
    (r, setWorld (setCalls s (calls s ++ [c])) w).

Definition record (c : Call) : M State unit :=
  modify (fun s => setCalls s (calls s ++ [c])).

(** A reading of the world ([Date.now()], [bunFile.size]). *)
Definition peek {A : Type} (f : W -> A) : M State A :=
  fun s => (Ok (f (world s)), s).

Definition fresh : M State nat :=
  fun s => (Ok (nextId s), setNextId s (S (nextId s))).

Definition count {A : Type} (l : list A) : Z := Z.of_nat (List.length l).

(** ** [_processFile] *)

Definition parseFn : string -> string -> M W ParsedFile :=
  nullish (parseSourceFn opts) (parseSource env).

Definition _processFile (filePath : string) (knownHash : option string)
  (tsconfigPaths : Paths) : M State (Z * Z) :=
  let absPath := toAbsolutePath env (projectRoot opts) filePath in
  text <- call (BunFile absPath) (bunText env absPath) ;;
  let contentHash :=
    match knownHash with
    | Some (String c rest) => String c rest
    | _ => hashString env text
    end in
  s1 <- get ;;
  let project := resolveFileProject env filePath (boundaries s1) in
  parsed <- call (ParseSource absPath) (parseFn absPath text) ;;
  call (ParseCacheSet filePath) (parseCacheSet opts filePath parsed) ;;;
  s2 <- get ;;
  let fileRecord :=
    {| FileRecord.project := project;
       FileRecord.filePath := filePath;
       FileRecord.mtimeMs := bunLastModified env absPath (world s2);
       FileRecord.size := bunSize env absPath (world s2);
       FileRecord.contentHash := contentHash;
       FileRecord.updatedAt := isoNow env (world s2) |} in
  call (UpsertFile fileRecord) (upsertFile opts fileRecord) ;;;
  call (IndexFileSymbols project filePath contentHash)
    (indexFileSymbols env parsed project filePath contentHash) ;;;
  relCount <- call (IndexFileRelations project filePath)
                (indexFileRelations env parsed project filePath tsconfigPaths) ;;
  syms <- call (GetFileSymbols project filePath)
            (getFileSymbols opts project filePath) ;;
  ret (count syms, relCount).

(** ** The pieces of [_doIndex] *)

(** [changed] and [deleted] of an explicit event list. *)
Definition isCreateOrChange (e : FileChangeEvent.t) : bool :=
  match FileChangeEvent.eventType e with
  | EventType.create | EventType.change => true
  | EventType.delete => false
  end.

Definition isDelete (e : FileChangeEvent.t) : bool :=
  match FileChangeEvent.eventType e with
  | EventType.delete => true
  | _ => false
  end.

Definition changedOf (events : list FileChangeEvent.t) : list FileChange.t :=
  map (fun e =>
         {| FileChange.filePath := FileChangeEvent.filePath e;
            FileChange.contentHash := EmptyString;
            FileChange.mtimeMs := 0;
            FileChange.size := 0 |})
    (filter isCreateOrChange events).

Definition deletedOf (events : list FileChangeEvent.t) : list string :=
  map FileChangeEvent.filePath (filter isDelete events).

(** [if (this.boundariesRefresh) { await ...; this.boundariesRefresh = null }]:
    the refresh's [then] stores the discovered boundaries. *)
Definition awaitBoundariesRefresh : M State unit :=
  s <- get ;;
  match boundariesRefresh s with
  | None => ret tt
  | Some (Throw e) => throw e
  | Some (Ok b) =>
      modify (fun s => setBoundariesRefresh (setBoundaries s b) None)
  end.

(** The aggregate of [getFilesMap] over every boundary. *)
Fixpoint aggregateFiles (bs : list ProjectBoundary.t)
  (existingMap : list (string * FileRecord.t))
  : M State (list (string * FileRecord.t)) :=
  match bs with
  | [] => ret existingMap
  | boundary :: rest =>
      entries <- call (GetFilesMap (ProjectBoundary.project boundary))
                   (getFilesMap opts (ProjectBoundary.project boundary)) ;;
      aggregateFiles rest
        (fold_left (fun m kv => FileRepository.mapSet (fst kv) (snd kv) m)
           entries existingMap)
  end.

(** The symbols of every deleted file, read before anything is deleted. *)
Fixpoint snapshotDeleted (deleted : list string)
  (deletedSymbols : list (string * list SymbolRecord.t))
  : M State (list (string * list SymbolRecord.t)) :=
  match deleted with
  | [] => ret deletedSymbols
  | filePath :: rest =>
      s <- get ;;
      let project := resolveFileProject env filePath (boundaries s) in
      syms <- call (GetFileSymbols project filePath)
                (getFileSymbols opts project filePath) ;;
      snapshotDeleted rest (FileRepository.mapSet filePath syms deletedSymbols)
  end.

Definition processDeleted (deleted : list string) : M State unit :=
  forEach deleted (fun filePath =>
    s <- get ;;
    let project := resolveFileProject env filePath (boundaries s) in
    call (DeleteFileSymbols project filePath)
      (deleteFileSymbols opts project filePath) ;;;
    call (DeleteFileRelations project filePath)
      (deleteFileRelations opts project filePath) ;;;
    call (DeleteFile project filePath) (deleteFile opts project filePath)).

(** The counts [processChanged] accumulates. *)
Record Counts : Type := mkCounts {
  symbols : Z;
  relations : Z;
  failed : list string
}.

Definition failedMessage (filePath : string) : string :=
  ("[IndexCoordinator] Failed to index " ++ filePath ++ ":")%string.

(** [file.contentHash || undefined]. *)
Definition knownHashOf (file : FileChange.t) : option string :=
  if String.eqb (FileChange.contentHash file) EmptyString
  then None else Some (FileChange.contentHash file).

Fixpoint processChangedFrom (acc : Counts) (changed : list FileChange.t)
  (tsconfigPaths : Paths) : M State Counts :=
  match changed with
  | [] => ret acc
  | file :: rest =>
      r <- attempt (_processFile (FileChange.filePath file)
                      (knownHashOf file) tsconfigPaths) ;;
      match r with
      | Ok (symbolCount, relCount) =>
          processChangedFrom
            {| symbols := symbols acc + symbolCount;
               relations := relations acc + relCount;
               failed := failed acc |}
            rest tsconfigPaths
      | Throw _ =>
          record (ConsoleError (failedMessage (FileChange.filePath file))) ;;;
          processChangedFrom
            {| symbols := symbols acc;
               relations := relations acc;
               failed := failed acc ++ [FileChange.filePath file] |}
            rest tsconfigPaths
      end
  end.

Definition processChanged (changed : list FileChange.t)
  (tsconfigPaths : Paths) : M State Counts :=
  processChangedFrom {| symbols := 0; relations := 0; failed := [] |}
    changed tsconfigPaths.

(** What the full index reads of a file before the transaction. *)
Record Preread : Type := mkPreread {
  prFilePath : string;
  prText : string;
  prContentHash : string;
  prMtimeMs : Z;
  prSize : Z
}.

(** [await Promise.all(changed.map(async (file) => ...))].  Each of the
    async functions runs up to its [await bunFile.text()] when [map]
    calls it, so every file is read, in the order of [changed], whether
    or not a read before it fails.  [startReads] gives the outcome of
    each read. *)
Fixpoint startReads (changed : list FileChange.t)
  : M State (list (Res string)) :=
  match changed with
  | [] => ret []
  | file :: rest =>
      let absPath :=
        toAbsolutePath env (projectRoot opts) (FileChange.filePath file) in
      text <- attempt (call (BunFile absPath) (bunText env absPath)) ;;
      texts <- startReads rest ;;
      ret (text :: texts)
  end.

(** What [Promise.all] gives once the reads have settled, in the world
    [w] the async functions resume in: one record for each file, or the
    rejection of the first read that failed (the reads settle in the
    order they were started in, that of [changed]). *)
Fixpoint prereadOf (w : W) (changed : list FileChange.t)
  (texts : list (Res string)) : Res (list Preread) :=
  match changed, texts with
  | file :: rest, Throw e :: _ => Throw e
  | file :: rest, Ok text :: texts' =>
      let absPath :=
        toAbsolutePath env (projectRoot opts) (FileChange.filePath file) in
      let contentHash :=
        if String.eqb (FileChange.contentHash file) EmptyString
        then hashString env text
        else FileChange.contentHash file in
      let fd :=
        {| prFilePath := FileChange.filePath file;
           prText := text;
           prContentHash := contentHash;
           prMtimeMs := bunLastModified env absPath w;
           prSize := bunSize env absPath w |} in
      match prereadOf w rest texts' with
      | Ok fds => Ok (fd :: fds)
      | Throw e => Throw e
      end
  | _, _ => Ok []
  end.

Definition prereadAll (changed : list FileChange.t) : M State (list Preread) :=
  texts <- startReads changed ;;
  s <- get ;;
  match prereadOf (world s) changed texts with
  | Ok preread => ret preread
  | Throw e => throw e
  end.

(** The second loop of the transaction: index every pre-read file. *)
Fixpoint indexPreread (boundaries : list ProjectBoundary.t)
  (tsconfigPaths : Paths) (preread : list Preread) (totals : Z * Z)
  : M State (Z * Z) :=
  match preread with
  | [] => ret totals
  | fd :: rest =>
      let project := resolveFileProject env (prFilePath fd) boundaries in
      let absPath :=
        toAbsolutePath env (projectRoot opts) (prFilePath fd) in
      parsed <- call (ParseSource absPath) (parseFn absPath (prText fd)) ;;
      call (ParseCacheSet (prFilePath fd))
        (parseCacheSet opts (prFilePath fd) parsed) ;;;
      s <- get ;;
      let fileRecord :=
        {| FileRecord.project := project;
           FileRecord.filePath := prFilePath fd;
           FileRecord.mtimeMs := prMtimeMs fd;
           FileRecord.size := prSize fd;
           FileRecord.contentHash := prContentHash fd;
           FileRecord.updatedAt := isoNow env (world s) |} in
      call (UpsertFile fileRecord) (upsertFile opts fileRecord) ;;;
      call (IndexFileSymbols project (prFilePath fd) (prContentHash fd))
        (indexFileSymbols env parsed project (prFilePath fd)
           (prContentHash fd)) ;;;
      relCount <- call (IndexFileRelations project (prFilePath fd))
                    (indexFileRelations env parsed project (prFilePath fd)
                       tsconfigPaths) ;;
      syms <- call (GetFileSymbols project (prFilePath fd))
                (getFileSymbols opts project (prFilePath fd)) ;;
      indexPreread boundaries tsconfigPaths rest
        (fst totals + count syms, snd totals + relCount)%Z
  end.

(** The function handed to [dbConnection.transaction]: delete every file
    row of every boundary, then index the pre-read files.  It returns
    [(totalSymbols, totalRelations)]. *)
Definition rebuild (boundaries : list ProjectBoundary.t)
  (tsconfigPaths : Paths) (preread : list Preread) : M State (Z * Z) :=
  forEach boundaries (fun boundary =>
    projectFiles <- call (GetAllFiles (ProjectBoundary.project boundary))
                      (getAllFiles opts (ProjectBoundary.project boundary)) ;;
    forEach projectFiles (fun f =>
      call (DeleteFile (FileRecord.project f) (FileRecord.filePath f))
        (deleteFile opts (FileRecord.project f) (FileRecord.filePath f)))) ;;;
  indexPreread boundaries tsconfigPaths preread (0, 0)%Z.

(** The move-detection loop over the symbols of one deleted file. *)
Definition retargetSymbols (oldFile : string) (syms : list SymbolRecord.t)
  : M State unit :=
  forEach syms (fun sym =>
    match SymbolRecord.fingerprint sym with
    | Some (String c rest) =>
        s <- get ;;
        let oldProject := resolveFileProject env oldFile (boundaries s) in
        matches <- call (GetByFingerprint oldProject (String c rest))
                     (getByFingerprint opts oldProject (String c rest)) ;;
        match matches with
        | [newSym] =>
            call (RetargetRelations oldProject oldFile
                    (Some (SymbolRecord.name sym))
                    (SymbolRecord.filePath newSym)
                    (Some (SymbolRecord.name newSym)))
              (retargetRelations opts oldProject oldFile
                 (Some (SymbolRecord.name sym))
                 (SymbolRecord.filePath newSym)
                 (Some (SymbolRecord.name newSym)))
        | _ => ret tt
        end
    | _ => ret tt
    end).

Definition retargetMoved
  (deletedSymbols : list (string * list SymbolRecord.t)) : M State unit :=
  forEach deletedSymbols (fun entry =>
    retargetSymbols (fst entry) (snd entry)).

(** ** [_doIndex]

    The body of one run, taken as one step: what the run awaits is
    there when it asks for it, and nothing else happens to the
    coordinator between the start of the body and its end.
    [findChangeset] is the [if (events !== undefined) ... else ...] that
    sets [changed] and [deleted]; [applyChangeset] is the
    [if (useTransaction) ... else ...] between the snapshot and the move
    detection; [indexChangeset] is the body from the move-detection
    snapshot on, once [changed], [deleted] and the alias table are
    known. *)
Definition findChangeset (events : option (list FileChangeEvent.t))
  : M State (list FileChange.t * list string) :=
  match events with
  | Some evs => ret (changedOf evs, deletedOf evs)
  | None =>
      s <- get ;;
      existingMap <- aggregateFiles (boundaries s) [] ;;
      result <- call DetectChanges (detectChanges env existingMap) ;;
      ret (DetectChangesResult.changed result,
           DetectChangesResult.deleted result)
  end.

Definition applyChangeset (changed : list FileChange.t)
  (deleted : list string) (tsconfigPaths : Paths) (useTransaction : bool)
  : M State Counts :=
  if useTransaction then
    s' <- get ;;
    let boundaries := boundaries s' in
    preread <- prereadAll changed ;;
    record Transaction ;;;
    sr <- transaction opts _
            (rebuild boundaries tsconfigPaths preread) ;;
    ret {| symbols := fst sr; relations := snd sr; failed := [] |}
  else
    processDeleted deleted ;;;
    processChanged changed tsconfigPaths.

Definition indexChangeset (changed : list FileChange.t)
  (deleted : list string) (tsconfigPaths : Paths) (useTransaction : bool)
  (start : Z) : M State IndexResult.t :=
  deletedSymbols <- snapshotDeleted deleted [] ;;
  totals <- applyChangeset changed deleted tsconfigPaths useTransaction ;;
  retargetMoved deletedSymbols ;;;
  finish <- peek (dateNow env) ;;
  ret {| IndexResult.indexedFiles := count changed;
         IndexResult.removedFiles := count deleted;
         IndexResult.totalSymbols := symbols totals;
         IndexResult.totalRelations := relations totals;
         IndexResult.durationMs := finish - start;
         IndexResult.changedFiles := map FileChange.filePath changed;
         IndexResult.deletedFiles := deleted;
         IndexResult.failedFiles := failed totals |}.

Definition _doIndex (events : option (list FileChangeEvent.t))
  (useTransaction : bool) : M State IndexResult.t :=
  start <- peek (dateNow env) ;;
  awaitBoundariesRefresh ;;;
  found <- findChangeset events ;;
  s <- get ;;
  tsconfigPaths <- match tsconfigPathsRaw s with
                   | Ok paths => ret paths
                   | Throw e => throw e
                   end ;;
  indexChangeset (fst found) (snd found) tsconfigPaths useTransaction start.

(** ** The lock and the queue *)

Definition callbackMessage : string :=
  "[IndexCoordinator] onIndexed callback threw:".

Definition _fireCallbacks (result : IndexResult.t) : M State unit :=
  s <- get ;;
  forEach (callbacks s) (fun cb =>
    r <- attempt (call (Callback cb) (subscriber env cb result)) ;;
    match r with
    | Ok _ => ret tt
    | Throw _ => record (ConsoleError callbackMessage)
    end).

(** [_startIndex] up to the promise it returns: under the lock, the
    promise of the run in flight; otherwise a new promise [work], whose
    run [DoIndex work events useTransaction] records. *)
Definition _startIndex (events : option (list FileChangeEvent.t))
  (useTransaction : bool) (s : State) : option nat * State :=
  if indexingLock s then
    (currentIndexing s,
     if useTransaction then setPendingFullIndex s true else s)
  else
    let s1 := setIndexingLock s true in
    let work := nextId s1 in
    let s2 :=
      setNextId
        (setCalls s1 (calls s1 ++ [DoIndex work events useTransaction]))
        (S work) in
    (Some work, setCurrentIndexing s2 (Some work)).

(** The [finally] callback of [_startIndex]: its first two assignments,
    then the drain. *)
Definition release (s : State) : State :=
  setCurrentIndexing (setIndexingLock s false) None.

Definition drain (s : State) : State :=
  if _pendingFullIndex s then
    snd (_startIndex None true (setPendingFullIndex s false))
  else
    match pendingEvents s with
    | [] => s
    | _ :: _ =>
        snd (_startIndex (Some (pendingEvents s)) false
               (setPendingEvents s []))
    end.

Definition finalizer (s : State) : State := drain (release s).

(** The promise of [_doIndex] settles with [outcome]: [then] runs the
    subscribers when it resolved, [finally] runs either way, and [work]
    settles as [_doIndex] did. *)
Definition settle (outcome : Res IndexResult.t) (s : State)
  : Res IndexResult.t * State :=
  match outcome with
  | Ok result =>
      match _fireCallbacks result s with
      | (Ok _, s1) => (Ok result, finalizer s1)
      | (Throw e, s1) => (Throw e, finalizer s1)
      end
  | Throw e => (Throw e, finalizer s)
  end.

(** The state just before the [finally] callback runs. *)
Definition beforeFinalizer (outcome : Res IndexResult.t) (s : State)
  : State :=
  match outcome with
  | Ok result => snd (_fireCallbacks result s)
  | Throw _ => s
  end.

Definition fullIndex (s : State) : option nat * State :=
  _startIndex None true s.

Definition incrementalIndex (events : option (list FileChangeEvent.t))
  (s : State) : option nat * State :=
  _startIndex events false s.

(** [onIndexed(cb)] and the function it returns. *)
Definition onIndexed (cb : nat) (s : State) : State :=
  if existsb (Nat.eqb cb) (callbacks s) then s
  else setCallbacks s (callbacks s ++ [cb]).

Definition unsubscribe (cb : nat) (s : State) : State :=
  setCallbacks s (filter (fun c => negb (Nat.eqb cb c)) (callbacks s)).

Definition _flushPending (s : State) : State :=
  if indexingLock s then s
  else
    match pendingEvents s with
    | [] => s
    | _ :: _ =>
        snd (_startIndex (Some (pendingEvents s)) false
               (setPendingEvents s []))
    end.

(** The debounce timer [handle] fires; a timer that was cleared or has
    fired does not. *)
Definition timerFires (handle : nat) (s : State) : State :=
  match debounceTimer s with
  | Some h =>
      if Nat.eqb h handle then _flushPending (setDebounceTimer s None) else s
  | None => s
  end.

Definition discover : string -> M W (list ProjectBoundary.t) :=
  nullish (discoverProjectsFn opts) (discoverProjects env).

Definition handleWatcherEvent (event : FileChangeEvent.t) (s : State)
  : Res unit * State :=
  if endsWith (FileChangeEvent.filePath event) "tsconfig.json" then
    (call (ClearTsconfigPathsCache (projectRoot opts))
       (clearTsconfigPathsCache env (projectRoot opts)) ;;;
     paths <- call (LoadTsconfigPaths (projectRoot opts))
                (fun w => let (p, w') :=
                            loadTsconfigPaths env (projectRoot opts) w in
                          (Ok p, w')) ;;
     modify (fun s => setTsconfigPathsRaw s paths) ;;;
     modify (fun s => snd (fullIndex s))) s
  else
    ((if endsWith (FileChangeEvent.filePath event) "package.json" then
        refresh <- attempt (call (DiscoverProjects (projectRoot opts))
                              (discover (projectRoot opts))) ;;
        modify (fun s => setBoundariesRefresh s (Some refresh))
      else ret tt) ;;;
     modify (fun s => setPendingEvents s (pendingEvents s ++ [event])) ;;;
     s' <- get ;;
     match debounceTimer s' with
     | Some _ => ret tt
     | None =>
         handle <- fresh ;;
         record (SetTimeout handle WATCHER_DEBOUNCE_MS) ;;;
         modify (fun s => setDebounceTimer s (Some handle))
     end) s.

(** [shutdown()] up to its [await]: the promise it waits for. *)
Definition shutdown (s : State) : option nat * State :=
  match debounceTimer s with
  | Some h =>
      (currentIndexing s,
       setDebounceTimer (setCalls s (calls s ++ [ClearTimeout h])) None)
  | None => (currentIndexing s, s)
  end.

(** The files read so far ([Bun.file(path)]), oldest first. *)
Definition isBunFile (c : Call) : bool :=
  match c with
  | BunFile _ => true
  | _ => false
  end.


Definition notBunFile (c : Call) : bool := negb (isBunFile c).


(** [m] adds to the record of calls only entries that satisfy [P]. *)
Definition Appends {A : Type} (P : Call -> bool) (m : M State A) : Prop :=
  forall s, exists extra,
    calls (snd (m s)) = calls s ++ extra /\ forallb P extra = true.


Definition Succeeds {A : Type} (m : M State A) : Prop :=
  forall s, exists a s', m s = (Ok a, s').


(** Move detection as the specification words it: for a symbol of a
    deleted file with a fingerprint, look the fingerprint up and, if and
    only if the result has exactly one element, retarget.  [find] is the
    lookup, [bounds] the project boundaries. *)
Definition movesOfSymbol (find : string -> string -> list SymbolRecord.t)
  (bounds : list ProjectBoundary.t) (oldFile : string) (sym : SymbolRecord.t)
  : list Call :=
  match SymbolRecord.fingerprint sym with
  | None => []
  | Some fp =>
      if String.eqb fp EmptyString then []
      else
        let project := resolveFileProject env oldFile bounds in
        GetByFingerprint project fp ::
        match find project fp with
        | [newSym] =>
            [RetargetRelations project oldFile (Some (SymbolRecord.name sym))
               (SymbolRecord.filePath newSym)
               (Some (SymbolRecord.name newSym))]
        | _ => []
        end
  end.

Definition movesOf (find : string -> string -> list SymbolRecord.t)
  (bounds : list ProjectBoundary.t)
  (deletedSymbols : list (string * list SymbolRecord.t)) : list Call :=
  flat_map (fun entry =>
              flat_map (movesOfSymbol find bounds (fst entry)) (snd entry))
    deletedSymbols.

(** The calls of [relationRepo.retargetRelations]. *)
Definition isRetargetRelations (c : Call) : bool :=
  match c with
  | RetargetRelations _ _ _ _ _ => true
  | _ => false
  end.

Definition notRetarget (c : Call) : bool := negb (isRetargetRelations c).

(** The calls of a [_processFile] that returns, for the file at
    [filePath] whose row it upserts as [fileRecord]: the read, the
    parse, the parse cache, the file row, the symbols, the relations and
    the count of the symbols. *)
Definition processedCalls (bounds : list ProjectBoundary.t)
  (filePath : string) (fileRecord : FileRecord.t) : list Call :=
  let absPath := toAbsolutePath env (projectRoot opts) filePath in
  let project := resolveFileProject env filePath bounds in
  [BunFile absPath;
   ParseSource absPath;
   ParseCacheSet filePath;
   UpsertFile fileRecord;
   IndexFileSymbols project filePath (FileRecord.contentHash fileRecord);
   IndexFileRelations project filePath;
   GetFileSymbols project filePath].

(** The runs started so far, oldest first. *)
Definition isDoIndex (c : Call) : bool :=
  match c with
  | DoIndex _ _ _ => true
  | _ => false
  end.

Definition startedRuns (s : State) : list Call := filter isDoIndex (calls s).

(** The constructor: the alias table is loaded once. *)
Definition create (boundaries : list ProjectBoundary.t) (w : W) : State :=
  let (paths, w') := loadTsconfigPaths env (projectRoot opts) w in
  {| boundaries := boundaries;
     callbacks := [];
     indexingLock := false;
     pendingEvents := [];
     debounceTimer := None;
     currentIndexing := None;
     _pendingFullIndex := false;
     tsconfigPathsRaw := paths;
     boundariesRefresh := None;
     world := w';
     calls := [LoadTsconfigPaths (projectRoot opts)];
     nextId := 0 |}.

(** ** The coordinator as a state machine

    What can happen to a coordinator between two moments at which
    nothing runs: a call of its public interface, the debounce timer
    firing, or the run in flight settling. *)
Inductive Op : Type :=
| OpFullIndex
| OpIncrementalIndex (events : option (list FileChangeEvent.t))
| OpWatcherEvent (event : FileChangeEvent.t)
| OpTimerFires (handle : nat)
| OpSettle (outcome : Res IndexResult.t)
| OpOnIndexed (cb : nat)
| OpUnsubscribe (cb : nat)
| OpShutdown.

Definition perform (op : Op) (s : State) : State :=
  match op with
  | OpFullIndex => snd (fullIndex s)
  | OpIncrementalIndex events => snd (incrementalIndex events s)
  | OpWatcherEvent event => snd (handleWatcherEvent event s)
  | OpTimerFires handle => timerFires handle s
  | OpSettle outcome => snd (settle outcome s)
  | OpOnIndexed cb => onIndexed cb s
  | OpUnsubscribe cb => unsubscribe cb s
  | OpShutdown => snd (shutdown s)
  end.

Definition isSettle (op : Op) : bool :=
  match op with
  | OpSettle _ => true
  | _ => false
  end.

Definition isShutdown (op : Op) : bool :=
  match op with
  | OpShutdown => true
  | _ => false
  end.

(** The lock is held exactly while a promise is in flight; a full index
    is queued only under the lock; buffered events have the lock or an
    armed timer to hand them on. *)
Definition Consistent (s : State) : Prop :=
  (indexingLock s = true <-> currentIndexing s <> None) /\
  (_pendingFullIndex s = true -> indexingLock s = true) /\
  (pendingEvents s <> [] ->
   indexingLock s = true \/ debounceTimer s <> None).

(** A burst of watcher events, handled one after the other. *)
Definition handleWatcherEvents (events : list FileChangeEvent.t) (s : State)
  : State :=
  fold_left (fun s event => snd (handleWatcherEvent event s)) events s.

Definition isCallback (c : Call) : bool :=
  match c with
  | Callback _ => true
  | _ => false
  end.

Definition isSetTimeout (c : Call) : bool :=
  match c with
  | SetTimeout _ _ => true
  | _ => false
  end.

Definition isTsconfig (event : FileChangeEvent.t) : bool :=
  endsWith (FileChangeEvent.filePath event) "tsconfig.json".

(** The fields the lock and the queue live in. *)
Definition sameQueue (s s' : State) : Prop :=
  indexingLock s' = indexingLock s /\
  currentIndexing s' = currentIndexing s /\
  _pendingFullIndex s' = _pendingFullIndex s /\
  pendingEvents s' = pendingEvents s /\
  debounceTimer s' = debounceTimer s /\
  nextId s' = nextId s /\
  callbacks s' = callbacks s /\
  boundariesRefresh s' = boundariesRefresh s.

(** The entry that marks the start of the transaction of a full run. *)
Definition notTransaction (c : Call) : bool :=
  match c with
  | Transaction => false
  | _ => true
  end.

(** [m] reads its files first: what it adds to the record of calls is
    a part without the transaction mark followed by a part without any
    file read. *)
Definition ReadsFirst {A : Type} (m : M State A) : Prop :=
  forall s, exists pre post,
    calls (snd (m s)) = calls s ++ pre ++ post /\
    forallb notTransaction pre = true /\
    forallb notBunFile post = true.

End Coordinator.

End IndexCoordinator.

(* ================================================================== *)
(** * Test doubles                                                     *)
(* ================================================================== *)

(** The collaborators' doubles of index-coordinator.spec.ts: repositories
    that return fixed lists, a parser that throws on chosen files, a
    transaction that just runs its function.  The world is empty, the
    parser's output is the text it was given. *)
Module Mock.

Import IndexCoordinator.

Definition PROJECT_ROOT : string := "/project".

Definition BOUNDARIES : list ProjectBoundary.t :=
  [{| ProjectBoundary.dir := "."; ProjectBoundary.project := "test-project" |}].

Definition parseError : Exn := Error "ParseError" "Unexpected token".

Section Doubles.

(** What [getFileSymbols] and [getByFingerprint] return, and the
    absolute paths of the files the parser throws on. *)
Variable fileSymbols : list SymbolRecord.t.
Variable fingerprintMatches : list SymbolRecord.t.
Variable unparsable : list string.

Definition opts : @Options unit string unit :=
  {| projectRoot := PROJECT_ROOT;
     extensions := [".ts"];
     ignorePatterns := [];
     transaction := fun _ fn => fn;
     parseCacheSet := fun _ _ => ret tt;
     getFilesMap := fun _ => ret [];
     getAllFiles := fun _ => ret [];
     upsertFile := fun _ => ret tt;
     deleteFile := fun _ _ => ret tt;
     getFileSymbols := fun _ _ => ret fileSymbols;
     getByFingerprint := fun _ _ => ret fingerprintMatches;
     deleteFileSymbols := fun _ _ => ret tt;
     retargetRelations := fun _ _ _ _ _ => ret tt;
     deleteFileRelations := fun _ _ => ret tt;
     parseSourceFn :=
       Some (fun absPath text =>
               if existsb (String.eqb absPath) unparsable
               then throw parseError else ret text);
     discoverProjectsFn := None |}.

Definition env : @Imports unit string unit :=
  {| resolveFileProject := fun _ _ => "test-project";
     discoverProjects := fun _ => ret BOUNDARIES;
     loadTsconfigPaths := fun _ w => (Ok tt, w);
     clearTsconfigPathsCache := fun _ => ret tt;
     toAbsolutePath := fun root rel => (root ++ "/" ++ rel)%string;
     hashString := fun _ => "0123456789abcdef";
     parseSource := fun _ text => ret text;
     detectChanges :=
       fun _ => ret {| DetectChangesResult.changed := [];
                       DetectChangesResult.unchanged := [];
                       DetectChangesResult.deleted := [] |};
     indexFileSymbols := fun _ _ _ _ => ret tt;
     indexFileRelations := fun _ _ _ _ => ret 0%Z;
     bunText := fun _ => ret "mock source";
     bunLastModified := fun _ _ => 1000%Z;
     bunSize := fun _ _ => 100%Z;
     dateNow := fun _ => 0%Z;
     isoNow := fun _ => "2026-01-01T00:00:00.000Z";
     subscriber := fun _ _ => ret tt |}.

Definition coordinator : State := create opts env BOUNDARIES tt.

End Doubles.

Definition event (eventType : EventType.t) (filePath : string)
  : FileChangeEvent.t :=
  {| FileChangeEvent.eventType := eventType;
     FileChangeEvent.filePath := filePath |}.

End Mock.

(* ================================================================== *)
(** * Store test fixtures                                              *)
(* ================================================================== *)

(** The connection of test/store.test.ts once [open()] has returned,
    and the function its rollback test passes to [transaction]. *)
Module StoreTest.

Import Sqlite DbConnection.

Definition opened : DbConnection.t :=
  {| dbPath := "/tmp/.zipbul/code-ledger.db";
     client := Some {| rows := emptyDatabase; frames := [] |};
     _drizzle := true;
     txDepth := 0 |}.


Definition upsertThenReturn : M DbConnection.t Z :=
  drizzleDb (modify (FileRepository.upsertFile
                       (Fixtures.makeFileRecord "src/index.ts"))) ;;;
  ret 42%Z.


(** An open connection that holds the two-file database. *)
Definition withTwoFiles : DbConnection.t :=
  {| dbPath := "/tmp/.zipbul/code-ledger.db";
     client := Some {| rows := Fixtures.twoFiles; frames := [] |};
     _drizzle := true;
     txDepth := 0 |}.

(** A replacement of the relations of [src/index.ts] whose one row
    names a source file that has no file row. *)
Definition replaceWithOrphan : M Database unit :=
  RelationRepository.replaceFileRelations "test-project" "src/index.ts"
    [PartialRelation.full
       (Fixtures.makeRelationRecord "src/missing.ts" None "src/utils.ts")].

(** A file system on which no directory can be made. *)
Definition deniedOpen (fuel : nat)
  : option (Res unit * (DbConnection.t * unit)) :=
  DbConnection.open unit (fun p => p)
    (fun _ => throw (Error "Error" "EACCES: permission denied, mkdir"))
    (fun _ _ => false)
    (fun _ => ret tt)
    (fun _ => ret {| rows := emptyDatabase; frames := [] |})
    (fun _ => ret tt)
    (ret tt)
    (fun o => o)
    []
    fuel
    (fst (FaultyDisk.start 0), tt).

End StoreTest.

(* ================================================================== *)
(** * Coordinator test scenarios                                       *)
(* ================================================================== *)

(** The inputs of the move-tracking and failure tests of
    index-coordinator.spec.ts. *)
Module Scenario.

Import IndexCoordinator.

(** A symbol of the deleted file and the one symbol of the new file
    that has its fingerprint. *)
Definition oldSym : SymbolRecord.t :=
  Fixtures.makeSymbolRecord "src/old.ts" "myFn" (Some "fp001") None.

Definition newSym : SymbolRecord.t :=
  Fixtures.makeSymbolRecord "src/new.ts" "myFn" (Some "fp001") None.

(** The same pair with the empty string as fingerprint. *)
Definition oldBlank : SymbolRecord.t :=
  Fixtures.makeSymbolRecord "src/old.ts" "myFn" (Some EmptyString) None.

Definition newBlank : SymbolRecord.t :=
  Fixtures.makeSymbolRecord "src/new.ts" "myFn" (Some EmptyString) None.

Definition moveEvents : list FileChangeEvent.t :=
  [Mock.event EventType.delete "src/old.ts";
   Mock.event EventType.create "src/new.ts"].

Definition batchEvents : list FileChangeEvent.t :=
  [Mock.event EventType.create "src/a.ts";
   Mock.event EventType.change "src/b.ts";
   Mock.event EventType.change "src/c.ts"].

(** [incrementalIndex(events)] on a fresh coordinator, with nothing else
    happening before its promise settles: the start of the run, its
    body and the [then] and [finally] callbacks. *)
Definition runIncremental (fileSymbols fingerprintMatches : list SymbolRecord.t)
  (unparsable : list string) (events : list FileChangeEvent.t)
  : Res IndexResult.t * @State unit unit :=
  let opts := Mock.opts fileSymbols fingerprintMatches unparsable in
  let started :=
    snd (incrementalIndex (Some events)
           (Mock.coordinator fileSymbols fingerprintMatches unparsable)) in
  let (outcome, s) := _doIndex opts Mock.env (Some events) false started in
  settle Mock.env outcome s.

End Scenario.

(* ================================================================== *)
(** * Ledger test doubles                                              *)
(* ================================================================== *)

(** Collaborators in the manner of code-ledger.spec.ts: nothing fails,
    the relation repository returns one import of [src/index.ts], and
    the relation search is the real one. *)
Module LedgerTest.

Import CodeLedger.

Definition searchRelations (_ : RelationSearchOpts.t)
  : M unit (list RelationRecord.t) :=
  ret [Fixtures.makeRelationRecord "src/index.ts" None "src/utils.ts"].

Definition deps : @Collaborators unit unit :=
  {| shutdown := ret tt;
     watcherClose := ret tt;
     releaseWatcherRole := ret tt;
     dbClose := ret tt;
     fullIndex := ret tt;
     _symbolSearchFn := fun _ _ => ret [];
     _relationSearchFn := RelationSearch.relationSearch searchRelations |}.

(** The same with a coordinator whose shutdown rejects. *)
Definition failing : @Collaborators unit unit :=
  {| shutdown := throw (Error "Error" "shutdown failed");
     watcherClose := ret tt;
     releaseWatcherRole := ret tt;
     dbClose := ret tt;
     fullIndex := ret tt;
     _symbolSearchFn := fun _ _ => ret [];
     _relationSearchFn := RelationSearch.relationSearch searchRelations |}.

(** An owner as [open()] leaves it: coordinator, watcher, heartbeat
    timer and the three signal handlers. *)
Definition owner : @CodeLedger.t unit :=
  {| _closed := false;
     coordinator := true;
     watcher := true;
     _timer := Some 1;
     _signalHandlers := [("SIGTERM", 1); ("SIGINT", 2); ("beforeExit", 3)];
     defaultProject := "test-project";
     world := tt;
     calls := [] |}.

End LedgerTest.

(* ================================================================== *)
(** * Properties of the relation repository                            *)
(* ================================================================== *)

Section RelationRepositoryFacts.

Import RelationRepository.

Lemma filter_negb_app_keep {A : Type} (p q : A -> bool) (l extra : list A) :
  (forall x, In x extra -> p x = true) ->
  (forall x, p x = true -> q x = true) ->
  filter p (filter (fun x => negb (q x)) l ++ extra) = extra.
Proof.
  intros Hextra Hpq. rewrite filter_app.
  replace (filter p (filter (fun x => negb (q x)) l)) with (@nil A).
  - simpl. induction extra as [|x xs IH]; simpl; [reflexivity|].
    rewrite (Hextra x (or_introl eq_refl)). f_equal.
    apply IH. intros y Hy. apply Hextra. now right.
  - induction l as [|x xs IH]; simpl; [reflexivity|].
    destruct (q x) eqn:Hq; simpl; [exact IH|].
    destruct (p x) eqn:Hp; [|exact IH].
    apply Hpq in Hp. congruence.
Qed.

Lemma filter_other_app_drop {A : Type} (p q : A -> bool) (l extra : list A) :
  (forall x, In x extra -> p x = false) ->
  (forall x, p x = true -> q x = false) ->
  filter p (filter (fun x => negb (q x)) l ++ extra) = filter p l.
Proof.
  intros Hextra Hpq. rewrite filter_app.
  replace (filter p extra) with (@nil A).
  - rewrite app_nil_r. induction l as [|x xs IH]; simpl; [reflexivity|].
    destruct (p x) eqn:Hp.
    + rewrite (Hpq x Hp). simpl. rewrite Hp. now f_equal.
    + destruct (q x); simpl; [exact IH|]. now rewrite Hp.
  - induction extra as [|x xs IH]; simpl; [reflexivity|].
    rewrite (Hextra x (or_introl eq_refl)). apply IH.
    intros y Hy. apply Hextra. now right.
Qed.

(** The insert loop adds a prefix of the rows, in order, and touches no
    other table; it adds all of them exactly when it does not throw. *)
Lemma insert_loop {A : Type} (g : A -> RelationRecord.t) (l : list A) :
  forall db,
    exists k,
      k <= List.length l /\
      relations (snd (forEach l (fun x => insertRelation (g x)) db)) =
        relations db ++ map g (firstn k l) /\
      files (snd (forEach l (fun x => insertRelation (g x)) db)) = files db /\
      (fst (forEach l (fun x => insertRelation (g x)) db) = Ok tt ->
       k = List.length l) /\
      (Forall (fun x => hasParent (g x) db = true) l ->
       fst (forEach l (fun x => insertRelation (g x)) db) = Ok tt).
Proof.
  induction l as [|x xs IH]; intros db.
  - exists 0. simpl. rewrite app_nil_r. repeat split; auto.
  - simpl. unfold bind, insertRelation at 1 3 5 7.
    destruct (hasParent (g x) db) eqn:Hp.
    + destruct (IH {| files := files db; relations := relations db ++ [g x] |})
        as (k & Hk & Hrel & Hfiles & Hok & Hall).
      exists (S k). simpl in *. repeat split.
      * lia.
      * rewrite Hrel. now rewrite <- app_assoc.
      * exact Hfiles.
      * intros H. now rewrite (Hok H).
      * intros H. inversion H; subst. apply Hall.
        unfold hasParent in *. simpl. assumption.
    + exists 0. simpl. rewrite app_nil_r. repeat split; auto; try lia.
      * discriminate.
      * intros H. inversion H; subst. congruence.
Qed.

Lemma fromFile_true (P F : string) (r : RelationRecord.t) :
  fromFile P F r = true <->
  RelationRecord.project r = P /\ RelationRecord.srcFilePath r = F.
Proof.
  unfold fromFile. rewrite andb_true_iff, !String.eqb_eq. reflexivity.
Qed.

Lemma getFile_hasParent (P F : string) (db : Database) (v : RelationRecord.t) :
  FileRepository.getFile P F db <> None ->
  RelationRecord.project v = P -> RelationRecord.srcFilePath v = F ->
  hasParent v db = true.
Proof.
  unfold FileRepository.getFile, hasParent. intros Hf -> ->.
  destruct (find _ (files db)) as [f|] eqn:Hfind; [|congruence].
  apply existsb_exists. exists f. apply find_some in Hfind. tauto.
Qed.

Lemma insertedValues_full (P F : string) (r : RelationRecord.t) :
  RelationRecord.project r = P ->
  insertedValues P F (PartialRelation.full r) = r.
Proof.
  intros <-. destruct r as [p t s [sn|] d [dn|] [m|]]; reflexivity.
Qed.

(** The state [replaceFileRelations] leaves, whether or not an insert
    failed: the rows of the file are gone and a prefix of the new rows,
    each built by [insertedValues], is appended. *)
Lemma replaceFileRelations_state (P F : string) (rels : list PartialRelation.t)
  (db : Database) :
  exists k,
    k <= List.length rels /\
    relations (snd (replaceFileRelations P F rels db)) =
      filter (fun r => negb (fromFile P F r)) (relations db) ++
      map (insertedValues P F) (firstn k rels) /\
    files (snd (replaceFileRelations P F rels db)) = files db /\
    (fst (replaceFileRelations P F rels db) = Ok tt -> k = List.length rels) /\
    (Forall (fun rel => hasParent (insertedValues P F rel) db = true) rels ->
     fst (replaceFileRelations P F rels db) = Ok tt).
Proof.
  unfold replaceFileRelations, bind, deleteWhere, modify.
  destruct rels as [|rel rest].
  - exists 0. simpl. rewrite app_nil_r. repeat split; auto.
  - cbn [List.length Nat.eqb].
    set (db1 := {| files := files db;
                   relations := filter (fun r => negb (fromFile P F r))
                                  (relations db) |}).
    destruct (insert_loop (insertedValues P F) (rel :: rest) db1)
      as (k & Hk & Hrel & Hfiles & Hok & Hall).
    exists k. repeat split; auto.
Qed.

(** C5, as amended.  When the file row [(P, F)] exists and every row of
    [R] carries project [P] and source path [F], [replaceFileRelations]
    succeeds, [getOutgoing(P, F)] then returns exactly the rows of [R],
    the outgoing relations of every other [(project, srcFilePath)] are
    what they were, and the files table is untouched. *)
Theorem replaceFileRelations_then_getOutgoing
  (P F : string) (R : list RelationRecord.t) (db : Database) :
  FileRepository.getFile P F db <> None ->
  Forall (fun r => RelationRecord.project r = P /\
                   RelationRecord.srcFilePath r = F) R ->
  exists db',
    replaceFileRelations P F (map PartialRelation.full R) db = (Ok tt, db') /\
    getOutgoing P F None db' = R /\
    (forall r, In r (getOutgoing P F None db') <-> In r R) /\
    (forall P' F' s, P' <> P \/ F' <> F ->
       getOutgoing P' F' s db' = getOutgoing P' F' s db) /\
    files db' = files db.
Proof.
  intros Hfile HR.
  destruct (replaceFileRelations_state P F (map PartialRelation.full R) db)
    as (k & _ & Hrel & Hfiles & Hok & Hall).
  assert (Hfst : fst (replaceFileRelations P F (map PartialRelation.full R) db)
                 = Ok tt).
  { apply Hall. rewrite Forall_map. rewrite Forall_forall in *.
    intros r Hr. destruct (HR r Hr) as [Hp Hs].
    apply (getFile_hasParent P F);
      [exact Hfile | rewrite insertedValues_full; auto ..]. }
  specialize (Hok Hfst). subst k. rewrite firstn_all, map_map in Hrel.
  assert (Hid : map (fun x => insertedValues P F (PartialRelation.full x)) R = R).
  { rewrite <- (map_id R) at 2. apply map_ext_in. intros r Hr.
    rewrite Forall_forall in HR. apply insertedValues_full, HR, Hr. }
  rewrite Hid in Hrel.
  destruct (replaceFileRelations P F (map PartialRelation.full R) db)
    as [res db'] eqn:E.
  cbn [fst snd] in *. subst res. exists db'.
  assert (Hout : getOutgoing P F None db' = R).
  { unfold getOutgoing. rewrite Hrel.
    apply (filter_negb_app_keep _ (fromFile P F)).
    - intros r Hr. rewrite Forall_forall in HR.
      destruct (HR r Hr) as [-> ->]. now rewrite !String.eqb_refl.
    - auto. }
  split; [reflexivity|]. split; [exact Hout|].
  split; [intros r; rewrite Hout; tauto|]. split; [|exact Hfiles].
  - intros P' F' s Hne.
    assert (Hoff : forall r,
              (String.eqb (RelationRecord.project r) P' &&
               String.eqb (RelationRecord.srcFilePath r) F')%bool = true ->
              fromFile P F r = false).
    { intros r Hr. apply andb_true_iff in Hr. destruct Hr as [Hp Hs].
      apply String.eqb_eq in Hp, Hs.
      destruct (fromFile P F r) eqn:Hff; [|reflexivity].
      apply fromFile_true in Hff. destruct Hff; destruct Hne; congruence. }
    assert (Hnew : forall r, In r R ->
              (String.eqb (RelationRecord.project r) P' &&
               String.eqb (RelationRecord.srcFilePath r) F')%bool = false).
    { intros r Hr. rewrite Forall_forall in HR. destruct (HR r Hr) as [Hp Hs].
      destruct (_ && _)%bool eqn:Hb; [|reflexivity].
      apply Hoff in Hb. rewrite <- Hb. symmetry. now apply fromFile_true. }
    unfold getOutgoing. rewrite Hrel. destruct s as [name|].
    + apply filter_other_app_drop.
      * intros r Hr. now rewrite (Hnew r Hr).
      * intros r Hr. apply andb_true_iff in Hr. now apply Hoff.
    + apply filter_other_app_drop; auto.
Qed.

(** C5, the claim as stated is false: a fully specified row whose
    [srcFilePath] is another file is stored under that other file.  With
    files [a.ts] and [b.ts] of project [p] and no relations,
    [replaceFileRelations("p", "a.ts", [row from b.ts])] succeeds, after
    which [getOutgoing("p", "a.ts")] is empty although the row was
    written, and the outgoing relations of [("p", "b.ts")] have changed.
    And without a file row for the source the insert fails on the
    foreign key: on the empty database the call for [b.ts] itself
    throws and nothing is stored. *)
Lemma replaceFileRelations_foreign_source :
  let file path :=
    {| FileRecord.project := "p"; FileRecord.filePath := path;
       FileRecord.mtimeMs := 0%Z; FileRecord.size := 0%Z;
       FileRecord.contentHash := "h"; FileRecord.updatedAt := "t" |} in
  let db := {| files := [file "a.ts"; file "b.ts"]; relations := [] |} in
  let row :=
    {| RelationRecord.project := "p"; RelationRecord.type := "imports";
       RelationRecord.srcFilePath := "b.ts";
       RelationRecord.srcSymbolName := None;
       RelationRecord.dstFilePath := "c.ts";
       RelationRecord.dstSymbolName := None;
       RelationRecord.metaJson := None |} in
  let out := replaceFileRelations "p" "a.ts" [PartialRelation.full row] db in
  fst out = Ok tt /\
  getOutgoing "p" "a.ts" None (snd out) = [] /\
  ~ (forall r, In r (getOutgoing "p" "a.ts" None (snd out)) <-> In r [row]) /\
  getOutgoing "p" "b.ts" None db = [] /\
  getOutgoing "p" "b.ts" None (snd out) = [row] /\
  replaceFileRelations "p" "b.ts" [PartialRelation.full row] emptyDatabase
    = (Throw foreignKeyError, emptyDatabase) /\
  getOutgoing "p" "b.ts" None emptyDatabase = [].
Proof.
  cbv zeta. repeat split; try reflexivity.
  intros H. destruct (proj2 (H _) (or_introl eq_refl)).
Qed.

(** C9.  With a symbol name [s], [getOutgoing(P, F, s)] returns exactly
    the relations of [(P, F)] whose [srcSymbolName] is [s]; a file-level
    relation ([srcSymbolName] null) is never part of the result. *)
Theorem getOutgoing_with_symbol
  (P F s : string) (db : Database) :
  (forall r,
     In r (getOutgoing P F (Some s) db) <->
     In r (relations db) /\
     RelationRecord.project r = P /\
     RelationRecord.srcFilePath r = F /\
     RelationRecord.srcSymbolName r = Some s) /\
  (forall r,
     In r (getOutgoing P F (Some s) db) ->
     RelationRecord.srcSymbolName r <> None).
Proof.
  assert (Hiff : forall r,
     In r (getOutgoing P F (Some s) db) <->
     In r (relations db) /\
     RelationRecord.project r = P /\
     RelationRecord.srcFilePath r = F /\
     RelationRecord.srcSymbolName r = Some s).
  { intros r. unfold getOutgoing. rewrite filter_In, !andb_true_iff, !String.eqb_eq.
    unfold eqNullable.
    destruct (RelationRecord.srcSymbolName r) as [n|].
    - rewrite String.eqb_eq. split.
      + intros (Hin & (Hp & Hs) & Hn). subst. auto.
      + intros (Hin & Hp & Hs & Hn). inversion Hn. auto.
    - split.
      + intros (_ & _ & Hn). discriminate.
      + intros (_ & _ & _ & Hn). discriminate. }
  split; [exact Hiff|].
  intros r Hr. apply Hiff in Hr. destruct Hr as (_ & _ & _ & Hn).
  rewrite Hn. discriminate.
Qed.

(** C10.  Every row [replaceFileRelations] inserts is [insertedValues] of
    an element of [rels], and [insertedValues] fills what is missing: a
    missing [type] becomes "unknown", which is none of the relation
    types; a missing [srcFilePath] becomes the call's [srcFilePath]; a
    missing [dstFilePath] becomes the empty string; missing (or null)
    [srcSymbolName], [dstSymbolName] and [metaJson] become null.  The
    project is always the call's. *)
Theorem replaceFileRelations_defaults
  (project srcFilePath : string) (rels : list PartialRelation.t)
  (db : Database) :
  (exists k,
     k <= List.length rels /\
     relations (snd (replaceFileRelations project srcFilePath rels db)) =
       filter (fun r => negb (fromFile project srcFilePath r)) (relations db)
       ++ map (insertedValues project srcFilePath) (firstn k rels) /\
     (fst (replaceFileRelations project srcFilePath rels db) = Ok tt ->
      k = List.length rels)) /\
  ~ In "unknown" relationTypes /\
  (forall rel,
     let v := insertedValues project srcFilePath rel in
     RelationRecord.project v = project /\
     (PartialRelation.type rel = None -> RelationRecord.type v = "unknown") /\
     (PartialRelation.srcFilePath rel = None ->
      RelationRecord.srcFilePath v = srcFilePath) /\
     (PartialRelation.dstFilePath rel = None ->
      RelationRecord.dstFilePath v = EmptyString) /\
     (PartialRelation.srcSymbolName rel = None ->
      RelationRecord.srcSymbolName v = None) /\
     (PartialRelation.dstSymbolName rel = None ->
      RelationRecord.dstSymbolName v = None) /\
     (PartialRelation.metaJson rel = None ->
      RelationRecord.metaJson v = None)).
Proof.
  split; [|split].
  - destruct (replaceFileRelations_state project srcFilePath rels db)
      as (k & Hk & Hrel & _ & Hok & _).
    exists k. auto.
  - unfold relationTypes. simpl. intuition discriminate.
  - intros rel. cbv zeta. unfold insertedValues. simpl.
    repeat split; intros ->; reflexivity.
Qed.

(** ** The repository tests, replayed *)

(** "should replace all outgoing relations for a file": the file row
    exists, the row is one of the file itself. *)
Lemma replaceFileRelations_then_getOutgoing_witness :
  let db := {| files := [Fixtures.makeFileRecord "src/index.ts"];
               relations := [] |} in
  let R := [Fixtures.makeRelationRecord "src/index.ts" None "src/utils.ts"] in
  let out := replaceFileRelations "test-project" "src/index.ts"
               (map PartialRelation.full R) db in
  fst out = Ok tt /\
  getOutgoing "test-project" "src/index.ts" None (snd out) = R.
Proof.
  cbv zeta.
  destruct (replaceFileRelations_then_getOutgoing
              "test-project" "src/index.ts"
              [Fixtures.makeRelationRecord "src/index.ts" None "src/utils.ts"]
              {| files := [Fixtures.makeFileRecord "src/index.ts"];
                 relations := [] |})
    as (db' & Hrun & Hout & _).
  - vm_compute. discriminate.
  - repeat constructor.
  - rewrite Hrun. split; [reflexivity | exact Hout].
Defined.

(** An element of [rels] that gives nothing but a destination symbol. *)
Example replaceFileRelations_empty_element :
  let db := {| files := [Fixtures.makeFileRecord "src/index.ts"];
               relations := [] |} in
  let rel := {| PartialRelation.project := None;
                PartialRelation.type := None;
                PartialRelation.srcFilePath := None;
                PartialRelation.srcSymbolName := None;
                PartialRelation.dstFilePath := None;
                PartialRelation.dstSymbolName := Some (Some "helper");
                PartialRelation.metaJson := None |} in
  replaceFileRelations "test-project" "src/index.ts" [rel] db
  = (Ok tt,
     {| files := files db;
        relations :=
          [{| RelationRecord.project := "test-project";
              RelationRecord.type := "unknown";
              RelationRecord.srcFilePath := "src/index.ts";
              RelationRecord.srcSymbolName := None;
              RelationRecord.dstFilePath := EmptyString;
              RelationRecord.dstSymbolName := Some "helper";
              RelationRecord.metaJson := None |}] |}).
Proof. reflexivity. Qed.

(** Without the file row the insert violates the foreign key of
    [relations] and the delete has already happened. *)
Example replaceFileRelations_without_file :
  fst (replaceFileRelations "test-project" "src/index.ts"
         [PartialRelation.full
            (Fixtures.makeRelationRecord "src/index.ts" None "src/utils.ts")]
         emptyDatabase)
  = Throw foreignKeyError.
Proof. reflexivity. Qed.

End RelationRepositoryFacts.

(* ================================================================== *)
(** * Properties of the file repository and of the tables              *)
(* ================================================================== *)

Section FileRepositoryFacts.

Import FileRepository RelationRepository Tables.

Lemma isFile_key (p f : string) (r : FileRecord.t) :
  isFile p f r = true <-> fileKey r = (p, f).
Proof.
  unfold isFile, fileKey. rewrite andb_true_iff, !String.eqb_eq.
  split; [intros [-> ->]; reflexivity|intros H; now inversion H].
Qed.

Lemma isFile_other (p f : string) (r x : FileRecord.t) :
  (p, f) <> fileKey r ->
  isFile (FileRecord.project r) (FileRecord.filePath r) x = true ->
  isFile p f x = false /\ isFile p f r = false.
Proof.
  intros Hne Hx. apply isFile_key in Hx.
  split; apply not_true_is_false; intros H; apply isFile_key in H;
    apply Hne; unfold fileKey in *; congruence.
Qed.

Lemma existsb_find {A : Type} (q : A -> bool) (l : list A) :
  existsb q l = true <-> find q l <> None.
Proof.
  induction l as [|x xs IH]; simpl.
  - split; [discriminate|intros H; now contradiction H].
  - destruct (q x); simpl; [split; [discriminate|reflexivity]|exact IH].
Qed.

Lemma find_append {A : Type} (q : A -> bool) (l l' : list A) :
  find q (l ++ l') = match find q l with
                     | Some x => Some x
                     | None => find q l'
                     end.
Proof.
  induction l as [|x xs IH]; simpl; [reflexivity|].
  destruct (q x); [reflexivity|exact IH].
Qed.

Lemma find_replaced (record : FileRecord.t) (l : list FileRecord.t) :
  let key := isFile (FileRecord.project record) (FileRecord.filePath record) in
  existsb key l = true ->
  find key (map (fun f => if key f then record else f) l) = Some record.
Proof.
  cbv zeta. set (key := isFile _ _).
  assert (Hrec : key record = true) by (apply isFile_key; reflexivity).
  induction l as [|x xs IH]; simpl; [discriminate|].
  destruct (key x) eqn:Hx; simpl.
  - now rewrite Hrec.
  - rewrite Hx. exact IH.
Qed.

Lemma find_appended (record : FileRecord.t) (l : list FileRecord.t) :
  let key := isFile (FileRecord.project record) (FileRecord.filePath record) in
  existsb key l = false ->
  find key (l ++ [record]) = Some record.
Proof.
  cbv zeta. set (key := isFile _ _).
  assert (Hrec : key record = true) by (apply isFile_key; reflexivity).
  induction l as [|x xs IH]; simpl; [now rewrite Hrec|].
  destruct (key x) eqn:Hx; simpl; [discriminate|exact IH].
Qed.

(** What [getFile] sees after an [upsertFile]. *)
Lemma upsertFile_lookup (record : FileRecord.t) (db : Database) :
  getFile (FileRecord.project record) (FileRecord.filePath record)
    (upsertFile record db) = Some record /\
  (forall p f, (p, f) <> fileKey record ->
     getFile p f (upsertFile record db) = getFile p f db) /\
  relations (upsertFile record db) = relations db.
Proof.
  unfold getFile, upsertFile.
  destruct (existsb _ (files db)) eqn:Hex; cbn [files relations].
  - split; [now apply find_replaced|]. split; [|reflexivity].
    intros p f Hne. induction (files db) as [|x xs IH]; simpl; [reflexivity|].
    destruct (isFile (FileRecord.project record) (FileRecord.filePath record) x)
      eqn:Hx.
    + destruct (isFile_other p f record x Hne Hx) as [-> ->].
      simpl in Hex. rewrite Hx in Hex. simpl in Hex.
      destruct (existsb (isFile (FileRecord.project record)
                           (FileRecord.filePath record)) xs) eqn:Hxs.
      * now apply IH.
      * clear IH. induction xs as [|y ys IHy]; simpl; [reflexivity|].
        simpl in Hxs. apply orb_false_iff in Hxs. destruct Hxs as [Hy Hys].
        rewrite Hy. destruct (isFile p f y); [reflexivity|now apply IHy].
    + destruct (isFile p f x); [reflexivity|].
      simpl in Hex. rewrite Hx in Hex. simpl in Hex. now apply IH.
  - split; [now apply find_appended|]. split; [|reflexivity].
    intros p f Hne. rewrite find_append.
    destruct (find (isFile p f) (files db)); [reflexivity|].
    simpl. destruct (isFile p f record) eqn:Hr; [|reflexivity].
    apply isFile_key in Hr. congruence.
Qed.

(** Round trip.  After [upsertFile(record)], [getFile] on the key of
    [record] returns [record], whether the row was inserted or updated;
    [getFile] on any other key returns what it returned before, and the
    relations are untouched. *)
Theorem upsertFile_then_getFile (record : FileRecord.t) (db : Database) :
  getFile (FileRecord.project record) (FileRecord.filePath record)
    (upsertFile record db) = Some record /\
  (forall p f, (p, f) <> fileKey record ->
     getFile p f (upsertFile record db) = getFile p f db) /\
  relations (upsertFile record db) = relations db.
Proof. exact (upsertFile_lookup record db). Qed.

Lemma keys_replaced (record : FileRecord.t) (l : list FileRecord.t) :
  let key := isFile (FileRecord.project record) (FileRecord.filePath record) in
  map fileKey (map (fun f => if key f then record else f) l) = map fileKey l.
Proof.
  cbv zeta. induction l as [|x xs IH]; simpl; [reflexivity|].
  rewrite IH. f_equal.
  destruct (isFile _ _ x) eqn:Hx; [|reflexivity].
  apply isFile_key in Hx. now rewrite Hx.
Qed.

Lemma existsb_isFile_keys (p f : string) (l : list FileRecord.t) :
  existsb (isFile p f) l = true <-> In (p, f) (map fileKey l).
Proof.
  rewrite existsb_exists, in_map_iff. split.
  - intros (x & Hin & Hx). exists x. split; [now apply isFile_key|exact Hin].
  - intros (x & Hk & Hin). exists x. split; [exact Hin|now apply isFile_key].
Qed.

(** The key of the files table stays a key.  [upsertFile] on a key that
    is present rewrites that row in place, keeping the number and the
    order of the rows; on a key that is absent it appends one row; either
    way no two rows share [(project, filePath)] afterwards if none did
    before. *)
Theorem upsertFile_keeps_keys_unique (record : FileRecord.t) (db : Database) :
  UniqueFiles db ->
  UniqueFiles (upsertFile record db) /\
  (getFile (FileRecord.project record) (FileRecord.filePath record) db
     <> None ->
   map fileKey (files (upsertFile record db)) = map fileKey (files db)) /\
  (getFile (FileRecord.project record) (FileRecord.filePath record) db
     = None ->
   files (upsertFile record db) = files db ++ [record]).
Proof.
  intros Huniq. unfold UniqueFiles, getFile, upsertFile in *.
  destruct (existsb _ (files db)) eqn:Hex; cbn [files].
  - rewrite keys_replaced. split; [exact Huniq|]. split; [reflexivity|].
    intros Hnone. apply existsb_find in Hex. contradiction.
  - split; [|split].
    + rewrite map_app. simpl. apply NoDup_app; [exact Huniq| |].
      * constructor; [intros []|constructor].
      * intros k Hk [<-|[]].
        apply existsb_isFile_keys in Hk. congruence.
    + intros Hsome. exfalso. apply Hsome.
      destruct (find _ (files db)) eqn:Hf; [|reflexivity].
      assert (H : existsb (isFile (FileRecord.project record)
                             (FileRecord.filePath record)) (files db) = true)
        by (apply existsb_find; congruence).
      congruence.
    + reflexivity.
Qed.

Lemma mapGet_mapSet {V : Type} (key k : string) (v : V)
  (m : list (string * V)) :
  mapGet key (mapSet k v m) = if String.eqb k key then Some v else mapGet key m.
Proof.
  induction m as [|[k0 v0] rest IH]; simpl; [reflexivity|].
  destruct (String.eqb k0 k) eqn:Hk0; simpl.
  - apply String.eqb_eq in Hk0. subst k0.
    destruct (String.eqb k key); reflexivity.
  - rewrite IH. destruct (String.eqb k0 key) eqn:Hkey; [|reflexivity].
    apply String.eqb_eq in Hkey. subst k0.
    now rewrite String.eqb_sym, Hk0.
Qed.

Lemma find_filter {A : Type} (p q : A -> bool) (l : list A) :
  find q (filter p l) = find (fun x => p x && q x) l.
Proof.
  induction l as [|x xs IH]; simpl; [reflexivity|].
  destruct (p x); simpl; [|exact IH].
  destruct (q x); [reflexivity|exact IH].
Qed.

Lemma getFilesMap_fold (f : string) (l : list FileRecord.t) :
  NoDup (map FileRecord.filePath l) ->
  forall m,
    mapGet f (fold_left (fun m r => mapSet (FileRecord.filePath r) r m) l m) =
    match find (fun r => String.eqb (FileRecord.filePath r) f) l with
    | Some r => Some r
    | None => mapGet f m
    end.
Proof.
  induction l as [|x xs IH]; intros Hnd m; [reflexivity|].
  simpl in Hnd. inversion Hnd as [|? ? Hx Hxs]; subst.
  simpl. rewrite (IH Hxs), mapGet_mapSet.
  destruct (String.eqb (FileRecord.filePath x) f) eqn:Hxf.
  - apply String.eqb_eq in Hxf.
    destruct (find _ xs) as [y|] eqn:Hy; [|reflexivity].
    apply find_some in Hy. destruct Hy as [Hin Hyf].
    apply String.eqb_eq in Hyf. exfalso. apply Hx.
    apply in_map_iff. exists y. split; [congruence|exact Hin].
  - reflexivity.
Qed.

Lemma NoDup_paths_of_project (p : string) (l : list FileRecord.t) :
  NoDup (map fileKey l) ->
  NoDup (map FileRecord.filePath
           (filter (fun f => String.eqb (FileRecord.project f) p) l)).
Proof.
  induction l as [|x xs IH]; intros Hnd; simpl; [constructor|].
  inversion Hnd as [|? ? Hx Hxs]; subst.
  destruct (String.eqb (FileRecord.project x) p) eqn:Hp; [|now apply IH].
  simpl. constructor; [|now apply IH].
  intros Hin. apply in_map_iff in Hin. destruct Hin as (y & Hy & Hin).
  apply filter_In in Hin. destruct Hin as [Hin Hyp].
  apply String.eqb_eq in Hp, Hyp. apply Hx. apply in_map_iff.
  exists y. split; [unfold fileKey; congruence|exact Hin].
Qed.

Lemma insertByPath_in (r y : FileRecord.t) (l : list FileRecord.t) :
  In y (insertByPath r l) <-> y = r \/ In y l.
Proof.
  induction l as [|x xs IH]; simpl; [intuition|].
  destruct (String.leb (FileRecord.filePath r) (FileRecord.filePath x));
    simpl; [intuition|]. rewrite IH. intuition.
Qed.

Lemma byPath_in (y : FileRecord.t) (l : list FileRecord.t) :
  In y (byPath l) <-> In y l.
Proof.
  induction l as [|x xs IH]; simpl; [reflexivity|].
  rewrite insertByPath_in, IH. intuition.
Qed.

Lemma insertByPath_NoDup (r : FileRecord.t) (l : list FileRecord.t) :
  ~ In (FileRecord.filePath r) (map FileRecord.filePath l) ->
  NoDup (map FileRecord.filePath l) ->
  NoDup (map FileRecord.filePath (insertByPath r l)).
Proof.
  induction l as [|x xs IH]; intros Hr Hnd; simpl.
  - constructor; [intros []|constructor].
  - destruct (String.leb (FileRecord.filePath r) (FileRecord.filePath x)).
    + simpl. constructor; assumption.
    + simpl in Hr, Hnd. inversion Hnd as [|? ? Hx Hxs]; subst.
      simpl. constructor.
      * intros Hin. apply in_map_iff in Hin.
        destruct Hin as (y & Hy & Hin). apply insertByPath_in in Hin.
        destruct Hin as [->|Hin]; [apply Hr; now left|].
        apply Hx. apply in_map_iff. now exists y.
      * apply IH; [|exact Hxs]. intros Hin. apply Hr. now right.
Qed.

Lemma byPath_NoDup (l : list FileRecord.t) :
  NoDup (map FileRecord.filePath l) ->
  NoDup (map FileRecord.filePath (byPath l)).
Proof.
  induction l as [|x xs IH]; intros Hnd; simpl; [constructor|].
  simpl in Hnd. inversion Hnd as [|? ? Hx Hxs]; subst.
  apply insertByPath_NoDup; [|now apply IH].
  intros Hin. apply Hx. apply in_map_iff in Hin.
  destruct Hin as (y & Hy & Hin).
  apply (proj1 (byPath_in y xs)) in Hin.
  apply in_map_iff. now exists y.
Qed.

(** With unique paths, a lookup by path does not see the order. *)
Lemma find_insertByPath (f : string) (r : FileRecord.t)
  (l : list FileRecord.t) :
  ~ In (FileRecord.filePath r) (map FileRecord.filePath l) ->
  find (fun x => String.eqb (FileRecord.filePath x) f) (insertByPath r l) =
  if String.eqb (FileRecord.filePath r) f then Some r
  else find (fun x => String.eqb (FileRecord.filePath x) f) l.
Proof.
  induction l as [|x xs IH]; intros Hr; simpl; [reflexivity|].
  destruct (String.leb (FileRecord.filePath r) (FileRecord.filePath x));
    simpl; [reflexivity|].
  simpl in Hr. rewrite IH by (intros Hin; apply Hr; now right).
  destruct (String.eqb (FileRecord.filePath x) f) eqn:Hx; [|reflexivity].
  destruct (String.eqb (FileRecord.filePath r) f) eqn:Hrf; [|reflexivity].
  apply String.eqb_eq in Hx, Hrf. exfalso. apply Hr. left. congruence.
Qed.

Lemma find_byPath (f : string) (l : list FileRecord.t) :
  NoDup (map FileRecord.filePath l) ->
  find (fun x => String.eqb (FileRecord.filePath x) f) (byPath l) =
  find (fun x => String.eqb (FileRecord.filePath x) f) l.
Proof.
  induction l as [|x xs IH]; intros Hnd; simpl; [reflexivity|].
  simpl in Hnd. inversion Hnd as [|? ? Hx Hxs]; subst.
  rewrite find_insertByPath, (IH Hxs); [reflexivity|].
  intros Hin. apply Hx. apply in_map_iff in Hin.
  destruct Hin as (y & Hy & Hin).
  apply (proj1 (byPath_in y xs)) in Hin.
  apply in_map_iff. now exists y.
Qed.

(** [getFilesMap] agrees with [getFile].  When the keys of the files
    table are unique, the map [getFilesMap(project)] builds holds under
    each path exactly the row [getFile(project, path)] returns, and
    nothing under a path the project has no file for. *)
Theorem getFilesMap_get (project filePath : string) (db : Database) :
  UniqueFiles db ->
  mapGet filePath (getFilesMap project db) = getFile project filePath db.
Proof.
  intros Huniq. unfold getFilesMap, getAllFiles, getFile.
  rewrite getFilesMap_fold
    by now apply byPath_NoDup, NoDup_paths_of_project.
  rewrite find_byPath by now apply NoDup_paths_of_project.
  rewrite find_filter. simpl.
  destruct (find _ (files db)); reflexivity.
Qed.

Lemma filter_negb_none {A : Type} (q : A -> bool) (l : list A) :
  find q (filter (fun x => negb (q x)) l) = None.
Proof.
  induction l as [|x xs IH]; simpl; [reflexivity|].
  destruct (q x) eqn:Hq; simpl; [exact IH|now rewrite Hq].
Qed.

Lemma find_filter_other {A : Type} (q d : A -> bool) (l : list A) :
  (forall x, q x = true -> d x = false) ->
  find q (filter (fun x => negb (d x)) l) = find q l.
Proof.
  intros Hqd. induction l as [|x xs IH]; simpl; [reflexivity|].
  destruct (q x) eqn:Hq.
  - rewrite (Hqd x Hq). simpl. now rewrite Hq.
  - destruct (d x); simpl; [exact IH|now rewrite Hq].
Qed.

Lemma filter_filter_other {A : Type} (q d : A -> bool) (l : list A) :
  (forall x, q x = true -> d x = false) ->
  filter q (filter (fun x => negb (d x)) l) = filter q l.
Proof.
  intros Hqd. induction l as [|x xs IH]; simpl; [reflexivity|].
  destruct (q x) eqn:Hq.
  - rewrite (Hqd x Hq). simpl. rewrite Hq. now f_equal.
  - destruct (d x); simpl; [exact IH|now rewrite Hq].
Qed.

Lemma filter_none {A : Type} (q : A -> bool) (l : list A) :
  (forall x, In x l -> q x = false) -> filter q l = [].
Proof.
  intros H. induction l as [|x xs IH]; simpl; [reflexivity|].
  rewrite (H x (or_introl eq_refl)). apply IH. intros y Hy. apply H. now right.
Qed.

Lemma getOutgoing_nothing (p f : string) (s : option string) (db : Database) :
  (forall r, In r (relations db) -> fromFile p f r = false) ->
  getOutgoing p f s db = [].
Proof.
  intros H. unfold getOutgoing.
  destruct s; apply filter_none; intros r Hr; specialize (H r Hr);
    unfold fromFile in H; rewrite H; reflexivity.
Qed.

Lemma getOutgoing_filter (p f : string) (s : option string)
  (d : RelationRecord.t -> bool) (db : Database) (fs : list FileRecord.t) :
  (forall r, fromFile p f r = true -> d r = false) ->
  getOutgoing p f s
    {| files := fs;
       relations := filter (fun r => negb (d r)) (relations db) |}
  = getOutgoing p f s db.
Proof.
  intros Hd. unfold getOutgoing. cbn [relations].
  destruct s; apply filter_filter_other; intros r Hr; apply Hd; unfold fromFile.
  - apply andb_true_iff in Hr. now destruct Hr.
  - exact Hr.
Qed.

Lemma fromFile_differs (p f p' f' : string) (r : RelationRecord.t) :
  (p', f') <> (p, f) -> fromFile p' f' r = true -> fromFile p f r = false.
Proof.
  intros Hne Hr. apply not_true_is_false. intros H.
  unfold fromFile in *. apply andb_true_iff in Hr, H.
  destruct Hr as [H1 H2], H as [H3 H4].
  apply String.eqb_eq in H1, H2, H3, H4. apply Hne. congruence.
Qed.

Lemma deleteFile_referential (p f : string) (db : Database) :
  Referential db -> Referential (deleteFile p f db).
Proof.
  intros Href.
  unfold Referential in *. rewrite Forall_forall in *.
  intros r Hin.
  assert (Hkeep : In r (relations db) /\
                  (existsb (isFile p f) (files db) = true ->
                   fromFile p f r = false)).
  { unfold deleteFile in Hin. cbn [relations] in Hin.
    destruct (existsb (isFile p f) (files db)).
    - apply filter_In in Hin. destruct Hin as [Hin Hn]. split; [exact Hin|].
      intros _. unfold fromFile. now apply negb_true_iff in Hn.
    - split; [exact Hin|discriminate]. }
  destruct Hkeep as [Hin0 Hnot]. specialize (Href r Hin0).
  unfold hasParent in *. apply existsb_exists in Href.
  destruct Href as (x & Hx & Hxk). apply existsb_exists. exists x.
  split; [|exact Hxk]. unfold deleteFile. cbn [files].
  apply filter_In. split; [exact Hx|]. apply negb_true_iff.
  apply not_true_is_false. intros Hpf.
  assert (Hex : existsb (isFile p f) (files db) = true)
    by (apply existsb_exists; now exists x).
  specialize (Hnot Hex). apply isFile_key in Hxk, Hpf.
  unfold fromFile in Hnot. apply andb_false_iff in Hnot.
  rewrite Hxk in Hpf. inversion Hpf as [[H1 H2]].
  destruct Hnot as [Hn|Hn]; apply String.eqb_neq in Hn; congruence.
Qed.

(** [deleteFile] takes the file and what hangs on it, and nothing else.
    In a database whose relations all have their source file, after
    [deleteFile(p, f)] the file is gone and so are its outgoing
    relations (the cascade); every other file row and the outgoing
    relations of every other file are what they were, and both table
    invariants still hold. *)
Theorem deleteFile_cascades (p f : string) (db : Database) :
  Referential db ->
  getFile p f (deleteFile p f db) = None /\
  (forall s, getOutgoing p f s (deleteFile p f db) = []) /\
  (forall p' f', (p', f') <> (p, f) ->
     getFile p' f' (deleteFile p f db) = getFile p' f' db /\
     forall s, getOutgoing p' f' s (deleteFile p f db)
               = getOutgoing p' f' s db) /\
  Referential (deleteFile p f db) /\
  (UniqueFiles db -> UniqueFiles (deleteFile p f db)).
Proof.
  intros Href.
  assert (Hother : forall p' f' x, (p', f') <> (p, f) ->
            isFile p' f' x = true -> isFile p f x = false).
  { intros p' f' x Hne Hx. apply not_true_is_false. intros H.
    apply isFile_key in Hx, H. apply Hne. congruence. }
  split; [|split; [|split; [|split]]].
  - unfold getFile, deleteFile. cbn [files]. apply filter_negb_none.
  - intros s. apply getOutgoing_nothing. intros r Hin.
    apply not_true_is_false. intros Hfrom.
    unfold deleteFile in Hin. cbn [relations] in Hin.
    destruct (existsb (isFile p f) (files db)) eqn:Hex.
    + apply filter_In in Hin. destruct Hin as [_ Hin].
      unfold fromFile in Hfrom. rewrite Hfrom in Hin. discriminate.
    + unfold Referential in Href. rewrite Forall_forall in Href.
      specialize (Href r Hin). unfold hasParent in Href.
      unfold fromFile in Hfrom. apply andb_true_iff in Hfrom.
      destruct Hfrom as [H1 H2]. apply String.eqb_eq in H1, H2.
      rewrite H1, H2 in Href. congruence.
  - intros p' f' Hne. split.
    + unfold getFile, deleteFile. cbn [files].
      apply find_filter_other. intros x Hx. exact (Hother p' f' x Hne Hx).
    + intros s. unfold deleteFile.
      destruct (existsb (isFile p f) (files db)).
      * apply getOutgoing_filter. intros r Hr.
        exact (fromFile_differs p f p' f' r Hne Hr).
      * destruct s; reflexivity.
  - now apply deleteFile_referential.
  - unfold UniqueFiles, deleteFile. cbn [files]. intros Hnd.
    induction (files db) as [|x xs IH]; simpl; [constructor|].
    inversion Hnd as [|? ? Hx Hxs]; subst.
    destruct (isFile p f x); simpl; [now apply IH|].
    constructor; [|now apply IH].
    intros Hin. apply Hx. apply in_map_iff in Hin.
    destruct Hin as (y & Hy & Hin). apply filter_In in Hin.
    apply in_map_iff. exists y. tauto.
Qed.

Lemma insert_loop_referential {A : Type} (g : A -> RelationRecord.t)
  (l : list A) :
  forall db,
    Referential db ->
    Referential (snd (forEach l (fun x => insertRelation (g x)) db)).
Proof.
  induction l as [|x xs IH]; intros db Href; [exact Href|].
  simpl. unfold bind, insertRelation at 1.
  destruct (hasParent (g x) db) eqn:Hp; [|exact Href].
  apply IH. unfold Referential in *. cbn [relations].
  apply Forall_app. split.
  - eapply Forall_impl; [|exact Href]. intros r Hr. exact Hr.
  - constructor; [exact Hp|constructor].
Qed.

Lemma referential_filter (d : RelationRecord.t -> bool) (db : Database) :
  Referential db ->
  Referential {| files := files db;
                 relations := filter (fun r => negb (d r)) (relations db) |}.
Proof.
  unfold Referential. rewrite !Forall_forall. cbn [relations].
  intros Href r Hr. apply filter_In in Hr. destruct Hr as [Hr _].
  exact (Href r Hr).
Qed.

(** Referential integrity is an invariant of the repositories.  If
    every relation row has the file row of its source, then so it is
    after any write of the file and relation repositories, also after a
    [replaceFileRelations] that throws half way. *)
Theorem writes_keep_relations_referential (db : Database) :
  Referential db ->
  (forall record, Referential (upsertFile record db)) /\
  (forall p f, Referential (deleteFile p f db)) /\
  (forall p f rels, Referential (snd (replaceFileRelations p f rels db))) /\
  (forall p f, Referential (snd (deleteFileRelations p f db))) /\
  (forall p o os n ns, Referential (snd (retargetRelations p o os n ns db))).
Proof.
  intros Href. split; [|split; [|split; [|split]]].
  - intros record. unfold Referential in *. rewrite Forall_forall in *.
    intros r Hr.
    destruct (upsertFile_lookup record db) as (Hget & Hother & Hrel).
    rewrite Hrel in Hr. specialize (Href r Hr). unfold hasParent in *.
    apply existsb_find. apply existsb_find in Href.
    destruct (String.eqb (RelationRecord.project r) (FileRecord.project record)
              && String.eqb (RelationRecord.srcFilePath r)
                   (FileRecord.filePath record)) eqn:Hk.
    + apply andb_true_iff in Hk. destruct Hk as [H1 H2].
      apply String.eqb_eq in H1, H2. rewrite H1, H2.
      unfold getFile in Hget. rewrite Hget. discriminate.
    + unfold getFile in Hother. rewrite Hother; [exact Href|].
      unfold fileKey. intros Heq. inversion Heq as [[H1 H2]].
      rewrite H1, H2, !String.eqb_refl in Hk. discriminate.
  - intros p f. now apply deleteFile_referential.
  - intros p f rels. unfold replaceFileRelations, bind, deleteWhere, modify.
    destruct (Nat.eqb (List.length rels) 0).
    + now apply referential_filter.
    + apply insert_loop_referential. now apply referential_filter.
  - intros p f. unfold deleteFileRelations, deleteWhere, modify. cbn [snd].
    now apply referential_filter.
  - intros p o os n ns. unfold retargetRelations, modify. cbn [snd].
    unfold Referential in *. cbn [relations]. rewrite Forall_forall in *.
    intros r Hr. apply in_map_iff in Hr. destruct Hr as (r0 & Hr0 & Hin).
    specialize (Href r0 Hin). unfold hasParent in *. cbn [files].
    destruct (pointsAt p o os r0); subst r; exact Href.
Qed.

(** [deleteFileRelations] empties one source file only.  It never
    throws; afterwards [getOutgoing(p, f)] is empty with or without a
    symbol name, the outgoing relations of every other file are what
    they were, the relations that point at [f] from other files are
    still there, and the files table is untouched. *)
Theorem deleteFileRelations_empties_source (p f : string) (db : Database) :
  let db' := snd (deleteFileRelations p f db) in
  fst (deleteFileRelations p f db) = Ok tt /\
  (forall s, getOutgoing p f s db' = []) /\
  (forall p' f' s, (p', f') <> (p, f) ->
     getOutgoing p' f' s db' = getOutgoing p' f' s db) /\
  (forall d, getIncoming p d db' =
             filter (fun r => negb (fromFile p f r)) (getIncoming p d db)) /\
  files db' = files db.
Proof.
  cbv zeta. unfold deleteFileRelations, deleteWhere, modify. cbn [fst snd].
  split; [reflexivity|]. split; [|split; [|split; [|reflexivity]]].
  - intros s. apply getOutgoing_nothing. cbn [relations]. intros r Hin.
    apply filter_In in Hin. destruct Hin as [_ Hin].
    now apply negb_true_iff in Hin.
  - intros p' f' s Hne. apply getOutgoing_filter. intros r Hr.
    exact (fromFile_differs p f p' f' r Hne Hr).
  - intros d. unfold getIncoming. cbn [relations].
    induction (relations db) as [|x xs IH]; simpl; [reflexivity|].
    destruct (fromFile p f x) eqn:Hx; simpl;
      destruct (String.eqb (RelationRecord.project x) p
                && String.eqb (RelationRecord.dstFilePath x) d);
      simpl; rewrite ?Hx; simpl; now rewrite IH.
Qed.

Lemma eqNullable_spec (cell : option string) (value : string) :
  eqNullable cell value = true <-> cell = Some value.
Proof.
  destruct cell as [v|]; simpl.
  - rewrite String.eqb_eq. split; congruence.
  - split; discriminate.
Qed.

Lemma pointsAt_spec (p o : string) (os : option string)
  (r : RelationRecord.t) :
  pointsAt p o os r = true <->
  RelationRecord.project r = p /\ RelationRecord.dstFilePath r = o /\
  RelationRecord.dstSymbolName r = os.
Proof.
  unfold pointsAt. destruct os as [name|].
  - rewrite !andb_true_iff, !String.eqb_eq, eqNullable_spec. tauto.
  - rewrite !andb_true_iff, !String.eqb_eq.
    destruct (RelationRecord.dstSymbolName r); intuition congruence.
Qed.

(** [retargetRelations] moves a destination and nothing else.  It never
    throws and keeps the number and the order of the rows; every row
    keeps its project, type, source and meta; a row that did not point
    at [(oldFile, oldSymbol)] in [project] is unchanged, and a row that
    did now points at [(newFile, newSymbol)].  When the new destination
    differs from the old one, no row of the table points at the old
    one afterwards. *)
Theorem retargetRelations_moves_destination
  (project oldFile : string) (oldSymbol : option string)
  (newFile : string) (newSymbol : option string) (db : Database) :
  let db' :=
    snd (retargetRelations project oldFile oldSymbol newFile newSymbol db) in
  fst (retargetRelations project oldFile oldSymbol newFile newSymbol db)
    = Ok tt /\
  files db' = files db /\
  map sourceOf (relations db') = map sourceOf (relations db) /\
  Forall2
    (fun r r' =>
       if pointsAt project oldFile oldSymbol r
       then RelationRecord.dstFilePath r' = newFile /\
            RelationRecord.dstSymbolName r' = newSymbol
       else r' = r)
    (relations db) (relations db') /\
  ((newFile, newSymbol) <> (oldFile, oldSymbol) ->
   Forall (fun r' => pointsAt project oldFile oldSymbol r' = false)
     (relations db')).
Proof.
  cbv zeta. unfold retargetRelations, modify. cbn [fst snd files relations].
  split; [reflexivity|]. split; [reflexivity|].
  split; [|split].
  - rewrite map_map. apply map_ext. intros r.
    destruct (pointsAt project oldFile oldSymbol r); reflexivity.
  - induction (relations db) as [|x xs IH]; simpl; constructor; [|exact IH].
    destruct (pointsAt project oldFile oldSymbol x); [split|]; reflexivity.
  - intros Hne. apply Forall_forall. intros r' Hr'.
    apply in_map_iff in Hr'. destruct Hr' as (r & <- & _).
    destruct (pointsAt project oldFile oldSymbol r) eqn:Hr; [|exact Hr].
    apply not_true_is_false. intros H. apply pointsAt_spec in H.
    cbn in H. destruct H as (_ & H1 & H2). apply Hne. congruence.
Qed.

(** ** The table theorems at the two-file database *)

Lemma twoFiles_unique : UniqueFiles Fixtures.twoFiles.
Proof.
  unfold UniqueFiles. simpl. repeat constructor; simpl; intuition discriminate.
Qed.

Lemma twoFiles_referential : Referential Fixtures.twoFiles.
Proof. unfold Referential. repeat constructor. Qed.

Lemma upsertFile_keeps_keys_unique_witness :
  UniqueFiles
    (upsertFile (Fixtures.makeFileRecord "src/new.ts") Fixtures.twoFiles) /\
  List.length
    (files (upsertFile (Fixtures.makeFileRecord "src/index.ts")
              Fixtures.twoFiles)) = 2.
Proof.
  split.
  - exact (proj1 (upsertFile_keeps_keys_unique
                    (Fixtures.makeFileRecord "src/new.ts")
                    Fixtures.twoFiles twoFiles_unique)).
  - reflexivity.
Defined.

Lemma getFilesMap_get_witness :
  mapGet "src/utils.ts" (getFilesMap "test-project" Fixtures.twoFiles)
  = Some (Fixtures.makeFileRecord "src/utils.ts").
Proof.
  rewrite (getFilesMap_get "test-project" "src/utils.ts" Fixtures.twoFiles
             twoFiles_unique).
  reflexivity.
Defined.

Lemma deleteFile_cascades_witness :
  getFile "test-project" "src/index.ts"
    (deleteFile "test-project" "src/index.ts" Fixtures.twoFiles) = None /\
  getOutgoing "test-project" "src/index.ts" None
    (deleteFile "test-project" "src/index.ts" Fixtures.twoFiles) = [].
Proof.
  destruct (deleteFile_cascades "test-project" "src/index.ts"
              Fixtures.twoFiles twoFiles_referential)
    as (Hfile & Hout & _).
  split; [exact Hfile|exact (Hout None)].
Defined.

Lemma writes_keep_relations_referential_witness :
  Referential
    (snd (replaceFileRelations "test-project" "src/utils.ts"
            [PartialRelation.full
               (Fixtures.makeRelationRecord "src/utils.ts" None
                  "src/index.ts")]
            Fixtures.twoFiles)).
Proof.
  destruct (writes_keep_relations_referential Fixtures.twoFiles
              twoFiles_referential) as (_ & _ & Hreplace & _).
  apply Hreplace.
Defined.

End FileRepositoryFacts.

(* ================================================================== *)
(** * Properties of the connection                                     *)
(* ================================================================== *)

Section DbConnectionFacts.

Import Sqlite DbConnection.

Lemma clientRun_begin (c : t) (h : Handle) :
  client c = Some h -> frames h = [] ->
  clientRun BEGIN c =
    (Ok tt, setClient c (Some {| rows := rows h;
                                 frames := [{| savepointName := None;
                                               before := rows h |}] |})).
Proof.
  intros Hc Hf. unfold clientRun. rewrite Hc. unfold run, inTransaction.
  now rewrite Hf.
Qed.

Lemma clientRun_savepoint (name : string) (c : t) (h : Handle) :
  client c = Some h ->
  clientRun (SAVEPOINT name) c =
    (Ok tt, setClient c (Some {| rows := rows h;
                                 frames := {| savepointName := Some name;
                                              before := rows h |}
                                           :: frames h |})).
Proof. intros Hc. unfold clientRun. now rewrite Hc. Qed.

Lemma clientRun_commit (c : t) (h : Handle) (f : Frame) (outer : list Frame) :
  client c = Some h -> frames h = f :: outer ->
  clientRun COMMIT c =
    (Ok tt, setClient c (Some {| rows := rows h; frames := [] |})).
Proof.
  intros Hc Hf. unfold clientRun. rewrite Hc. unfold run, inTransaction.
  now rewrite Hf.
Qed.

Lemma clientRun_rollback (c : t) (h : Handle) (f : Frame) :
  client c = Some h -> frames h = [f] ->
  clientRun ROLLBACK c =
    (Ok tt, setClient c (Some {| rows := before f; frames := [] |})).
Proof.
  intros Hc Hf. unfold clientRun. rewrite Hc. unfold run, inTransaction.
  now rewrite Hf.
Qed.

Lemma clientRun_release (name : string) (c : t) (h : Handle) (b : Database)
  (outer : list Frame) :
  client c = Some h ->
  frames h = {| savepointName := Some name; before := b |} :: outer ->
  clientRun (RELEASE name) c =
    (Ok tt, setClient c (Some {| rows := rows h; frames := outer |})).
Proof.
  intros Hc Hf. unfold clientRun. rewrite Hc. unfold run. rewrite Hf.
  cbn [findSavepoint isNamed savepointName]. now rewrite String.eqb_refl.
Qed.

Lemma clientRun_rollback_to (name : string) (c : t) (h : Handle) (b : Database)
  (outer : list Frame) :
  client c = Some h ->
  frames h = {| savepointName := Some name; before := b |} :: outer ->
  clientRun (ROLLBACK_TO name) c =
    (Ok tt, setClient c
              (Some {| rows := b;
                       frames := {| savepointName := Some name; before := b |}
                                 :: outer |})).
Proof.
  intros Hc Hf. unfold clientRun. rewrite Hc. unfold run. rewrite Hf.
  cbn [findSavepoint isNamed savepointName]. now rewrite String.eqb_refl.
Qed.

(** What [fn] wrapped between a savepoint and its release (or rollback)
    does, as both the nested branch of [transaction] and the nested branch
    of bun's [db.transaction] have it. *)
Lemma savepoint_bracket {T : Type} (fn : M t T) (name : string)
  (c : t) (h : Handle) :
  client c = Some h ->
  Balanced fn ->
  let entry :=
    setClient c (Some {| rows := rows h;
                         frames := {| savepointName := Some name;
                                      before := rows h |} :: frames h |}) in
  exists h',
    client (snd (fn entry)) = Some h' /\
    frames h' = {| savepointName := Some name; before := rows h |}
                :: frames h /\
    txDepth (snd (fn entry)) = txDepth c.
Proof.
  intros Hc Hbal entry.
  destruct (Hbal entry _ eq_refl) as (h' & Hc' & Hf' & Hd').
  exists h'. auto.
Qed.

Lemma clientRun_release_set (name : string) (c : t) (rws b : Database)
  (outer : list Frame) :
  clientRun (RELEASE name)
    (setClient c
       (Some {| rows := rws;
                frames := {| savepointName := Some name; before := b |}
                          :: outer |})) =
  (Ok tt, setClient c (Some {| rows := rws; frames := outer |})).
Proof.
  unfold clientRun, run. cbn. now rewrite String.eqb_refl.
Qed.

Ltac run_monad :=
  unfold bind, _requireClient, get, modify, finally, attempt, ret, throw.

Lemma transaction_outermost {T : Type} (fn : M t T) (c c3 : t) (h h3 : Handle)
  (r : Res T) :
  client c = Some h -> txDepth c = 0%Z -> frames h = [] ->
  fn (enter c h (beginFrame h)) = (r, c3) ->
  client c3 = Some h3 -> frames h3 = [beginFrame h] ->
  transaction fn c =
    (r, depthDown (setClient c3
          (Some {| rows := match r with Ok _ => rows h3 | Throw _ => rows h end;
                   frames := [] |}))).
Proof.
  intros Hc Hd Hf Hfn Hc3 Hf3.
  unfold transaction, nativeTransaction. run_monad.
  rewrite Hc, Hd. cbn [Z.eqb].
  unfold clientInTransaction. cbn [depthUp setDepth client].
  assert (Hin : inTransaction h = false)
    by (unfold inTransaction; now rewrite Hf).
  rewrite Hc, Hin.
  rewrite (clientRun_begin (depthUp c) h Hc Hf).
  unfold enter, beginFrame in Hfn. rewrite Hf in Hfn. rewrite Hfn.
  destruct r as [v|e].
  - now rewrite (clientRun_commit c3 h3 _ _ Hc3 Hf3).
  - rewrite Hc3. unfold inTransaction at 1. rewrite Hf3.
    now rewrite (clientRun_rollback c3 h3 _ Hc3 Hf3).
Qed.

Lemma transaction_outermost_nested {T : Type} (fn : M t T) (c c3 : t)
  (h h3 : Handle) (r : Res T) (f0 : Frame) (outer : list Frame) :
  client c = Some h -> txDepth c = 0%Z -> frames h = f0 :: outer ->
  fn (enter c h (savepointFrame nestedName h)) = (r, c3) ->
  client c3 = Some h3 -> frames h3 = savepointFrame nestedName h :: frames h ->
  transaction fn c =
    (r, depthDown (setClient c3
          (Some {| rows := match r with Ok _ => rows h3 | Throw _ => rows h end;
                   frames := frames h |}))).
Proof.
  intros Hc Hd Hf Hfn Hc3 Hf3.
  unfold transaction, nativeTransaction. run_monad.
  rewrite Hc, Hd. cbn [Z.eqb].
  unfold clientInTransaction. cbn [depthUp setDepth client].
  assert (Hin : inTransaction h = true)
    by (unfold inTransaction; now rewrite Hf).
  rewrite Hc, Hin.
  rewrite (clientRun_savepoint nestedName (depthUp c) h Hc).
  unfold enter, savepointFrame in Hfn. rewrite Hfn.
  unfold savepointFrame in Hf3.
  destruct r as [v|e].
  - now rewrite (clientRun_release nestedName c3 h3 _ _ Hc3 Hf3).
  - rewrite Hc3. unfold inTransaction at 1. rewrite Hf3.
    rewrite (clientRun_rollback_to nestedName c3 h3 _ _ Hc3 Hf3).
    now rewrite clientRun_release_set.
Qed.

Lemma transaction_inner {T : Type} (fn : M t T) (c c3 : t)
  (h h3 : Handle) (r : Res T) :
  let sp := ("sp_" ++ showNumber (txDepth c))%string in
  client c = Some h -> txDepth c <> 0%Z ->
  fn (enter c h (savepointFrame sp h)) = (r, c3) ->
  client c3 = Some h3 -> frames h3 = savepointFrame sp h :: frames h ->
  transaction fn c =
    (r, depthDown (setClient c3
          (Some {| rows := match r with Ok _ => rows h3 | Throw _ => rows h end;
                   frames := frames h |}))).
Proof.
  intros sp Hc Hd Hfn Hc3 Hf3.
  unfold transaction. run_monad.
  rewrite Hc. apply Z.eqb_neq in Hd. rewrite Hd.
  rewrite (clientRun_savepoint _ (depthUp c) h Hc).
  unfold enter, savepointFrame in Hfn. fold sp. rewrite Hfn.
  unfold savepointFrame in Hf3.
  destruct r as [v|e].
  - now rewrite (clientRun_release sp c3 h3 _ _ Hc3 Hf3).
  - rewrite (clientRun_rollback_to sp c3 h3 _ _ Hc3 Hf3).
    now rewrite clientRun_release_set.
Qed.


Section OpenRecovery.

Variable Os : Type.
Variable dirname : string -> string.
Variable mkdirSync : string -> M Os unit.
Variable existsSync : string -> Os -> bool.
Variable unlinkSync : string -> M Os unit.
Variable newDatabase : string -> M Os Handle.
Variable runSql : string -> M Os unit.
Variable migrate : M Os unit.
Variable closeDatabase : Os -> Os.
Variable FTS_SETUP_SQL : list string.

(** One level of the recovery in [open()]: after a corruption error with
    the database file present, the client is closed, the file and its
    [-wal] and [-shm] companions (those that exist) are unlinked, and
    [open()] is called again; what that call throws is wrapped in a
    [StoreError] as its cause.  The call itself recovers in the same
    way. *)
Lemma open_recovery_step (fuel : nat) (w w1 w2 : World Os) (err : Exn) :
  openBody Os dirname mkdirSync newDatabase runSql migrate FTS_SETUP_SQL w
    = (Throw err, w1) ->
  _isCorruptionError err = true ->
  existsSync (dbPath (fst w1)) (snd w1) = true ->
  (closeClientInWorld Os closeDatabase ;;;
   os Os (unlinkSync (dbPath (fst w1))) ;;;
   forEach ["-wal"; "-shm"]
     (fun ext =>
        unlinkIfPresent Os existsSync unlinkSync
          (dbPath (fst w1) ++ ext)%string)) w1 = (Ok tt, w2) ->
  open Os dirname mkdirSync existsSync unlinkSync newDatabase runSql migrate
    closeDatabase FTS_SETUP_SQL (S fuel) w =
  match open Os dirname mkdirSync existsSync unlinkSync newDatabase runSql
          migrate closeDatabase FTS_SETUP_SQL fuel w2 with
  | None => None
  | Some (Ok _, w3) => Some (Ok tt, w3)
  | Some (Throw retryErr, w3) =>
      Some (Throw (StoreErrorCausedBy
                     ("Failed to recover database at " ++ dbPath (fst w1))%string
                     retryErr), w3)
  end.
Proof.
  intros Hbody Hcorrupt Hexists Hclean.
  cbn [open]. rewrite Hbody, Hcorrupt, Hexists. cbn [andb].
  now rewrite Hclean.
Qed.

End OpenRecovery.

(** C7, the failing input.  The database file exists and the first two
    attempts fail with "database disk image is malformed": [open()]
    deletes the file twice, opens the database three times and returns
    normally, where one retry, failing, should have ended it. *)
Lemma open_retries_after_failed_retry :
  exists c,
    FaultyDisk.open 3 (FaultyDisk.start 2) =
      Some (Ok tt,
            (c, {| FaultyDisk.present := [FaultyDisk.path];
                   FaultyDisk.faults := 0;
                   FaultyDisk.opened := 3;
                   FaultyDisk.unlinked :=
                     [FaultyDisk.path; FaultyDisk.path] |})).
Proof. eexists. vm_compute. reflexivity. Qed.

Lemma faulty_isCorruption :
  _isCorruptionError FaultyDisk.malformed = true.
Proof. vm_compute. reflexivity. Qed.

Lemma faulty_open_step (fuel : nat) (w : DbConnection.t * FaultyDisk.t) :
  FaultyDisk.open (S fuel) w =
  match openBody FaultyDisk.t FaultyDisk.dirname FaultyDisk.mkdirSync
          FaultyDisk.newDatabase FaultyDisk.runSql FaultyDisk.migrate
          FaultyDisk.FTS_SETUP_SQL w with
  | (Ok _, w1) => Some (Ok tt, w1)
  | (Throw err, w1) =>
      let path := dbPath (fst w1) in
      if _isCorruptionError err && FaultyDisk.existsSync path (snd w1) then
        match (closeClientInWorld FaultyDisk.t FaultyDisk.closeDatabase ;;;
               os FaultyDisk.t (FaultyDisk.unlinkSync path) ;;;
               forEach ["-wal"; "-shm"]
                 (fun ext =>
                    unlinkIfPresent FaultyDisk.t FaultyDisk.existsSync
                      FaultyDisk.unlinkSync (path ++ ext)%string)) w1 with
        | (Throw e, w2) => Some (Throw e, w2)
        | (Ok _, w2) =>
            match FaultyDisk.open fuel w2 with
            | None => None
            | Some (Ok _, w3) => Some (Ok tt, w3)
            | Some (Throw retryErr, w3) =>
                Some (Throw (StoreErrorCausedBy
                               ("Failed to recover database at " ++ path)%string
                               retryErr), w3)
            end
        end
      else if isStoreError err then Some (Throw err, w1)
      else Some (Throw (StoreErrorCausedBy
                          ("Failed to open database at " ++ path)%string err),
                 w1)
  end.
Proof. reflexivity. Qed.

(** On that disk [open()] retries as often as the image reads as
    malformed: [n] failures cost [n] deletions and [n + 1] opens. *)
Lemma open_retries_every_failure (n : nat) :
  forall (c : t) (ps : list string) (k : nat) (u : list string),
    dbPath c = FaultyDisk.path ->
    ps = [] \/ ps = [FaultyDisk.path] ->
    exists c',
      FaultyDisk.open (S n)
        (c, {| FaultyDisk.present := ps;
               FaultyDisk.faults := n;
               FaultyDisk.opened := k;
               FaultyDisk.unlinked := u |}) =
      Some (Ok tt,
            (c', {| FaultyDisk.present := [FaultyDisk.path];
                    FaultyDisk.faults := 0;
                    FaultyDisk.opened := k + S n;
                    FaultyDisk.unlinked := u ++ repeat FaultyDisk.path n |})).
Proof.
  induction n as [|n IH]; intros c ps k u Hp Hps;
    destruct c as [p cl dr td]; simpl in Hp; subst p.
  - eexists. destruct Hps as [-> | ->]; cbn;
      rewrite app_nil_r, Nat.add_1_r; reflexivity.
  - destruct (IH (_closeClient
                    (setDrizzle
                       (setClient
                          {| dbPath := FaultyDisk.path; client := cl;
                             _drizzle := dr; txDepth := td |}
                          (Some {| Sqlite.rows := emptyDatabase;
                                   Sqlite.frames := [] |}))
                       true))
                [] (S k) (u ++ [FaultyDisk.path]) eq_refl (or_introl eq_refl))
      as (c' & Hrec).
    exists c'.
    replace (k + S (S n)) with (S k + S n) by lia.
    replace (u ++ repeat FaultyDisk.path (S n))
      with ((u ++ [FaultyDisk.path]) ++ repeat FaultyDisk.path n)
      by (rewrite <- app_assoc; reflexivity).
    rewrite faulty_open_step.
    destruct Hps as [-> | ->];
      (cbn -[FaultyDisk.open _isCorruptionError String.eqb];
       rewrite faulty_isCorruption, String.eqb_refl;
       cbn -[FaultyDisk.open String.eqb];
       rewrite ?String.eqb_refl;
       cbn -[FaultyDisk.open String.eqb];
       rewrite Hrec; reflexivity).
Qed.

(** ** Balanced functions *)

Lemma balanced_ret {T : Type} (v : T) : Balanced (ret v).
Proof. intros c h Hc. exists h. auto. Qed.




(** ** The transaction tests of test/store.test.ts *)



(** "should support nested transactions via savepoints". *)
Example transaction_nested :
  transaction (transaction (ret "nested")) StoreTest.opened
  = (Ok "nested", StoreTest.opened).
Proof. vm_compute. reflexivity. Qed.

(** "should commit transaction fn return value", here with a write
    that must stay. *)
Example transaction_commits :
  fst (transaction StoreTest.upsertThenReturn StoreTest.opened) = Ok 42%Z /\
  FileRepository.getFile "test-project" "src/index.ts"
    (currentRows (snd (transaction StoreTest.upsertThenReturn StoreTest.opened)))
  = Some (Fixtures.makeFileRecord "src/index.ts") /\
  clientInTransaction
    (snd (transaction StoreTest.upsertThenReturn StoreTest.opened)) = false.
Proof. vm_compute. repeat split. Qed.

(** On a closed connection [transaction] throws before [fn] runs. *)
Example transaction_not_open :
  transaction (ret tt) (close StoreTest.opened)
  = (Throw notOpen, close StoreTest.opened).
Proof. reflexivity. Qed.

End DbConnectionFacts.

(* ================================================================== *)
(** * Transactions and queries, closing and opening                    *)
(* ================================================================== *)

Section ConnectionUseFacts.

Import Sqlite DbConnection.

Lemma drizzleDb_enter {A : Type} (query : M Database A) (c : t) (h : Handle)
  (frame : Frame) :
  _drizzle c = true ->
  drizzleDb query (enter c h frame) =
    (fst (query (rows h)),
     setClient (enter c h frame)
       (Some {| rows := snd (query (rows h));
                frames := frame :: frames h |})).
Proof.
  intros Hd. unfold drizzleDb, enter. cbn. rewrite Hd.
  destruct (query (rows h)); reflexivity.
Qed.

(** A query inside [transaction] takes effect entirely or not at all.
    On an open connection, at any nesting depth, [transaction] around a
    query (one repository call or several in a row) returns or throws
    what the query does; if the query returns, the connection holds the
    rows the query left, and if it throws, the rows it had at entry,
    whatever the query had written before it threw.  Issued without
    [transaction], the same query leaves its writes behind also when it
    throws. *)
Theorem transaction_is_all_or_nothing {A : Type} (query : M Database A)
  (c : t) (h : Handle) :
  client c = Some h -> _drizzle c = true ->
  let out := transaction (drizzleDb query) c in
  fst out = fst (query (rows h)) /\
  currentRows (snd out) =
    match fst (query (rows h)) with
    | Ok _ => snd (query (rows h))
    | Throw _ => rows h
    end /\
  client (snd out) <> None /\
  txDepth (snd out) = txDepth c /\
  currentRows (snd (drizzleDb query c)) = snd (query (rows h)).
Proof.
  intros Hc Hd. cbv zeta.
  assert (Hbare : currentRows (snd (drizzleDb query c))
                  = snd (query (rows h))).
  { unfold drizzleDb. rewrite Hd, Hc. destruct (query (rows h)). reflexivity. }
  assert (Hcase : frames h = [] \/ exists f0 outer, frames h = f0 :: outer)
    by (destruct (frames h) as [|f0 outer]; [now left|right; eauto]).
  assert (Hrun : exists c3 fs,
            transaction (drizzleDb query) c =
              (fst (query (rows h)),
               depthDown
                 (setClient c3
                    (Some {| rows := match fst (query (rows h)) with
                                     | Ok _ => snd (query (rows h))
                                     | Throw _ => rows h
                                     end;
                             frames := fs |}))) /\
            txDepth c3 = (txDepth c + 1)%Z).
  { destruct (Z.eq_dec (txDepth c) 0) as [Hz|Hnz].
    - destruct Hcase as [Hf|(f0 & outer & Hf)].
      + eexists. exists [].
        split; [|shelve].
        apply (transaction_outermost (drizzleDb query) c _ h
                 {| rows := snd (query (rows h));
                    frames := beginFrame h :: frames h |}
                 (fst (query (rows h))) Hc Hz Hf
                 (drizzleDb_enter query c h (beginFrame h) Hd) eq_refl).
        cbn. now rewrite Hf.
      + eexists. exists (frames h).
        split; [|shelve].
        apply (transaction_outermost_nested (drizzleDb query) c _ h
                 {| rows := snd (query (rows h));
                    frames := savepointFrame nestedName h :: frames h |}
                 (fst (query (rows h))) f0 outer Hc Hz Hf
                 (drizzleDb_enter query c h _ Hd) eq_refl eq_refl).
    - eexists. exists (frames h).
      split; [|shelve].
      apply (transaction_inner (drizzleDb query) c _ h
               {| rows := snd (query (rows h));
                  frames := savepointFrame
                              ("sp_" ++ showNumber (txDepth c))%string h
                            :: frames h |}
               (fst (query (rows h))) Hc Hnz
               (drizzleDb_enter query c h _ Hd) eq_refl eq_refl).
      Unshelve. all: reflexivity. }
  destruct Hrun as (c3 & fs & E & Hdepth). rewrite E. cbn.
  repeat split; [discriminate|lia|exact Hbare].
Qed.
(** A failed inner transaction undoes its own writes only.  On an open
    connection outside any transaction, when [fn] writes [w1], then
    calls [transaction] on a function that writes [w2] and throws, and
    catches what it throws, the outer transaction commits: the rows are
    those of [w1] alone, no frame is left open, the depth is back to
    zero, and the caught error is the one thrown inside. *)
Theorem inner_rollback_keeps_outer_writes (w1 w2 : Database -> Database)
  (e : Exn) (c : t) (h : Handle) :
  client c = Some h -> _drizzle c = true ->
  frames h = [] -> txDepth c = 0%Z ->
  let inner := drizzleDb (modify w2) ;;; throw (A:=unit) e in
  let outer := drizzleDb (modify w1) ;;; attempt (transaction inner) in
  transaction outer c =
    (Ok (Throw e),
     setClient c (Some {| rows := w1 (rows h); frames := [] |})).
Proof.
  intros Hc Hd Hf Hz. cbv zeta.
  destruct c as [path cl dr depth]. destruct h as [rws fs].
  cbn in Hc, Hd, Hf, Hz. subst cl dr fs depth.
  vm_compute. reflexivity.
Qed.

(** After [close()] the connection refuses work.  Whatever state the
    connection was in, after [close()] a query through [drizzleDb] and a
    [transaction] both throw the [StoreError] "Database is not open"
    without running anything, and closing again changes nothing. *)
Theorem closed_connection_refuses {A T : Type} (query : M Database A)
  (fn : M t T) (c : t) :
  drizzleDb query (close c) = (Throw notOpen, close c) /\
  transaction fn (close c) = (Throw notOpen, close c) /\
  close (close c) = close c /\
  isStoreError notOpen = true.
Proof. repeat split. Qed.

Lemma transaction_is_all_or_nothing_witness :
  fst (transaction (drizzleDb StoreTest.replaceWithOrphan)
         StoreTest.withTwoFiles)
  = Throw RelationRepository.foreignKeyError /\
  currentRows (snd (transaction (drizzleDb StoreTest.replaceWithOrphan)
                      StoreTest.withTwoFiles))
  = Fixtures.twoFiles /\
  relations (currentRows (snd (drizzleDb StoreTest.replaceWithOrphan
                                 StoreTest.withTwoFiles))) = [].
Proof.
  destruct (transaction_is_all_or_nothing StoreTest.replaceWithOrphan
              StoreTest.withTwoFiles
              {| rows := Fixtures.twoFiles; frames := [] |} eq_refl eq_refl)
    as (Hres & Hrows & _ & _ & Hbare).
  split; [exact Hres|]. split; [exact Hrows|].
  rewrite Hbare. reflexivity.
Defined.

Lemma inner_rollback_keeps_outer_writes_witness :
  let a := Fixtures.makeFileRecord "src/a.ts" in
  let b := Fixtures.makeFileRecord "src/b.ts" in
  let out :=
    transaction
      (drizzleDb (modify (FileRepository.upsertFile a)) ;;;
       attempt (transaction
                  (drizzleDb (modify (FileRepository.upsertFile b)) ;;;
                   throw (A:=unit) (Error "Error" "rollback!"))))
      StoreTest.opened in
  fst out = Ok (Throw (Error "Error" "rollback!")) /\
  FileRepository.getAllFiles "test-project" (currentRows (snd out)) = [a].
Proof.
  cbv zeta.
  rewrite (inner_rollback_keeps_outer_writes
             (FileRepository.upsertFile (Fixtures.makeFileRecord "src/a.ts"))
             (FileRepository.upsertFile (Fixtures.makeFileRecord "src/b.ts"))
             (Error "Error" "rollback!") StoreTest.opened
             {| rows := emptyDatabase; frames := [] |}
             eq_refl eq_refl eq_refl eq_refl).
  split; reflexivity.
Defined.

End ConnectionUseFacts.

Section OpenFacts.

Import Sqlite DbConnection.

Variable Os : Type.
Variable dirname : string -> string.
Variable mkdirSync : string -> M Os unit.
Variable existsSync : string -> Os -> bool.
Variable unlinkSync : string -> M Os unit.
Variable newDatabase : string -> M Os Handle.
Variable runSql : string -> M Os unit.
Variable migrate : M Os unit.
Variable closeDatabase : Os -> Os.
Variable FTS_SETUP_SQL : list string.

Let openBody' : M (World Os) unit :=
  openBody Os dirname mkdirSync newDatabase runSql migrate FTS_SETUP_SQL.
Let open' : nat -> World Os -> option (Res unit * World Os) :=
  open Os dirname mkdirSync existsSync unlinkSync newDatabase runSql migrate
    closeDatabase FTS_SETUP_SQL.

Lemma bind_ok {S A B : Type} (m : M S A) (k : A -> M S B) (s s' : S) (b : B) :
  bind m k s = (Ok b, s') ->
  exists a s1, m s = (Ok a, s1) /\ k a s1 = (Ok b, s').
Proof.
  unfold bind. destruct (m s) as [[a|e] s1]; [eauto|discriminate].
Qed.

Lemma os_connection {A : Type} (m : M Os A) (w : World Os) :
  fst (snd (os Os m w)) = fst w.
Proof. unfold os. destruct (m (snd w)). reflexivity. Qed.

Lemma forEach_os_connection (l : list string) (w w' : World Os) (r : Res unit) :
  forEach l (fun sql => os Os (runSql sql)) w = (r, w') -> fst w' = fst w.
Proof.
  revert w. induction l as [|x xs IH]; intros w E.
  - inversion E. reflexivity.
  - cbn [forEach] in E. unfold bind in E.
    pose proof (os_connection (runSql x) w) as Hx.
    destruct (os Os (runSql x) w) as [[[]|e] w1]; cbn [snd] in Hx.
    + rewrite (IH _ E). exact Hx.
    + inversion E; subst. exact Hx.
Qed.

(** The [try] block, when it completes, has set the client and the
    drizzle wrapper. *)
Lemma openBody_ok (w w' : World Os) :
  openBody' w = (Ok tt, w') ->
  client (fst w') <> None /\ _drizzle (fst w') = true /\
  dbPath (fst w') = dbPath (fst w).
Proof.
  unfold openBody', openBody. intros E.
  apply bind_ok in E. destruct E as (w0 & s0 & E0 & E). inversion E0; subst.
  apply bind_ok in E. destruct E as ([] & s1 & E1 & E).
  apply bind_ok in E. destruct E as (hd & s2 & E2 & E).
  apply bind_ok in E. destruct E as ([] & s3 & E3 & E).
  apply bind_ok in E. destruct E as ([] & s4 & E4 & E).
  apply bind_ok in E. destruct E as ([] & s5 & E5 & E).
  apply bind_ok in E. destruct E as ([] & s6 & E6 & E).
  apply bind_ok in E. destruct E as ([] & s7 & E7 & E).
  apply bind_ok in E. destruct E as ([] & s8 & E8 & E).
  apply forEach_os_connection in E.
  pose proof (os_connection (mkdirSync (dirname (dbPath (fst s0)))) s0) as H1.
  pose proof (os_connection (newDatabase (dbPath (fst s0))) s1) as H2.
  pose proof (os_connection (runSql "PRAGMA journal_mode = WAL") s3) as H4.
  pose proof (os_connection (runSql "PRAGMA foreign_keys = ON") s4) as H5.
  pose proof (os_connection (runSql "PRAGMA busy_timeout = 5000") s5) as H6.
  pose proof (os_connection migrate s7) as H8.
  rewrite E1 in H1. rewrite E2 in H2. rewrite E4 in H4. rewrite E5 in H5.
  rewrite E6 in H6. rewrite E8 in H8. cbn [snd] in *.
  unfold conn, modify in E3, E7. inversion E3; subst. inversion E7; subst.
  cbn [fst] in *. rewrite E, H8. cbn. rewrite H6, H5, H4. cbn.
  repeat split; [discriminate|congruence].
Qed.

(** A successful [open()] leaves a usable connection.  Whenever
    [open()] returns normally, after however many recoveries, the
    connection has its client and its drizzle wrapper, so that
    [drizzleDb] and [transaction] do not refuse with "Database is not
    open". *)
Theorem open_success_is_usable (fuel : nat) (w w' : World Os) :
  open' fuel w = Some (Ok tt, w') ->
  client (fst w') <> None /\ _drizzle (fst w') = true.
Proof.
  unfold open'. revert w. induction fuel as [|fuel IH]; intros w E;
    [discriminate|].
  cbn [open] in E. fold openBody' in E.
  destruct (openBody' w) as [[[]|err] w1] eqn:Hbody.
  - inversion E; subst. destruct (openBody_ok w w' Hbody) as (H1 & H2 & _).
    now split.
  - destruct (_isCorruptionError err && existsSync (dbPath (fst w1)) (snd w1)).
    + destruct ((closeClientInWorld Os closeDatabase ;;;
                 os Os (unlinkSync (dbPath (fst w1))) ;;;
                 forEach ["-wal"; "-shm"]
                   (fun ext =>
                      unlinkIfPresent Os existsSync unlinkSync
                        (dbPath (fst w1) ++ ext)%string)) w1)
        as [[[]|e] w2]; [|discriminate].
      fold open' in E, IH.
      destruct (open' fuel w2) as [[[[]|e] w3]|] eqn:Hrec; try discriminate.
      inversion E; subst. exact (IH _ Hrec).
    + destruct (isStoreError err); discriminate.
Qed.

(** What [open()] throws is a [StoreError], unless the deletion of the
    corrupt files is what failed.  When [unlinkSync] does not throw,
    every error that leaves [open()] is a [StoreError]: the error of
    the [try] block if it is one already, and otherwise a new one with
    the failure as its cause. *)
Theorem open_throws_store_errors (fuel : nat) (w w' : World Os) (e : Exn) :
  (forall p o, exists o', unlinkSync p o = (Ok tt, o')) ->
  open' fuel w = Some (Throw e, w') ->
  isStoreError e = true.
Proof.
  intros Hunlink. unfold open'. revert w e w'.
  induction fuel as [|fuel IH]; intros w e w' E; [discriminate|].
  cbn [open] in E. fold openBody' in E.
  destruct (openBody' w) as [[[]|err] w1] eqn:Hbody; [discriminate|].
  destruct (_isCorruptionError err && existsSync (dbPath (fst w1)) (snd w1)).
  - assert (Hclean : exists w2,
              (closeClientInWorld Os closeDatabase ;;;
               os Os (unlinkSync (dbPath (fst w1))) ;;;
               forEach ["-wal"; "-shm"]
                 (fun ext =>
                    unlinkIfPresent Os existsSync unlinkSync
                      (dbPath (fst w1) ++ ext)%string)) w1 = (Ok tt, w2)).
    { assert (Hos : forall p x, exists x', os Os (unlinkSync p) x = (Ok tt, x')).
      { intros p x. unfold os. destruct (Hunlink p (snd x)) as (o' & ->).
        eauto. }
      assert (Hif : forall p x, exists x',
                unlinkIfPresent Os existsSync unlinkSync p x = (Ok tt, x')).
      { intros p x. unfold unlinkIfPresent, bind, get.
        destruct (existsSync p (snd x)); [apply Hos|eexists; reflexivity]. }
      assert (Hbind : forall m k : M (World Os) unit,
                (forall x, exists x', m x = (Ok tt, x')) ->
                (forall x, exists x', k x = (Ok tt, x')) ->
                forall x, exists x', (m ;;; k) x = (Ok tt, x')).
      { intros m k Hm Hk x. unfold bind. destruct (Hm x) as (x1 & ->).
        apply Hk. }
      apply Hbind; [intros x; eexists; reflexivity|].
      apply Hbind; [apply Hos|]. cbn [forEach].
      apply Hbind; [apply Hif|].
      apply Hbind; [apply Hif|]. intros x. eexists. reflexivity. }
    destruct Hclean as (w2 & Hclean). rewrite Hclean in E.
    fold open' in E.
    destruct (open' fuel w2) as [[[[]|e2] w3]|] eqn:Hrec; try discriminate.
    inversion E; subst. reflexivity.
  - destruct (isStoreError err) eqn:Hs; inversion E; subst;
      [exact Hs|reflexivity].
Qed.

End OpenFacts.

Section OpenWitnesses.

Import Sqlite DbConnection.

Lemma open_success_is_usable_witness :
  match FaultyDisk.open 3 (FaultyDisk.start 2) with
  | Some (Ok _, w') => client (fst w') <> None /\ _drizzle (fst w') = true
  | _ => False
  end.
Proof.
  destruct (FaultyDisk.open 3 (FaultyDisk.start 2)) as [[[[]|e] w']|] eqn:E.
  - exact (open_success_is_usable FaultyDisk.t FaultyDisk.dirname
             FaultyDisk.mkdirSync FaultyDisk.existsSync FaultyDisk.unlinkSync
             FaultyDisk.newDatabase FaultyDisk.runSql FaultyDisk.migrate
             FaultyDisk.closeDatabase FaultyDisk.FTS_SETUP_SQL
             3 (FaultyDisk.start 2) w' E).
  - vm_compute in E. discriminate.
  - vm_compute in E. discriminate.
Defined.

Lemma open_throws_store_errors_witness :
  match StoreTest.deniedOpen 1 with
  | Some (Throw e, _) =>
      isStoreError e = true /\
      e = StoreErrorCausedBy
            "Failed to open database at /project/.zipbul/code-ledger.db"
            (Error "Error" "EACCES: permission denied, mkdir")
  | _ => False
  end.
Proof.
  destruct (StoreTest.deniedOpen 1) as [[[[]|e] w']|] eqn:E.
  - vm_compute in E. discriminate.
  - split.
    + refine (open_throws_store_errors unit _ _ _ _ _ _ _ _ _ 1 _ w' e _ E).
      intros p o. exists o. reflexivity.
    + vm_compute in E. now inversion E.
  - vm_compute in E. discriminate.
Defined.

End OpenWitnesses.

(* ================================================================== *)
(** * Properties of symbol search                                      *)
(* ================================================================== *)

Section SymbolSearchFacts.

Import SymbolSearch.

(** A detail that is null or the empty string is never parsed. *)
Lemma detailOf_absent (d : option string) :
  d = None \/ d = Some EmptyString -> detailOf d = Ok (Json.JObject []).
Proof. intros [-> | ->]; reflexivity. Qed.

Lemma detailOf_invalid (s : string) :
  s <> EmptyString -> Json.JSON_parse s = None ->
  detailOf (Some s) = Throw syntaxError.
Proof.
  intros Hs Hp. destruct s as [|c rest]; [congruence|].
  unfold detailOf. now rewrite Hp.
Qed.

Lemma detailOf_valid (s : string) (v : Json.value) :
  s <> EmptyString -> Json.JSON_parse s = Some v -> detailOf (Some s) = Ok v.
Proof.
  intros Hs Hp. destruct s as [|c rest]; [congruence|].
  unfold detailOf. now rewrite Hp.
Qed.

(** The only error reshaping a row can raise is the parser's. *)
Lemma toResult_throws (r : SymbolRecord.t) (e : Exn) :
  toResult r = Throw e ->
  e = syntaxError /\
  exists s, SymbolRecord.detailJson r = Some s /\ s <> EmptyString /\
            Json.JSON_parse s = None.
Proof.
  unfold toResult, detailOf.
  destruct (SymbolRecord.detailJson r) as [[|c rest]|]; try discriminate.
  destruct (Json.JSON_parse (String c rest)) eqn:Hp; try discriminate.
  intros H. inversion H. split; [reflexivity|].
  exists (String c rest). repeat split; [discriminate|exact Hp].
Qed.

Lemma toResult_detail (r : SymbolRecord.t) (res : SymbolSearchResult.t) :
  toResult r = Ok res ->
  detailOf (SymbolRecord.detailJson r) = Ok (SymbolSearchResult.detail res) /\
  SymbolSearchResult.id res = SymbolRecord.id r.
Proof.
  unfold toResult. destruct (detailOf (SymbolRecord.detailJson r));
    [|discriminate].
  intros H. inversion H. split; reflexivity.
Qed.

Lemma Forall2_in_left {A B : Type} (P : A -> B -> Prop) (l : list A)
  (l' : list B) (x : A) :
  Forall2 P l l' -> In x l -> exists y, In y l' /\ P x y.
Proof.
  induction 1 as [|a b l l' Hab Hrest IH]; intros Hin; [destruct Hin|].
  destruct Hin as [-> | Hin].
  - exists b. split; [now left|exact Hab].
  - destruct (IH Hin) as (y & Hy & Hp). exists y. split; [now right|exact Hp].
Qed.

Lemma mapThrowing_toResult (records : list SymbolRecord.t) :
  (exists results,
     mapThrowing toResult records = Ok results /\
     Forall2 (fun r res => toResult r = Ok res) records results) \/
  (mapThrowing toResult records = Throw syntaxError /\
   Exists (fun r => toResult r = Throw syntaxError) records).
Proof.
  induction records as [|r rest IH].
  - left. exists []. split; [reflexivity|constructor].
  - simpl. destruct (toResult r) as [res|e] eqn:Hr.
    + destruct IH as [(results & Hm & Hall) | (Hm & Hex)].
      * left. rewrite Hm. exists (res :: results). split; [reflexivity|].
        now constructor.
      * right. rewrite Hm. split; [reflexivity|]. now apply Exists_cons_tl.
    + destruct (toResult_throws r e Hr) as [-> _].
      right. split; [reflexivity|]. now apply Exists_cons_hd.
Qed.

(** C8, as amended.  A row whose [detailJson] is null or empty gets the
    empty object as [detail] and one whose [detailJson] parses gets the
    parsed value, provided every row of the result is of one of these
    kinds; as soon as one row holds a non-empty [detailJson] that is not
    valid JSON, the [SyntaxError] of [JSON.parse] leaves [symbolSearch]
    and no result is returned. *)
Theorem symbolSearch_detail
  (searchByQuery : SearchOpts.t -> Res (list SymbolRecord.t))
  (project : option string) (query : SymbolSearchQuery.t)
  (records : list SymbolRecord.t) :
  searchByQuery (searchOpts project query) = Ok records ->
  (Exists (fun r => exists s,
             SymbolRecord.detailJson r = Some s /\ s <> EmptyString /\
             Json.JSON_parse s = None) records ->
   symbolSearch searchByQuery project query = Throw syntaxError) /\
  (Forall (fun r => forall s,
             SymbolRecord.detailJson r = Some s -> s <> EmptyString ->
             Json.JSON_parse s <> None) records ->
   exists results,
     symbolSearch searchByQuery project query = Ok results /\
     Forall2
       (fun r res =>
          SymbolSearchResult.id res = SymbolRecord.id r /\
          (SymbolRecord.detailJson r = None \/
           SymbolRecord.detailJson r = Some EmptyString ->
           SymbolSearchResult.detail res = Json.JObject []) /\
          (forall s v,
             SymbolRecord.detailJson r = Some s -> s <> EmptyString ->
             Json.JSON_parse s = Some v ->
             SymbolSearchResult.detail res = v))
       records results).
Proof.
  intros Hrepo. unfold symbolSearch. rewrite Hrepo.
  destruct (mapThrowing_toResult records)
    as [(results & Hm & Hall) | (Hm & Hex)]; split.
  - intros Hbad. exfalso.
    apply Exists_exists in Hbad. destruct Hbad as (r & Hin & s & Hd & Hs & Hp).
    destruct (Forall2_in_left _ _ _ _ Hall Hin) as (res & _ & Hres).
    unfold toResult in Hres. rewrite Hd, (detailOf_invalid s Hs Hp) in Hres.
    discriminate.
  - intros _. exists results. split; [exact Hm|].
    eapply Forall2_impl; [|exact Hall].
    intros r res Hres. cbv beta in Hres.
    destruct (toResult_detail r res Hres) as [Hd Hid].
    split; [exact Hid|]. split.
    + intros Habs. rewrite (detailOf_absent _ Habs) in Hd. now inversion Hd.
    + intros s v Hs Hne Hp. rewrite Hs, (detailOf_valid s v Hne Hp) in Hd.
      now inversion Hd.
  - intros _. exact Hm.
  - intros Hgood. exfalso.
    apply Exists_exists in Hex. destruct Hex as (r & Hin & Hr).
    destruct (toResult_throws r _ Hr) as (_ & s & Hd & Hs & Hp).
    rewrite Forall_forall in Hgood. exact (Hgood r Hin s Hd Hs Hp).
Qed.

(** C8, the claim as stated is false: for a row whose [detailJson] is
    the text [{], which is not valid JSON, the search does not return a
    row with an empty [detail]; it throws. *)
Lemma symbolSearch_invalid_detail_throws :
  let row :=
    Fixtures.makeSymbolRecord "src/index.ts" "myFn" (Some "fp001") (Some "{") in
  Json.JSON_parse "{" = None /\
  symbolSearch (fun _ => Ok [row]) None Fixtures.emptyQuery
    = Throw syntaxError /\
  forall results,
    symbolSearch (fun _ => Ok [row]) None Fixtures.emptyQuery <> Ok results.
Proof.
  cbv zeta. split; [vm_compute; reflexivity|].
  split; [vm_compute; reflexivity|].
  intros results. vm_compute. discriminate.
Qed.

(** The claim's second half stands: a null [detailJson] gives the empty
    object. *)
Example symbolSearch_null_detail :
  let row :=
    Fixtures.makeSymbolRecord "src/index.ts" "myFn" (Some "fp001") None in
  option_map (map SymbolSearchResult.detail)
    (match symbolSearch (fun _ => Ok [row]) None Fixtures.emptyQuery with
     | Ok results => Some results
     | Throw _ => None
     end) = Some [Json.JObject []].
Proof. vm_compute. reflexivity. Qed.

(** The example of the specification: [User Svc] becomes [User* Svc*]. *)
Example ftsQueryOf_prefixes : ftsQueryOf "User Svc" = "User* Svc*".
Proof. vm_compute. reflexivity. Qed.

(** Two rows, one without detail and one whose detail is the JSON text
    [[1]]: the search returns both. *)
Lemma symbolSearch_detail_witness :
  let rows :=
    [Fixtures.makeSymbolRecord "src/index.ts" "myFn" (Some "fp001") None;
     Fixtures.makeSymbolRecord "src/index.ts" "other" None (Some "[1]")] in
  exists results,
    symbolSearch (fun _ => Ok rows) None Fixtures.emptyQuery = Ok results /\
    map SymbolSearchResult.detail results
    = [Json.JObject []; Json.JArray [Json.JNumber "1"]].
Proof.
  cbv zeta.
  destruct (symbolSearch_detail
              (fun _ => Ok
                 [Fixtures.makeSymbolRecord "src/index.ts" "myFn"
                    (Some "fp001") None;
                  Fixtures.makeSymbolRecord "src/index.ts" "other"
                    None (Some "[1]")])
              None Fixtures.emptyQuery _ eq_refl) as [_ Hgood].
  destruct Hgood as (results & Hrun & _).
  - repeat constructor; intros s Hs _; cbn in Hs; try discriminate.
    injection Hs as <-. vm_compute. discriminate.
  - exists results. split; [exact Hrun|].
    vm_compute in Hrun. injection Hrun as <-. reflexivity.
Defined.

End SymbolSearchFacts.

(* ================================================================== *)
(** * The full-text query of a search text                             *)
(* ================================================================== *)

Section FtsQueryFacts.

Import SymbolSearch SearchText.

Lemma append_assoc_s (a b c : string) :
  ((a ++ b) ++ c)%string = (a ++ (b ++ c))%string.
Proof. induction a as [|x a IH]; simpl; [reflexivity|now rewrite IH]. Qed.

Lemma append_empty_r (a : string) : (a ++ EmptyString)%string = a.
Proof. induction a as [|x a IH]; simpl; [reflexivity|now rewrite IH]. Qed.

Lemma trimStart_blank (ws s : string) :
  blank ws = true -> trimStart (ws ++ s) = trimStart s.
Proof.
  induction ws as [|c ws IH]; simpl; [reflexivity|].
  intros H. apply andb_true_iff in H. destruct H as [Hc Hws].
  rewrite Hc. now apply IH.
Qed.

Lemma isWordChar_not_space (c : ascii) :
  isWordChar c = true -> isSpace c = false.
Proof.
  unfold isWordChar. intros H. apply andb_true_iff in H.
  destruct H as [_ H]. now apply negb_true_iff in H.
Qed.

Lemma word_chars (t : string) :
  allOf isWordChar t = true -> allOf (fun c => negb (isSpace c)) t = true.
Proof.
  induction t as [|c t IH]; simpl; [reflexivity|].
  intros H. apply andb_true_iff in H. destruct H as [Hc Ht].
  now rewrite (isWordChar_not_space c Hc), (IH Ht).
Qed.

Lemma trimStart_word (t s : string) :
  word t = true -> trimStart (t ++ s) = (t ++ s)%string.
Proof.
  destruct t as [|c t]; [discriminate|]. simpl. intros H.
  apply andb_true_iff in H. destruct H as [Hc _].
  now rewrite (isWordChar_not_space c Hc).
Qed.

Lemma trimEnd_blank (ws : string) : blank ws = true -> trimEnd ws = EmptyString.
Proof.
  induction ws as [|c ws IH]; simpl; [reflexivity|].
  intros H. apply andb_true_iff in H. destruct H as [Hc Hws].
  rewrite (IH Hws). now rewrite Hc.
Qed.

Lemma trimEnd_app (a b : string) :
  trimEnd b <> EmptyString -> trimEnd (a ++ b) = (a ++ trimEnd b)%string.
Proof.
  intros Hb. induction a as [|x a IH]; simpl; [reflexivity|].
  rewrite IH. destruct (a ++ trimEnd b)%string eqn:E; [|reflexivity].
  destruct a; simpl in E; [contradiction|discriminate].
Qed.

Lemma trimEnd_word (t trail : string) :
  word t = true -> blank trail = true -> trimEnd (t ++ trail) = t.
Proof.
  intros Ht Htrail. destruct t as [|c t]; [discriminate|].
  simpl in Ht. apply andb_true_iff in Ht. destruct Ht as [Hc Ht].
  apply isWordChar_not_space in Hc.
  revert c Hc. induction t as [|d t IH]; intros c Hc.
  - simpl. rewrite (trimEnd_blank trail Htrail). now rewrite Hc.
  - simpl in Ht. apply andb_true_iff in Ht. destruct Ht as [Hd Ht].
    apply isWordChar_not_space in Hd.
    change (String c (String d t) ++ trail)%string
      with (String c EmptyString ++ (String d t ++ trail))%string.
    rewrite trimEnd_app; rewrite (IH Ht d Hd); [reflexivity|discriminate].
Qed.

Lemma spaced_not_empty (first : string) (rest : list (string * string)) :
  word first = true -> spaced first rest <> EmptyString.
Proof.
  destruct first as [|c t]; [discriminate|].
  intros _. destruct rest as [|[ws t'] rest]; simpl; discriminate.
Qed.

Lemma trimEnd_spaced (first : string) (rest : list (string * string))
  (trail : string) :
  word first = true ->
  Forall (fun g => gap (fst g) = true /\ word (snd g) = true) rest ->
  blank trail = true ->
  trimEnd (spaced first rest ++ trail) = spaced first rest.
Proof.
  intros Hfirst Hrest Htrail. revert first Hfirst.
  induction Hrest as [|[ws t] rest [Hws Ht] Hrest IH]; intros first Hfirst.
  - simpl. now apply trimEnd_word.
  - cbn [spaced fst snd] in *.
    rewrite !append_assoc_s.
    change (first ++ ws ++ spaced t rest ++ trail)%string
      with (first ++ (ws ++ (spaced t rest ++ trail)))%string.
    rewrite <- (append_assoc_s first ws).
    rewrite trimEnd_app; rewrite (IH t Ht).
    + now rewrite append_assoc_s.
    + now apply spaced_not_empty.
Qed.

Lemma split_word (t : string) :
  allOf (fun c => negb (isSpace c)) t = true ->
  forall cur s,
    splitSpaces false cur (t ++ s) = splitSpaces false (cur ++ t) s.
Proof.
  induction t as [|c t IH]; intros Ht cur s.
  - now rewrite append_empty_r.
  - simpl in Ht. apply andb_true_iff in Ht. destruct Ht as [Hc Ht].
    apply negb_true_iff in Hc. simpl. rewrite Hc.
    rewrite (IH Ht). f_equal. rewrite append_assoc_s. reflexivity.
Qed.

Lemma split_word_start (t : string) (inRun : bool) (cur s : string) :
  word t = true ->
  splitSpaces inRun cur (t ++ s) = splitSpaces false (cur ++ t) s.
Proof.
  destruct t as [|c t]; [discriminate|]. simpl. intros Ht.
  apply andb_true_iff in Ht. destruct Ht as [Hc Ht].
  rewrite (isWordChar_not_space c Hc).
  rewrite (split_word t (word_chars t Ht)). f_equal.
  rewrite append_assoc_s. reflexivity.
Qed.

Lemma split_run (ws : string) (cur s : string) :
  blank ws = true -> splitSpaces true cur (ws ++ s) = splitSpaces true cur s.
Proof.
  induction ws as [|c ws IH]; simpl; [reflexivity|].
  intros H. apply andb_true_iff in H. destruct H as [Hc Hws].
  rewrite Hc. now apply IH.
Qed.

Lemma split_gap (ws : string) (cur s : string) :
  gap ws = true ->
  splitSpaces false cur (ws ++ s) = cur :: splitSpaces true EmptyString s.
Proof.
  destruct ws as [|c ws]; [discriminate|]. simpl. intros H.
  apply andb_true_iff in H. destruct H as [Hc Hws].
  rewrite Hc. f_equal. now apply split_run.
Qed.

Lemma split_spaced (rest : list (string * string)) :
  Forall (fun g => gap (fst g) = true /\ word (snd g) = true) rest ->
  forall inRun cur first,
    word first = true ->
    splitSpaces inRun cur (spaced first rest)
    = (cur ++ first)%string :: map snd rest.
Proof.
  induction 1 as [|[ws t] rest [Hws Ht] Hrest IH]; intros inRun cur first Hf.
  - simpl. rewrite <- (append_empty_r first) at 1.
    now rewrite split_word_start.
  - cbn [spaced fst snd map] in *.
    rewrite (split_word_start first inRun cur _ Hf).
    rewrite (split_gap ws _ _ Hws). f_equal.
    now rewrite (IH true EmptyString t Ht).
Qed.

Lemma escapeFts_plain (s : string) :
  allOf (fun c => negb (isFtsMeta c)) s = true -> escapeFts s = s.
Proof.
  induction s as [|c s IH]; simpl; [reflexivity|].
  intros H. apply andb_true_iff in H. destruct H as [Hc Hs].
  apply negb_true_iff in Hc. rewrite Hc. now rewrite IH.
Qed.

(** The query of an ASCII text of words.  For a text of ASCII
    characters made of words separated by white space of any length,
    with any white space before and after, [ftsQueryOf] is the words in
    their order, each escaped and followed by [*], joined by single
    spaces; words that hold none of the six escaped characters appear
    as they are. *)
Theorem ftsQueryOf_words (lead trail first : string)
  (rest : list (string * string)) :
  blank lead = true -> blank trail = true ->
  word first = true ->
  Forall (fun g => gap (fst g) = true /\ word (snd g) = true) rest ->
  ftsQueryOf (lead ++ spaced first rest ++ trail) =
    join " " (map (fun t => (escapeFts t ++ "*")%string)
                (first :: map snd rest)) /\
  (Forall (fun t => allOf (fun c => negb (isFtsMeta c)) t = true)
     (first :: map snd rest) ->
   ftsQueryOf (lead ++ spaced first rest ++ trail) =
     join " " (map (fun t => (t ++ "*")%string) (first :: map snd rest))).
Proof.
  intros Hlead Htrail Hfirst Hrest.
  assert (Hq : ftsQueryOf (lead ++ spaced first rest ++ trail) =
               join " " (map (fun t => (escapeFts t ++ "*")%string)
                           (first :: map snd rest))).
  2: { split; [exact Hq|]. intros Hplain. rewrite Hq. f_equal.
       apply map_ext_in. intros t Ht. rewrite Forall_forall in Hplain.
       now rewrite (escapeFts_plain t (Hplain t Ht)). }
  unfold ftsQueryOf, trim.
  rewrite (trimStart_blank lead _ Hlead).
  assert (Hstart : trimStart (spaced first rest ++ trail)
                   = (spaced first rest ++ trail)%string).
  { destruct rest as [|[ws t] rest']; cbn [spaced].
    - now apply trimStart_word.
    - rewrite append_assoc_s. now apply trimStart_word. }
  rewrite Hstart, (trimEnd_spaced first rest trail Hfirst Hrest Htrail).
  unfold split. now rewrite (split_spaced rest Hrest false EmptyString first Hfirst).
Qed.

Lemma trimStart_all_blank (ws : string) :
  blank ws = true -> trimStart ws = EmptyString.
Proof.
  intros H. rewrite <- (append_empty_r ws). now rewrite trimStart_blank.
Qed.

(** The query of a blank text.  A text that is not empty and holds
    ASCII white space only (spaces, tabs, line breaks) is truthy, so
    [symbolSearch] builds a query from it: the single token [*],
    whatever the project and the other fields of the query. *)
Theorem blank_text_searches_star (text : string) (project : option string)
  (query : SymbolSearchQuery.t) :
  text <> EmptyString -> blank text = true ->
  SymbolSearchQuery.text query = Some text ->
  ftsQueryOf text = "*" /\
  SearchOpts.ftsQuery (searchOpts project query) = Some "*".
Proof.
  intros Hne Hblank Htext.
  assert (Hq : ftsQueryOf text = "*").
  { unfold ftsQueryOf, trim. now rewrite (trimStart_all_blank text Hblank). }
  split; [exact Hq|].
  unfold searchOpts. cbn [SearchOpts.ftsQuery]. rewrite Htext.
  destruct text as [|c rest]; [congruence|]. cbn [truthy option_map].
  now rewrite Hq.
Qed.

Lemma ftsQueryOf_words_witness :
  ftsQueryOf "  User   Svc " = "User* Svc*".
Proof.
  destruct (ftsQueryOf_words "  " " " "User" [("   ", "Svc")]
              eq_refl eq_refl eq_refl) as [_ Hplain].
  - repeat constructor.
  - apply Hplain. repeat constructor.
Defined.

Lemma blank_text_searches_star_witness :
  SearchOpts.ftsQuery
    (searchOpts None
       {| SymbolSearchQuery.text := Some "   ";
          SymbolSearchQuery.kind := None;
          SymbolSearchQuery.filePath := None;
          SymbolSearchQuery.isExported := None;
          SymbolSearchQuery.project := None;
          SymbolSearchQuery.limit := None |}) = Some "*".
Proof.
  apply (blank_text_searches_star "   " None); [discriminate| |]; reflexivity.
Defined.

End FtsQueryFacts.

(* ================================================================== *)
(** * Properties of the symbol indexer                                 *)
(* ================================================================== *)

Section SymbolIndexerFacts.

Import SymbolIndexer.

Context {Param ParsedFile W : Type}.
Variable extractSymbols : ParsedFile -> list (ExtractedSymbol.t Param).
Variable hashString : string -> string.
Variable buildDetailJson : ExtractedSymbol.t Param -> option string.
Variable clock : nat -> string.
Variable replaceFileSymbols :
  string -> string -> string -> list SymbolDbRow.t -> M W unit.

Let rowsOf := symbolRows (Param:=Param) hashString buildDetailJson clock.
Let membersOf := memberRows (Param:=Param) hashString buildDetailJson clock.

Lemma buildRow_ofCall (sym : ExtractedSymbol.t Param) (name : string)
  (project filePath contentHash : string) (reading : nat) :
  rowOfCall hashString project filePath contentHash
    (buildRow hashString buildDetailJson clock sym name project filePath
       contentHash reading).
Proof.
  unfold rowOfCall, buildRow. cbn. repeat split; try reflexivity.
  - unfold buildSignature.
    destruct (isCallable (ExtractedSymbol.kind sym)); [discriminate|reflexivity].
  - unfold buildSignature. intros ->. reflexivity.
Qed.

Lemma memberRows_facts (sym : ExtractedSymbol.t Param)
  (members : list (ExtractedSymbol.t Param))
  (project filePath contentHash : string) :
  forall reading,
    map SymbolDbRow.name
      (membersOf sym members project filePath contentHash reading)
    = map (fun member =>
             (ExtractedSymbol.name sym ++ "." ++ ExtractedSymbol.name member)%string)
        members /\
    Forall (rowOfCall hashString project filePath contentHash)
      (membersOf sym members project filePath contentHash reading) /\
    map SymbolDbRow.indexedAt
      (membersOf sym members project filePath contentHash reading)
    = map clock (seq reading (List.length members)).
Proof.
  unfold membersOf.
  induction members as [|m rest IH]; intros reading; cbn [memberRows].
  - repeat split. constructor.
  - destruct (IH (S reading)) as (Hn & Hall & Hc).
    cbn [map List.length seq]. rewrite Hn, Hc.
    repeat split. constructor; [apply buildRow_ofCall|exact Hall].
Qed.

Lemma symbolRows_facts (extracted : list (ExtractedSymbol.t Param))
  (project filePath contentHash : string) (reading : nat) :
  let rows := rowsOf extracted project filePath contentHash reading in
  map SymbolDbRow.name rows = flat_map rowNames extracted /\
  Forall (rowOfCall hashString project filePath contentHash) rows /\
  map SymbolDbRow.indexedAt rows
  = map clock (seq reading (List.length rows)).
Proof.
  cbv zeta. unfold rowsOf. revert reading.
  induction extracted as [|sym rest IH]; intros reading; cbn [symbolRows].
  - repeat split. constructor.
  - destruct (IH (S reading
                  + List.length (nullish (ExtractedSymbol.members sym) [])))
      as (Hn & Hall & Hc).
    destruct (memberRows_facts sym (nullish (ExtractedSymbol.members sym) [])
                project filePath contentHash (S reading))
      as (Hmn & Hmall & Hmc).
    unfold membersOf in *.
    assert (Hlen : List.length
                     (memberRows hashString buildDetailJson clock sym
                        (nullish (ExtractedSymbol.members sym) [])
                        project filePath contentHash (S reading))
                   = List.length (nullish (ExtractedSymbol.members sym) [])).
    { rewrite <- (length_map SymbolDbRow.name), Hmn. apply length_map. }
    split; [|split].
    + cbn [map flat_map rowNames]. rewrite map_app, Hn, Hmn. reflexivity.
    + constructor; [apply buildRow_ofCall|].
      apply Forall_app. split; assumption.
    + cbn [map List.length seq]. f_equal.
      rewrite map_app, Hmc, Hc, length_app, seq_app, map_app, Hlen.
      reflexivity.
Qed.

(** The rows [indexFileSymbols] writes.  For whatever the extractor
    returns, the rows handed to [replaceFileSymbols] are, symbol by
    symbol and in order, one row for the symbol and one row named
    [symbol.member] for each of its members, and none for the members of
    members; every row carries the project, the path and the content
    hash of the call and the hash of [name|kind|signature] as its
    fingerprint, has a signature exactly when its kind is function or
    method, and took its own reading of the clock. *)
Theorem indexFileSymbols_rows (parsed : ParsedFile)
  (project filePath contentHash : string) :
  let rows := rowsOf (extractSymbols parsed) project filePath contentHash 0 in
  indexFileSymbols extractSymbols hashString buildDetailJson clock
    replaceFileSymbols parsed project filePath contentHash
  = replaceFileSymbols project filePath contentHash rows /\
  map SymbolDbRow.name rows = flat_map rowNames (extractSymbols parsed) /\
  Forall (rowOfCall hashString project filePath contentHash) rows /\
  map SymbolDbRow.indexedAt rows = map clock (seq 0 (List.length rows)).
Proof.
  cbv zeta. split; [reflexivity|].
  exact (symbolRows_facts (extractSymbols parsed) project filePath
           contentHash 0).
Qed.

(** A moved file keeps its fingerprints.  Indexing the same symbols
    under another project, path or content hash, at another time, gives
    rows with the same names, kinds, signatures, fingerprints and
    details, in the same order: this is what lets a run recognise the
    symbols of a deleted file in a new one. *)
Theorem moved_file_keeps_fingerprints
  (extracted : list (ExtractedSymbol.t Param))
  (project filePath contentHash project' filePath' contentHash' : string)
  (reading reading' : nat) :
  map identityOf (rowsOf extracted project filePath contentHash reading) =
  map identityOf (rowsOf extracted project' filePath' contentHash' reading').
Proof.
  unfold rowsOf. revert reading reading'.
  assert (Hm : forall sym members r r',
            map identityOf
              (memberRows hashString buildDetailJson clock sym members
                 project filePath contentHash r) =
            map identityOf
              (memberRows hashString buildDetailJson clock sym members
                 project' filePath' contentHash' r')).
  { intros sym members. induction members as [|m rest IHm]; intros r r';
      cbn [memberRows map]; [reflexivity|].
    f_equal. apply IHm. }
  induction extracted as [|sym rest IH]; intros reading reading';
    cbn [symbolRows map]; [reflexivity|].
  f_equal. rewrite !map_app. f_equal; [apply Hm|apply IH].
Qed.

End SymbolIndexerFacts.

(* ================================================================== *)
(** * Properties of the ledger's life cycle and searches               *)
(* ================================================================== *)

Section CodeLedgerFacts.

Import CodeLedger.

Context {W IndexResult : Type}.
Variable deps : @Collaborators W IndexResult.

Lemma call_answers (c : Call) (m : M W unit) (s : @t W) :
  answers m ->
  exists w', call c m s = (Ok tt, setWorldCalls s w' (calls s ++ [c])).
Proof.
  intros Hm. unfold call. destruct (Hm (world s)) as (w' & ->). eauto.
Qed.

Lemma processOff_loop (hs : list (string * nat)) (s : @t W) :
  forEach hs (fun h => record (ProcessOff (fst h) (snd h))) s =
  (Ok tt,
   setWorldCalls s (world s)
     (calls s ++ map (fun h => ProcessOff (fst h) (snd h)) hs)).
Proof.
  revert s. induction hs as [|h rest IH]; intros s.
  - cbn. rewrite app_nil_r. destruct s; reflexivity.
  - cbn [forEach map]. unfold bind, record at 1. rewrite IH. cbn.
    now rewrite <- app_assoc.
Qed.

(** [close()] cleans up in order.  On an instance that is not closed,
    with collaborators that do not fail, [close()] returns normally
    after it has removed the signal handlers, shut the coordinator
    down, closed the watcher, cleared the timer, released the watcher
    role and closed the database, in this order and each only if it is
    there; the instance is then closed, without timer or handlers. *)
Theorem close_cleans_up_in_order (s : @t W) :
  _closed s = false ->
  answers (shutdown deps) -> answers (watcherClose deps) ->
  answers (releaseWatcherRole deps) -> answers (dbClose deps) ->
  fst (close deps s) = Ok tt /\
  calls (snd (close deps s)) = calls s ++ cleanup s /\
  _closed (snd (close deps s)) = true /\
  _timer (snd (close deps s)) = None /\
  _signalHandlers (snd (close deps s)) = [].
Proof.
  intros Hopen Hsd Hwc Hrr Hdb.
  assert (E : exists sf,
            close deps s = (Ok tt, sf) /\
            calls sf = calls s ++ cleanup s /\
            _closed sf = true /\ _timer sf = None /\ _signalHandlers sf = []);
    [|destruct E as (sf & -> & E); exact (conj eq_refl E)].
  unfold close, cleanup.
  unfold bind at 1, get at 1. rewrite Hopen.
  unfold bind at 1, modify at 1. unfold bind at 1.
  rewrite processOff_loop. unfold bind at 1, modify at 1.
  set (s1 := setSignalHandlers _ []).
  assert (H1 : calls s1 = calls s ++
                 map (fun h => ProcessOff (fst h) (snd h)) (_signalHandlers s))
    by reflexivity.
  assert (Hc1 : _closed s1 = true /\ _signalHandlers s1 = [] /\
                _timer s1 = _timer s) by (repeat split).
  clearbody s1. unfold bind at 1.
  assert (E2 : exists s2,
            (if coordinator s
             then call CoordinatorShutdown (shutdown deps)
             else ret tt) s1 = (Ok tt, s2) /\
            calls s2 = calls s1 ++
                         (if coordinator s then [CoordinatorShutdown] else []) /\
            _closed s2 = true /\ _signalHandlers s2 = [] /\
            _timer s2 = _timer s).
  { destruct (coordinator s).
    - destruct (call_answers CoordinatorShutdown _ s1 Hsd) as (w' & ->).
      eexists. split; [reflexivity|]. cbn. tauto.
    - exists s1. rewrite app_nil_r. cbn. tauto. }
  destruct E2 as (s2 & -> & H2 & Hc2). unfold bind at 1.
  assert (E3 : exists s3,
            (if watcher s then call WatcherClose (watcherClose deps)
             else ret tt) s2 = (Ok tt, s3) /\
            calls s3 = calls s2 ++ (if watcher s then [WatcherClose] else []) /\
            _closed s3 = true /\ _signalHandlers s3 = [] /\
            _timer s3 = _timer s).
  { destruct (watcher s).
    - destruct (call_answers WatcherClose _ s2 Hwc) as (w' & ->).
      eexists. split; [reflexivity|]. cbn. tauto.
    - exists s2. rewrite app_nil_r. cbn. tauto. }
  destruct E3 as (s3 & -> & H3 & Hc3). unfold bind at 1.
  assert (E4 : exists s4,
            match _timer s with
            | Some timer =>
                record (ClearInterval timer) ;;;
                modify (fun s => setTimer s None)
            | None => ret tt
            end s3 = (Ok tt, s4) /\
            calls s4 = calls s3 ++
                         match _timer s with
                         | Some timer => [ClearInterval timer]
                         | None => []
                         end /\
            _closed s4 = true /\ _signalHandlers s4 = [] /\ _timer s4 = None).
  { destruct Hc3 as (C1 & C2 & C3). destruct (_timer s) as [timer|].
    - eexists. split; [reflexivity|]. cbn. tauto.
    - exists s3. rewrite app_nil_r. cbn. tauto. }
  destruct E4 as (s4 & -> & H4 & Hc4). unfold bind at 1.
  destruct (call_answers ReleaseWatcherRole _ s4 Hrr) as (w5 & ->).
  destruct (call_answers DbClose _
              (setWorldCalls s4 w5 (calls s4 ++ [ReleaseWatcherRole])) Hdb)
    as (w6 & ->).
  eexists. split; [reflexivity|].
  cbn. rewrite H4, H3, H2, H1, <- !app_assoc. cbn. tauto.
Qed.

Lemma staysClosed_bind {A B : Type} (m : M (@t W) A) (k : A -> M (@t W) B) :
  staysClosed m -> (forall a, staysClosed (k a)) -> staysClosed (bind m k).
Proof.
  intros Hm Hk s Hs. unfold bind. specialize (Hm s Hs).
  destruct (m s) as [[a|e] s1]; cbn [snd] in *; [now apply Hk|exact Hm].
Qed.

Lemma staysClosed_call {A : Type} (c : Call) (m : M W A) :
  staysClosed (call c m).
Proof. intros s Hs. unfold call. destruct (m (world s)). exact Hs. Qed.

Lemma staysClosed_forEach {A : Type} (l : list A) (f : A -> M (@t W) unit) :
  (forall x, staysClosed (f x)) -> staysClosed (forEach l f).
Proof.
  intros Hf. induction l as [|x rest IH]; cbn [forEach].
  - intros s Hs. exact Hs.
  - apply staysClosed_bind; [apply Hf|intros _; exact IH].
Qed.

(** [close()] happens once.  Whatever happens during [close()], the
    instance is closed afterwards, and a [close()] on a closed instance
    returns at once without calling anything.  So when the shutdown of
    the coordinator fails, [close()] fails with its error after the
    signal handlers are removed, and the watcher, the watcher role and
    the database are closed neither then nor by any later [close()]. *)
Theorem close_happens_once (s : @t W) :
  _closed (snd (close deps s)) = true /\
  close deps (snd (close deps s)) = (Ok tt, snd (close deps s)) /\
  (forall e w',
     _closed s = false -> coordinator s = true ->
     shutdown deps (world s) = (Throw e, w') ->
     fst (close deps s) = Throw e /\
     calls (snd (close deps s)) =
       calls s ++ map (fun h => ProcessOff (fst h) (snd h)) (_signalHandlers s)
       ++ [CoordinatorShutdown]).
Proof.
  assert (Hclosed : _closed (snd (close deps s)) = true).
  { unfold close. unfold bind at 1, get at 1.
    destruct (_closed s) eqn:Hs; [exact Hs|].
    unfold bind at 1, modify at 1.
    assert (Hrest : forall s0 : @t W, staysClosed
              (forEach (_signalHandlers s0)
                 (fun h => record (ProcessOff (fst h) (snd h))) ;;;
               modify (fun s => setSignalHandlers s []) ;;;
               (if coordinator s0
                then call CoordinatorShutdown (shutdown deps)
                else ret tt) ;;;
               (if watcher s0 then call WatcherClose (watcherClose deps)
                else ret tt) ;;;
               match _timer s0 with
               | Some timer =>
                   record (ClearInterval timer) ;;;
                   modify (fun s => setTimer s None)
               | None => ret tt
               end ;;;
               call ReleaseWatcherRole (releaseWatcherRole deps) ;;;
               call DbClose (dbClose deps))).
    { intros s0.
      apply staysClosed_bind;
        [apply staysClosed_forEach; intros h x Hx; exact Hx|intros _].
      apply staysClosed_bind; [intros x Hx; exact Hx|intros _].
      apply staysClosed_bind;
        [destruct (coordinator s0);
         [apply staysClosed_call|intros x Hx; exact Hx]|intros _].
      apply staysClosed_bind;
        [destruct (watcher s0);
         [apply staysClosed_call|intros x Hx; exact Hx]|intros _].
      apply staysClosed_bind;
        [destruct (_timer s0);
         [apply staysClosed_bind; [|intros _]|]; intros x Hx; exact Hx
        |intros _].
      apply staysClosed_bind; [apply staysClosed_call|intros _].
      apply staysClosed_call. }
    apply (Hrest s). reflexivity. }
  split; [exact Hclosed|]. split.
  - unfold close at 1. unfold bind at 1, get at 1. now rewrite Hclosed.
  - intros e w' Hopen Hcoord Hfail.
    assert (E : exists sf,
              close deps s = (Throw e, sf) /\
              calls sf =
                calls s ++
                map (fun h => ProcessOff (fst h) (snd h)) (_signalHandlers s)
                ++ [CoordinatorShutdown]);
      [|destruct E as (sf & -> & E); exact (conj eq_refl E)].
    unfold close.
    unfold bind at 1, get at 1. rewrite Hopen.
    unfold bind at 1, modify at 1. unfold bind at 1.
    rewrite processOff_loop. unfold bind at 1, modify at 1.
    unfold bind at 1. rewrite Hcoord. unfold call at 1. cbn [world].
    cbn. rewrite Hfail. eexists. split; [reflexivity|].
    cbn. now rewrite <- app_assoc.
Qed.

(** A closed instance refuses the searches, not the dependency
    queries.  On a closed instance [searchSymbols] and [searchRelations]
    throw "instance is closed" without calling the search functions;
    [getDependencies] and [getDependents] have no such guard: closed or
    not, they call the relation search, for the import relations of the
    given or else the default project and with a limit of 10000.  And
    [reindex()] on an instance without coordinator (a reader) throws
    without calling anything. *)
Theorem closed_instance_refuses_searches (s : @t W) :
  (_closed s = true ->
   forall query relationQuery,
     searchSymbols deps query s = (Throw closedError, s) /\
     searchRelations deps relationQuery s = (Throw closedError, s)) /\
  (coordinator s = false -> reindex deps s = (Throw readerError, s)) /\
  (forall filePath project,
     calls (snd (getDependencies deps filePath project s)) =
       calls s ++
       [RelationSearchFn None
          (dependenciesQuery filePath (nullish project (defaultProject s)))] /\
     calls (snd (getDependents deps filePath project s)) =
       calls s ++
       [RelationSearchFn None
          (dependentsQuery filePath (nullish project (defaultProject s)))]).
Proof.
  split; [|split].
  - intros Hclosed query relationQuery.
    unfold searchSymbols, searchRelations, bind, get. now rewrite Hclosed.
  - intros Hreader. unfold reindex, bind, get. now rewrite Hreader.
  - intros filePath project.
    unfold getDependencies, getDependents, bind, get, call.
    split.
    + destruct (_relationSearchFn deps None
                  (dependenciesQuery filePath
                     (nullish project (defaultProject s))) (world s))
        as [[found|e] w]; reflexivity.
    + destruct (_relationSearchFn deps None
                  (dependentsQuery filePath
                     (nullish project (defaultProject s))) (world s))
        as [[found|e] w]; reflexivity.
Qed.

(** The dependencies of a file are the targets of its imports.  With
    the relation search of relation-search.ts in place, when the
    repository answers [getDependencies(filePath, project)] is the
    [dstFilePath] of each record the repository returns, in its order,
    for the query [srcFilePath = filePath], [type = imports], the given
    or else the default project, and a limit of 10000; and
    [getDependents] is the [srcFilePath] of each record returned for
    the same query on [dstFilePath]. *)
Theorem dependencies_are_import_targets
  (searchRelations : RelationSearchOpts.t -> M W (list RelationRecord.t))
  (filePath : string) (project : option string) (s : @t W) :
  _relationSearchFn deps = RelationSearch.relationSearch searchRelations ->
  let p := nullish project (defaultProject s) in
  let outgoing :=
    {| RelationSearchOpts.srcFilePath := Some filePath;
       RelationSearchOpts.srcSymbolName := None;
       RelationSearchOpts.dstFilePath := None;
       RelationSearchOpts.dstSymbolName := None;
       RelationSearchOpts.type := Some "imports";
       RelationSearchOpts.project := Some p;
       RelationSearchOpts.limit := 10000%Z |} in
  let incoming :=
    {| RelationSearchOpts.srcFilePath := None;
       RelationSearchOpts.srcSymbolName := None;
       RelationSearchOpts.dstFilePath := Some filePath;
       RelationSearchOpts.dstSymbolName := None;
       RelationSearchOpts.type := Some "imports";
       RelationSearchOpts.project := Some p;
       RelationSearchOpts.limit := 10000%Z |} in
  (forall records w',
     searchRelations outgoing (world s) = (Ok records, w') ->
     fst (getDependencies deps filePath project s)
     = Ok (map RelationRecord.dstFilePath records)) /\
  (forall records w',
     searchRelations incoming (world s) = (Ok records, w') ->
     fst (getDependents deps filePath project s)
     = Ok (map RelationRecord.srcFilePath records)) /\
  (forall e w',
     searchRelations outgoing (world s) = (Throw e, w') ->
     fst (getDependencies deps filePath project s) = Throw e).
Proof.
  intros Hfn. cbv zeta.
  unfold getDependencies, getDependents, bind, get, call. rewrite Hfn.
  unfold RelationSearch.relationSearch, bind, ret.
  unfold RelationSearch.searchOpts, dependenciesQuery, dependentsQuery.
  cbn [RelationSearchQuery.srcFilePath RelationSearchQuery.srcSymbolName
       RelationSearchQuery.dstFilePath RelationSearchQuery.dstSymbolName
       RelationSearchQuery.type RelationSearchQuery.project
       RelationSearchQuery.limit nullish].
  split; [|split].
  - intros records w' ->. cbn. now rewrite map_map.
  - intros records w' ->. cbn. now rewrite map_map.
  - intros e w' ->. reflexivity.
Qed.

End CodeLedgerFacts.

Section CodeLedgerWitnesses.

Import CodeLedger.

Lemma close_cleans_up_in_order_witness :
  calls (snd (close LedgerTest.deps LedgerTest.owner)) =
    [ProcessOff "SIGTERM" 1; ProcessOff "SIGINT" 2; ProcessOff "beforeExit" 3;
     CoordinatorShutdown; WatcherClose; ClearInterval 1;
     ReleaseWatcherRole; DbClose].
Proof.
  assert (Hanswers : answers (W := unit) (ret tt))
    by (intros w; exists w; reflexivity).
  exact (proj1 (proj2 (close_cleans_up_in_order LedgerTest.deps
                         LedgerTest.owner eq_refl
                         Hanswers Hanswers Hanswers Hanswers))).
Defined.

Lemma dependencies_are_import_targets_witness :
  fst (getDependencies LedgerTest.deps "src/index.ts" None LedgerTest.owner)
  = Ok ["src/utils.ts"].
Proof.
  destruct (dependencies_are_import_targets LedgerTest.deps
              LedgerTest.searchRelations "src/index.ts" None LedgerTest.owner
              eq_refl) as (Hout & _).
  exact (Hout _ tt eq_refl).
Defined.

(** The shutdown of the coordinator rejects: the database is never
    closed. *)
Example close_after_failed_shutdown :
  let first := close LedgerTest.failing LedgerTest.owner in
  let second := close LedgerTest.failing (snd first) in
  fst first = Throw (Error "Error" "shutdown failed") /\
  fst second = Ok tt /\
  calls (snd second) =
    [ProcessOff "SIGTERM" 1; ProcessOff "SIGINT" 2; ProcessOff "beforeExit" 3;
     CoordinatorShutdown] /\
  _timer (snd second) = Some 1.
Proof. cbv zeta. vm_compute. repeat split. Qed.

End CodeLedgerWitnesses.

(* ================================================================== *)
(** * Properties of the index coordinator                              *)
(* ================================================================== *)

Section CoordinatorFacts.
Import IndexCoordinator.
Context {W ParsedFile Paths : Type}.
Variable opts : @Options W ParsedFile Paths.
Variable env : @Imports W ParsedFile Paths.

Lemma forEach_ok {S A : Type} (l : list A) (f : A -> M S unit) :
  (forall x s, fst (f x s) = Ok tt) ->
  forall s, fst (forEach l f s) = Ok tt.
Proof.
  intros Hf. induction l as [|x rest IH]; intros s; [reflexivity|].
  cbn [forEach]. unfold bind. specialize (Hf x s).
  destruct (f x s) as [[u|e] s1]; cbn in Hf; [apply IH|discriminate].
Qed.

Lemma _fireCallbacks_ok (result : IndexResult.t) (s : State) :
  fst (_fireCallbacks env result s) = Ok tt.
Proof.
  unfold _fireCallbacks. unfold bind at 1, get.
  apply forEach_ok. intros cb s0. unfold bind, attempt.
  destruct (call (Callback cb) (subscriber env cb result) s0) as [[u|e] s1];
    reflexivity.
Qed.

(** The subscribers see the coordinator's fields as they are. *)
Lemma call_fields {A : Type} (c : Call) (m : M W A) (s : @State W Paths) :
  let s' := snd (call c m s) in
  indexingLock s' = indexingLock s /\
  currentIndexing s' = currentIndexing s /\
  _pendingFullIndex s' = _pendingFullIndex s /\
  pendingEvents s' = pendingEvents s /\
  debounceTimer s' = debounceTimer s /\
  nextId s' = nextId s /\
  calls s' = calls s ++ [c].
Proof.
  unfold call. destruct (m (world s)) as [r w]. cbn. repeat split.
Qed.

Lemma settle_is_finalizer (outcome : Res IndexResult.t) (s : State) :
  snd (settle env outcome s) = finalizer (beforeFinalizer env outcome s) /\
  fst (settle env outcome s) = outcome.
Proof.
  unfold settle, beforeFinalizer. destruct outcome as [result|e];
    [|split; reflexivity].
  pose proof (_fireCallbacks_ok result s) as Hok.
  destruct (_fireCallbacks env result s) as [[u|e] s1]; cbn in *;
    [split; reflexivity|discriminate].
Qed.

Lemma _startIndex_unlocked (events : option (list FileChangeEvent.t))
  (useTransaction : bool) (s : @State W Paths) :
  indexingLock s = false ->
  let s' := snd (_startIndex events useTransaction s) in
  fst (_startIndex events useTransaction s) = Some (nextId s) /\
  calls s' = calls s ++ [DoIndex (nextId s) events useTransaction] /\
  indexingLock s' = true /\
  currentIndexing s' = Some (nextId s) /\
  _pendingFullIndex s' = _pendingFullIndex s /\
  pendingEvents s' = pendingEvents s /\
  debounceTimer s' = debounceTimer s /\
  world s' = world s.
Proof.
  intros Hlock. unfold _startIndex. rewrite Hlock. cbn. repeat split.
Qed.

Lemma _startIndex_locked (events : option (list FileChangeEvent.t))
  (useTransaction : bool) (s : @State W Paths) :
  indexingLock s = true ->
  let s' := snd (_startIndex events useTransaction s) in
  fst (_startIndex events useTransaction s) = currentIndexing s /\
  calls s' = calls s /\
  indexingLock s' = true /\
  currentIndexing s' = currentIndexing s /\
  _pendingFullIndex s' = (useTransaction || _pendingFullIndex s)%bool /\
  pendingEvents s' = pendingEvents s.
Proof.
  intros Hlock. unfold _startIndex. rewrite Hlock.
  destruct useTransaction; cbn; repeat split; assumption.
Qed.

(** C1.  Whether the promise of a run resolves or rejects, the
    [finally] callback runs: it clears [indexingLock] and
    [currentIndexing] and then, in this order of priority, starts a full
    run when [_pendingFullIndex] was set, or else a new incremental run
    on the buffered events when there are any, emptying the buffer; with
    neither, the coordinator is left unlocked and idle.  The promise
    [_startIndex] returned settles as the run did. *)
Theorem finalizer_after_every_run (outcome : Res IndexResult.t)
  (s : @State W Paths) :
  let s0 := beforeFinalizer env outcome s in
  let s' := snd (settle env outcome s) in
  fst (settle env outcome s) = outcome /\
  s' = drain (release s0) /\
  indexingLock (release s0) = false /\
  currentIndexing (release s0) = None /\
  (_pendingFullIndex s0 = true ->
     calls s' = calls s0 ++ [DoIndex (nextId s0) None true] /\
     indexingLock s' = true /\
     currentIndexing s' = Some (nextId s0) /\
     _pendingFullIndex s' = false /\
     pendingEvents s' = pendingEvents s0) /\
  (_pendingFullIndex s0 = false -> pendingEvents s0 <> [] ->
     calls s' =
       calls s0 ++ [DoIndex (nextId s0) (Some (pendingEvents s0)) false] /\
     indexingLock s' = true /\
     currentIndexing s' = Some (nextId s0) /\
     _pendingFullIndex s' = false /\
     pendingEvents s' = []) /\
  (_pendingFullIndex s0 = false -> pendingEvents s0 = [] ->
     calls s' = calls s0 /\
     indexingLock s' = false /\
     currentIndexing s' = None).
Proof.
  cbv zeta. destruct (settle_is_finalizer outcome s) as [Hsnd Hfst].
  rewrite Hsnd. set (s0 := beforeFinalizer env outcome s).
  split; [exact Hfst|]. split; [reflexivity|].
  split; [reflexivity|]. split; [reflexivity|].
  unfold finalizer, drain.
  change (_pendingFullIndex (release s0)) with (_pendingFullIndex s0).
  change (pendingEvents (release s0)) with (pendingEvents s0).
  split; [|split].
  - intros Hfull. rewrite Hfull. cbn. repeat split.
  - intros Hfull Hpending. rewrite Hfull.
    destruct (pendingEvents s0) as [|e rest] eqn:Hp; [congruence|].
    cbn. repeat split. exact Hfull.
  - intros Hfull Hpending. rewrite Hfull, Hpending. cbn. repeat split.
Qed.

Lemma filter_isDoIndex_app (cs extra : list Call) :
  forallb (fun c => negb (isDoIndex c)) extra = true ->
  filter isDoIndex (cs ++ extra) = filter isDoIndex cs.
Proof.
  intros Hextra. rewrite filter_app.
  replace (filter isDoIndex extra) with (@nil Call); [apply app_nil_r|].
  induction extra as [|c rest IH]; [reflexivity|].
  cbn in Hextra. apply andb_true_iff in Hextra. destruct Hextra as [Hc0 Hr].
  cbn. destruct (isDoIndex c); cbn in Hc0; [discriminate|]. now apply IH.
Qed.

(** C6, as amended.  For an event whose path does not end with
    [tsconfig.json], [handleWatcherEvent] returns without starting a
    run: the lock, the promise of the run in flight and the pending
    full index are untouched, the event is appended to the buffer, and
    a 100 ms timer is armed exactly when none was armed.  For a path
    ending with [package.json] the call also starts the discovery of the
    project boundaries and stores it as the pending refresh. *)
Theorem handleWatcherEvent_buffers (event : FileChangeEvent.t)
  (s : @State W Paths) :
  endsWith (FileChangeEvent.filePath event) "tsconfig.json" = false ->
  let s' := snd (handleWatcherEvent opts env event s) in
  fst (handleWatcherEvent opts env event s) = Ok tt /\
  calls s' =
    calls s ++
    (if endsWith (FileChangeEvent.filePath event) "package.json"
     then [DiscoverProjects (projectRoot opts)] else []) ++
    match debounceTimer s with
    | Some _ => []
    | None => [SetTimeout (nextId s) WATCHER_DEBOUNCE_MS]
    end /\
  startedRuns s' = startedRuns s /\
  indexingLock s' = indexingLock s /\
  currentIndexing s' = currentIndexing s /\
  _pendingFullIndex s' = _pendingFullIndex s /\
  pendingEvents s' = pendingEvents s ++ [event] /\
  debounceTimer s' =
    match debounceTimer s with
    | Some h => Some h
    | None => Some (nextId s)
    end /\
  WATCHER_DEBOUNCE_MS = 100%Z.
Proof.
  intros Hts. cbv zeta. unfold handleWatcherEvent. rewrite Hts.
  assert (Hgoal : forall s1 : @State W Paths,
    indexingLock s1 = indexingLock s ->
    currentIndexing s1 = currentIndexing s ->
    _pendingFullIndex s1 = _pendingFullIndex s ->
    pendingEvents s1 = pendingEvents s ->
    debounceTimer s1 = debounceTimer s ->
    nextId s1 = nextId s ->
    forall extra, calls s1 = calls s ++ extra ->
    forallb (fun c => negb (isDoIndex c)) extra = true ->
    let r := (modify (fun s => setPendingEvents s (pendingEvents s ++ [event])) ;;;
              s' <- get ;;
              match debounceTimer s' with
              | Some _ => ret tt
              | None =>
                  handle <- fresh ;;
                  record (SetTimeout handle WATCHER_DEBOUNCE_MS) ;;;
                  modify (fun s => setDebounceTimer s (Some handle))
              end) s1 in
    fst r = Ok tt /\
    calls (snd r) =
      calls s ++ extra ++
      match debounceTimer s with
      | Some _ => []
      | None => [SetTimeout (nextId s) WATCHER_DEBOUNCE_MS]
      end /\
    startedRuns (snd r) = startedRuns s /\
    indexingLock (snd r) = indexingLock s /\
    currentIndexing (snd r) = currentIndexing s /\
    _pendingFullIndex (snd r) = _pendingFullIndex s /\
    pendingEvents (snd r) = pendingEvents s ++ [event] /\
    debounceTimer (snd r) =
      match debounceTimer s with
      | Some h => Some h
      | None => Some (nextId s)
      end /\
    WATCHER_DEBOUNCE_MS = 100%Z).
  { intros s1 Hl Hc Hf Hp Hd Hn extra Hcalls Hextra. cbv zeta.
    unfold bind, modify, get, fresh, record, ret. cbn.
    rewrite Hd. destruct (debounceTimer s) as [h|] eqn:Hdt; cbn.
    - rewrite app_nil_r, Hp, Hcalls. repeat split; auto.
      unfold startedRuns. now apply filter_isDoIndex_app.
    - rewrite Hcalls, Hn, Hp, <- app_assoc. repeat split; auto.
      unfold startedRuns. apply filter_isDoIndex_app.
      rewrite forallb_app, Hextra. reflexivity. }
  set (tail := (modify (fun s => setPendingEvents s (pendingEvents s ++ [event])) ;;;
                s' <- get ;;
                match debounceTimer s' with
                | Some _ => ret tt
                | None =>
                    handle <- fresh ;;
                    record (SetTimeout handle WATCHER_DEBOUNCE_MS) ;;;
                    modify (fun s => setDebounceTimer s (Some handle))
                end)) in *.
  destruct (endsWith (FileChangeEvent.filePath event) "package.json").
  - pose proof (call_fields (DiscoverProjects (projectRoot opts))
                  (discover opts env (projectRoot opts)) s) as Hcall.
    cbv zeta in Hcall.
    assert (E : ((refresh <- attempt (call (DiscoverProjects (projectRoot opts))
                                        (discover opts env (projectRoot opts))) ;;
                  modify (fun s => setBoundariesRefresh s (Some refresh))) ;;;
                 tail) s =
                tail (setBoundariesRefresh
                        (snd (call (DiscoverProjects (projectRoot opts))
                                (discover opts env (projectRoot opts)) s))
                        (Some (fst (call (DiscoverProjects (projectRoot opts))
                                      (discover opts env (projectRoot opts)) s))))).
    { unfold bind at 1. unfold bind at 1, attempt, modify at 1.
      destruct (call (DiscoverProjects (projectRoot opts))
                  (discover opts env (projectRoot opts)) s) as [refresh s1].
      reflexivity. }
    rewrite E.
    destruct Hcall as (Hl & Hc & Hf & Hp & Hd & Hn & Hcalls).
    apply Hgoal; auto.
  - change ((ret tt ;;; tail) s) with (tail s).
    specialize (Hgoal s eq_refl eq_refl eq_refl eq_refl eq_refl eq_refl []
                  (eq_sym (app_nil_r _)) eq_refl).
    exact Hgoal.
Qed.


Lemma appends_ret {A : Type} (P : Call -> bool) (a : A) :
  Appends (W:=W) (Paths:=Paths) P (ret a).
Proof. intros s. exists []. cbn. now rewrite app_nil_r. Qed.

Lemma appends_throw {A : Type} (P : Call -> bool) (e : Exn) :
  Appends (W:=W) (Paths:=Paths) P (throw (A:=A) e).
Proof. intros s. exists []. cbn. now rewrite app_nil_r. Qed.

Lemma appends_get (P : Call -> bool) :
  Appends (W:=W) (Paths:=Paths) P get.
Proof. intros s. exists []. cbn. now rewrite app_nil_r. Qed.

Lemma appends_peek {A : Type} (P : Call -> bool) (f : W -> A) :
  Appends (W:=W) (Paths:=Paths) P (peek f).
Proof. intros s. exists []. cbn. now rewrite app_nil_r. Qed.

Lemma appends_call {A : Type} (P : Call -> bool) (c : Call) (m : M W A) :
  P c = true -> Appends (W:=W) (Paths:=Paths) P (call c m).
Proof.
  intros Hc s. exists [c]. destruct (call_fields c m s) as (_&_&_&_&_&_&H).
  split; [exact H|]. cbn. now rewrite Hc.
Qed.

Lemma appends_record (P : Call -> bool) (c : Call) :
  P c = true -> Appends (W:=W) (Paths:=Paths) P (record c).
Proof. intros Hc s. exists [c]. cbn. now rewrite Hc. Qed.

Lemma appends_bind {A B : Type} (P : Call -> bool)
  (m : M (@State W Paths) A) (k : A -> M (@State W Paths) B) :
  Appends P m -> (forall a, Appends P (k a)) -> Appends P (bind m k).
Proof.
  intros Hm Hk s. unfold bind. destruct (Hm s) as (e1 & Hc1 & Hp1).
  destruct (m s) as [[a|e] s1]; cbn [snd] in *.
  - destruct (Hk a s1) as (e2 & Hc2 & Hp2). exists (e1 ++ e2).
    rewrite Hc2, Hc1, app_assoc. split; [reflexivity|].
    now rewrite forallb_app, Hp1, Hp2.
  - exists e1. auto.
Qed.

Lemma appends_attempt {A : Type} (P : Call -> bool)
  (m : M (@State W Paths) A) :
  Appends P m -> Appends P (attempt m).
Proof.
  intros Hm s. unfold attempt. destruct (Hm s) as (e1 & Hc1 & Hp1).
  destruct (m s) as [r s1]. exists e1. auto.
Qed.

Lemma appends_forEach {A : Type} (P : Call -> bool) (l : list A)
  (f : A -> M (@State W Paths) unit) :
  (forall x, Appends P (f x)) -> Appends P (forEach l f).
Proof.
  intros Hf. induction l as [|x rest IH]; cbn [forEach].
  - apply appends_ret.
  - apply appends_bind; [apply Hf|intros _; exact IH].
Qed.

Ltac appends :=
  repeat first
    [ apply appends_ret | apply appends_throw | apply appends_get
    | apply appends_peek
    | apply appends_call; reflexivity
    | apply appends_record; reflexivity
    | apply appends_attempt
    | apply appends_bind; [|intros ?] ].








Lemma appends_modify (P : Call -> bool) (f : @State W Paths -> State) :
  (forall s, calls (f s) = calls s) -> Appends P (modify f).
Proof.
  intros Hf s. exists []. cbn. now rewrite app_nil_r, Hf.
Qed.




Lemma succeeds_peek {A : Type} (f : W -> A) :
  Succeeds (W:=W) (Paths:=Paths) (peek f).
Proof. intros s. now exists (f (world s)), s. Qed.








Lemma retargetSymbols_appends (oldFile : string) (syms : list SymbolRecord.t) :
  Appends notBunFile (retargetSymbols opts env oldFile syms).
Proof.
  unfold retargetSymbols. apply appends_forEach. intros sym.
  destruct (SymbolRecord.fingerprint sym) as [[|c rest]|]; appends.
  destruct a0 as [|m [|m' more]]; appends.
Qed.

Lemma retargetMoved_appends
  (deletedSymbols : list (string * list SymbolRecord.t)) :
  Appends notBunFile (retargetMoved opts env deletedSymbols).
Proof.
  unfold retargetMoved. apply appends_forEach. intros entry.
  apply retargetSymbols_appends.
Qed.


(** ** An incremental run, file by file *)












(** ** The phases of a run *)

(** A run that resolves went through its phases: the changeset, the
    alias table, the snapshot of the deleted files' symbols, the
    deletions and the indexing, and the move detection, with which it
    ends. *)
Lemma _doIndex_phases (events : option (list FileChangeEvent.t))
  (useTransaction : bool) (s s' : @State W Paths) (result : IndexResult.t) :
  _doIndex opts env events useTransaction s = (Ok result, s') ->
  exists changed deleted paths s0 snapshot s1 totals s2,
    (awaitBoundariesRefresh ;;; findChangeset opts env events) s
      = (Ok (changed, deleted), s0) /\
    tsconfigPathsRaw s0 = Ok paths /\
    snapshotDeleted opts env deleted [] s0 = (Ok snapshot, s1) /\
    applyChangeset opts env changed deleted paths useTransaction s1
      = (Ok totals, s2) /\
    retargetMoved opts env snapshot s2 = (Ok tt, s') /\
    IndexResult.deletedFiles result = deleted /\
    IndexResult.changedFiles result = map FileChange.filePath changed /\
    IndexResult.failedFiles result = failed totals.
Proof.
  intros E. unfold _doIndex in E.
  apply bind_ok in E. destruct E as (start & sa & Ea & E).
  unfold peek in Ea. inversion Ea; subst start sa. clear Ea.
  apply bind_ok in E. destruct E as ([] & sb & Eb & E).
  apply bind_ok in E. destruct E as ([changed deleted] & s0 & Efound & E).
  apply bind_ok in E. destruct E as (s0' & sc & Ec & E).
  unfold get in Ec. inversion Ec; subst s0' sc. clear Ec.
  apply bind_ok in E. destruct E as (paths & sd & Ed & E).
  assert (Hpaths : tsconfigPathsRaw s0 = Ok paths /\ sd = s0).
  { destruct (tsconfigPathsRaw s0) as [p|e]; [|discriminate].
    unfold ret in Ed. inversion Ed. auto. }
  destruct Hpaths as [Hpaths ->]. clear Ed.
  cbn [fst snd] in E. unfold indexChangeset in E.
  apply bind_ok in E. destruct E as (snapshot & s1 & Esnap & E).
  apply bind_ok in E. destruct E as (totals & s2 & Eapply & E).
  apply bind_ok in E. destruct E as ([] & s3 & Emoves & E).
  apply bind_ok in E. destruct E as (finish & s4 & Ef & E).
  unfold peek in Ef. inversion Ef; subst finish s4. clear Ef.
  unfold ret in E. inversion E; subst result s'. clear E.
  exists changed, deleted, paths, s0, snapshot, s1, totals, s2.
  split; [unfold bind at 1; rewrite Eb; exact Efound|].
  repeat split; assumption.
Qed.

(** Nothing before the move detection retargets a relation. *)
Lemma aggregateFiles_quiet (bs : list ProjectBoundary.t) :
  forall m, Appends notRetarget (aggregateFiles opts bs m).
Proof.
  induction bs as [|b rest IH]; intros m; cbn [aggregateFiles].
  - apply appends_ret.
  - appends. apply IH.
Qed.

Lemma findChangeset_quiet (events : option (list FileChangeEvent.t)) :
  Appends notRetarget
    (awaitBoundariesRefresh ;;; findChangeset opts env events).
Proof.
  apply appends_bind.
  - unfold awaitBoundariesRefresh. appends.
    destruct (boundariesRefresh a) as [[b|e]|]; appends;
      try (apply appends_modify; reflexivity).
  - intros _. unfold findChangeset. destruct events as [evs|]; appends.
    apply aggregateFiles_quiet.
Qed.

Lemma snapshotDeleted_quiet (deleted : list string) :
  forall acc, Appends notRetarget (snapshotDeleted opts env deleted acc).
Proof.
  induction deleted as [|f rest IH]; intros acc; cbn [snapshotDeleted].
  - apply appends_ret.
  - appends. apply IH.
Qed.

Lemma processChangedFrom_quiet (changed : list FileChange.t) (paths : Paths) :
  forall acc, Appends notRetarget
                (processChangedFrom opts env acc changed paths).
Proof.
  induction changed as [|file rest IH]; intros acc; cbn [processChangedFrom].
  - apply appends_ret.
  - apply appends_bind.
    + apply appends_attempt. unfold _processFile. appends.
    + intros [[sc rc]|e]; [apply IH|].
      apply appends_bind; [apply appends_record; reflexivity|intros _].
      apply IH.
Qed.

Lemma prereadAll_quiet (changed : list FileChange.t) :
  Appends notRetarget (prereadAll opts env changed).
Proof.
  unfold prereadAll. apply appends_bind.
  - induction changed as [|file rest IH]; cbn [startReads].
    + apply appends_ret.
    + appends. exact IH.
  - intros texts. apply appends_bind; [apply appends_get|intros s].
    destruct (prereadOf opts env (world s) changed texts); appends.
Qed.

Lemma indexPreread_quiet (bs : list ProjectBoundary.t) (paths : Paths)
  (preread : list Preread) :
  forall totals,
    Appends notRetarget (indexPreread opts env bs paths preread totals).
Proof.
  induction preread as [|fd rest IH]; intros totals; cbn [indexPreread].
  - apply appends_ret.
  - appends. apply IH.
Qed.

Lemma applyChangeset_quiet (changed : list FileChange.t)
  (deleted : list string) (paths : Paths) (useTransaction : bool) :
  (forall A (fn : M (@State W Paths) A),
     Appends notRetarget fn -> Appends notRetarget (transaction opts A fn)) ->
  Appends notRetarget
    (applyChangeset opts env changed deleted paths useTransaction).
Proof.
  intros Htx. unfold applyChangeset. destruct useTransaction.
  - apply appends_bind; [apply appends_get|intros s0].
    apply appends_bind; [apply prereadAll_quiet|intros preread].
    appends. apply Htx. unfold rebuild. apply appends_bind.
    + apply appends_forEach. intros b. appends.
      apply appends_forEach. intros f. appends.
    + intros _. apply indexPreread_quiet.
  - apply appends_bind.
    + unfold processDeleted. apply appends_forEach. intros f. appends.
    + intros _. apply processChangedFrom_quiet.
Qed.

Lemma appends_run {A : Type} (P : Call -> bool) (m : M (@State W Paths) A)
  (s s1 : @State W Paths) (r : Res A) :
  Appends P m -> m s = (r, s1) ->
  exists extra, calls s1 = calls s ++ extra /\ forallb P extra = true.
Proof.
  intros Hm E. destruct (Hm s) as (extra & Hc & Hp). rewrite E in Hc.
  exists extra. auto.
Qed.

Lemma not_retargeted (extra : list Call) (project oldFile : string)
  (oldSymbol : option string) (newFile : string) (newSymbol : option string) :
  forallb notRetarget extra = true ->
  ~ In (RetargetRelations project oldFile oldSymbol newFile newSymbol) extra.
Proof.
  intros Hq Hin. rewrite forallb_forall in Hq. specialize (Hq _ Hin).
  discriminate.
Qed.

(** ** The map of the snapshot *)

Lemma mapSet_in {V : Type} (k : string) (v : V) (m : list (string * V)) :
  NoDup (map fst m) ->
  forall k' v',
    In (k', v') (FileRepository.mapSet k v m) <->
    (k' = k /\ v' = v) \/ (k' <> k /\ In (k', v') m).
Proof.
  induction m as [|[k0 v0] rest IH]; intros Hnd k' v'.
  - cbn. split.
    + intros [Heq|[]]. inversion Heq. now left.
    + intros [[-> ->]|[_ []]]. now left.
  - cbn [map fst] in Hnd. inversion Hnd as [|x l Hnotin Hrest]; subst.
    cbn [FileRepository.mapSet].
    destruct (String.eqb k0 k) eqn:Hk.
    + apply String.eqb_eq in Hk. subst k0. cbn [In]. split.
      * intros [Heq|Hin].
        -- inversion Heq. now left.
        -- right. split; [|now right]. intros ->. apply Hnotin.
           apply in_map_iff. now exists (k, v').
      * intros [[-> ->]|[Hne [Heq|Hin]]].
        -- now left.
        -- inversion Heq. congruence.
        -- now right.
    + apply String.eqb_neq in Hk. cbn [In]. rewrite (IH Hrest k' v').
      split.
      * intros [Heq|[[-> ->]|[Hne Hin]]].
        -- inversion Heq; subst. right. split; [congruence|now left].
        -- now left.
        -- right. split; [exact Hne|now right].
      * intros [[-> ->]|[Hne [Heq|Hin]]].
        -- right. now left.
        -- now left.
        -- right. right. now split.
Qed.

Lemma mapSet_keys {V : Type} (k : string) (v : V) (m : list (string * V)) :
  forall k', In k' (map fst (FileRepository.mapSet k v m)) <->
             k' = k \/ In k' (map fst m).
Proof.
  induction m as [|[k0 v0] rest IH]; intros k'.
  - cbn. intuition.
  - cbn [FileRepository.mapSet]. destruct (String.eqb k0 k) eqn:Hk.
    + apply String.eqb_eq in Hk. subst k0. cbn. intuition.
    + cbn [map fst In]. rewrite IH. intuition.
Qed.

Lemma mapSet_NoDup {V : Type} (k : string) (v : V) (m : list (string * V)) :
  NoDup (map fst m) -> NoDup (map fst (FileRepository.mapSet k v m)).
Proof.
  induction m as [|[k0 v0] rest IH]; intros Hnd.
  - cbn. constructor; [intros []|constructor].
  - cbn [map fst] in Hnd. inversion Hnd as [|x l Hnotin Hrest]; subst.
    cbn [FileRepository.mapSet]. destruct (String.eqb k0 k) eqn:Hk.
    + exact Hnd.
    + apply String.eqb_neq in Hk. cbn [map fst]. constructor; [|now apply IH].
      rewrite mapSet_keys. intros [Heq|Hin]; [congruence|contradiction].
Qed.

(** A map filled with [value f] under every [f] of a list holds exactly
    these entries, however often an [f] occurs. *)
Lemma fold_mapSet_entries {V : Type} (value : string -> V)
  (keys : list string) :
  forall acc,
    NoDup (map fst acc) ->
    (forall k v, In (k, v) acc -> v = value k) ->
    let m := fold_left (fun m f => FileRepository.mapSet f (value f) m)
               keys acc in
    forall k v,
      In (k, v) m <-> (In k keys /\ v = value k) \/ In (k, v) acc.
Proof.
  induction keys as [|f rest IH]; intros acc Hnd Hval; cbv zeta.
  - cbn. intros k v. split; [now right|]. intros [[[] _]|H]; exact H.
  - cbn [fold_left]. intros k v.
    assert (Hval' : forall k0 v0,
              In (k0, v0) (FileRepository.mapSet f (value f) acc) ->
              v0 = value k0).
    { intros k0 v0 Hin. apply (mapSet_in f (value f) acc Hnd) in Hin.
      destruct Hin as [[-> ->]|[_ Hin]]; [reflexivity|now apply Hval]. }
    rewrite (IH _ (mapSet_NoDup f (value f) acc Hnd) Hval' k v).
    rewrite (mapSet_in f (value f) acc Hnd). cbn [In]. split.
    + intros [[Hin ->]|[[-> ->]|[Hne Hin]]].
      * left. split; [now right|reflexivity].
      * left. split; [now left|reflexivity].
      * now right.
    + intros [[[->|Hin] ->]|Hin].
      * right. now left.
      * left. now split.
      * destruct (String.eqb_spec k f) as [->|Hne].
        -- right. left. split; [reflexivity|]. now apply Hval.
        -- right. right. now split.
Qed.

Section MoveDetection.

(** The symbols of a file and the fingerprint lookup are queries, and
    retargeting relations leaves the answers of the lookup as they
    are. *)
Variable symbolsOf : string -> string -> W -> list SymbolRecord.t.
Hypothesis getFileSymbols_query :
  forall p f w, getFileSymbols opts p f w = (Ok (symbolsOf p f w), w).
Variable lookup : string -> string -> W -> list SymbolRecord.t.
Hypothesis getByFingerprint_query :
  forall p fp w, getByFingerprint opts p fp w = (Ok (lookup p fp w), w).
Hypothesis retargetRelations_keeps :
  forall p o os n ns w,
    exists w',
      retargetRelations opts p o os n ns w = (Ok tt, w') /\
      forall p' fp, lookup p' fp w' = lookup p' fp w.

Lemma movesOfSymbol_ext (find find' : string -> string -> list SymbolRecord.t)
  (bounds : list ProjectBoundary.t) (oldFile : string) (sym : SymbolRecord.t) :
  (forall p fp, find p fp = find' p fp) ->
  movesOfSymbol env find bounds oldFile sym =
  movesOfSymbol env find' bounds oldFile sym.
Proof.
  intros H. unfold movesOfSymbol.
  destruct (SymbolRecord.fingerprint sym) as [fp|]; [|reflexivity].
  destruct (String.eqb fp EmptyString); [reflexivity|]. now rewrite H.
Qed.

Lemma retargetSymbols_calls (oldFile : string) (syms : list SymbolRecord.t) :
  forall s : @State W Paths,
    exists s',
      retargetSymbols opts env oldFile syms s = (Ok tt, s') /\
      calls s' =
        calls s ++
        flat_map (movesOfSymbol env (fun p fp => lookup p fp (world s))
                    (boundaries s) oldFile) syms /\
      boundaries s' = boundaries s /\
      (forall p fp, lookup p fp (world s') = lookup p fp (world s)).
Proof.
  unfold retargetSymbols.
  induction syms as [|sym rest IH]; intros s.
  - exists s. cbn. rewrite app_nil_r. auto.
  - cbn [forEach flat_map]. unfold bind at 1.
    assert (Hstep : exists s1,
              (match SymbolRecord.fingerprint sym with
               | Some (String c rest0) =>
                   s0 <- get ;;
                   matches <- call (GetByFingerprint
                                      (resolveFileProject env oldFile (boundaries s0))
                                      (String c rest0))
                                (getByFingerprint opts
                                   (resolveFileProject env oldFile (boundaries s0))
                                   (String c rest0)) ;;
                   match matches with
                   | [newSym] =>
                       call (RetargetRelations
                               (resolveFileProject env oldFile (boundaries s0))
                               oldFile (Some (SymbolRecord.name sym))
                               (SymbolRecord.filePath newSym)
                               (Some (SymbolRecord.name newSym)))
                         (retargetRelations opts
                            (resolveFileProject env oldFile (boundaries s0))
                            oldFile (Some (SymbolRecord.name sym))
                            (SymbolRecord.filePath newSym)
                            (Some (SymbolRecord.name newSym)))
                   | _ => ret tt
                   end
               | _ => ret tt
               end) s = (Ok tt, s1) /\
              calls s1 =
                calls s ++
                movesOfSymbol env (fun p fp => lookup p fp (world s))
                  (boundaries s) oldFile sym /\
              boundaries s1 = boundaries s /\
              (forall p fp, lookup p fp (world s1) = lookup p fp (world s))).
    { unfold movesOfSymbol.
      destruct (SymbolRecord.fingerprint sym) as [[|c fp]|].
      - exists s. cbn. rewrite app_nil_r. auto.
      - cbn [String.eqb]. unfold bind at 1, get at 1. unfold bind at 1.
        unfold call at 1. rewrite getByFingerprint_query.
        destruct (lookup (resolveFileProject env oldFile (boundaries s))
                    (String c fp) (world s)) as [|m [|m' more]] eqn:Hfind.
        + eexists. split; [reflexivity|]. cbn. auto.
        + unfold call.
          cbn [world setWorld setCalls calls].
          destruct (retargetRelations_keeps
                      (resolveFileProject env oldFile (boundaries s)) oldFile
                      (Some (SymbolRecord.name sym)) (SymbolRecord.filePath m)
                      (Some (SymbolRecord.name m)) (world s))
            as (w' & Ert & Hkeep).
          rewrite Ert. eexists. split; [reflexivity|]. cbn.
          rewrite <- app_assoc. auto.
        + eexists. split; [reflexivity|]. cbn. auto.
      - exists s. cbn. rewrite app_nil_r. auto. }
    destruct Hstep as (s1 & E1 & Hc1 & Hb1 & Hl1). rewrite E1.
    destruct (IH s1) as (s' & E' & Hc' & Hb' & Hl').
    exists s'. split; [exact E'|]. split; [|split].
    + rewrite Hc', Hc1, Hb1, <- app_assoc. f_equal. f_equal.
      apply flat_map_ext. intros a. apply movesOfSymbol_ext. exact Hl1.
    + congruence.
    + intros p fp. now rewrite Hl', Hl1.
Qed.

Lemma retargetMoved_calls
  (deletedSymbols : list (string * list SymbolRecord.t)) :
  forall s : @State W Paths,
    exists s',
      retargetMoved opts env deletedSymbols s = (Ok tt, s') /\
      calls s' =
        calls s ++
        movesOf env (fun p fp => lookup p fp (world s)) (boundaries s)
          deletedSymbols /\
      boundaries s' = boundaries s /\
      (forall p fp, lookup p fp (world s') = lookup p fp (world s)).
Proof.
  unfold retargetMoved, movesOf.
  induction deletedSymbols as [|[oldFile syms] rest IH]; intros s.
  - exists s. cbn. rewrite app_nil_r. auto.
  - cbn [forEach flat_map fst snd]. unfold bind at 1.
    destruct (retargetSymbols_calls oldFile syms s)
      as (s1 & E1 & Hc1 & Hb1 & Hl1).
    rewrite E1. destruct (IH s1) as (s' & E' & Hc' & Hb' & Hl').
    exists s'. split; [exact E'|]. split; [|split].
    + rewrite Hc', Hc1, Hb1, <- app_assoc. f_equal. f_equal.
      apply flat_map_ext. intros [o sy]. cbn [fst snd].
      apply flat_map_ext. intros a. apply movesOfSymbol_ext. exact Hl1.
    + congruence.
    + intros p fp. now rewrite Hl', Hl1.
Qed.

Lemma in_movesOfSymbol (find : string -> string -> list SymbolRecord.t)
  (bounds : list ProjectBoundary.t) (oldFile : string) (sym : SymbolRecord.t)
  (project file : string) (oldSymbol : option string) (newFile : string)
  (newSymbol : option string) :
  In (RetargetRelations project file oldSymbol newFile newSymbol)
    (movesOfSymbol env find bounds oldFile sym) <->
  exists fp m,
    SymbolRecord.fingerprint sym = Some fp /\ fp <> EmptyString /\
    file = oldFile /\
    project = resolveFileProject env oldFile bounds /\
    find project fp = [m] /\
    oldSymbol = Some (SymbolRecord.name sym) /\
    newFile = SymbolRecord.filePath m /\
    newSymbol = Some (SymbolRecord.name m).
Proof.
  unfold movesOfSymbol. split.
  - destruct (SymbolRecord.fingerprint sym) as [fp|]; [|intros []].
    destruct (String.eqb fp EmptyString) eqn:Hfp; [intros []|].
    apply String.eqb_neq in Hfp.
    intros [Habs|Hin]; [discriminate|].
    destruct (find (resolveFileProject env oldFile bounds) fp)
      as [|m [|m' more]] eqn:Hfind; try destruct Hin as [Heq|[]].
    + destruct Hin.
    + inversion Heq; subst. exists fp, m. repeat split; auto.
    + destruct Hin.
  - intros (fp & m & Hf & Hne & -> & -> & Hfind & -> & -> & ->).
    rewrite Hf. apply String.eqb_neq in Hne. rewrite Hne, Hfind.
    right. now left.
Qed.

(** The snapshot holds, under each deleted file, the symbols the
    repository has for it in the state the snapshot is taken in. *)
Lemma snapshotDeleted_query (deleted : list string) :
  forall acc (s : @State W Paths),
    exists s1,
      snapshotDeleted opts env deleted acc s =
        (Ok (fold_left
               (fun m f =>
                  FileRepository.mapSet f
                    (symbolsOf (resolveFileProject env f (boundaries s)) f
                       (world s)) m)
               deleted acc), s1) /\
      world s1 = world s /\ boundaries s1 = boundaries s.
Proof.
  induction deleted as [|f rest IH]; intros acc s.
  - exists s. repeat split.
  - cbn [snapshotDeleted fold_left]. unfold bind at 1, get at 1.
    unfold bind at 1, call at 1. rewrite getFileSymbols_query.
    destruct (IH (FileRepository.mapSet f
                    (symbolsOf (resolveFileProject env f (boundaries s)) f
                       (world s)) acc)
                (setWorld
                   (setCalls s
                      (calls s ++
                       [GetFileSymbols
                          (resolveFileProject env f (boundaries s)) f]))
                   (world s)))
      as (s1 & E & Hw & Hb).
    exists s1. cbn [world boundaries setWorld setCalls] in *.
    split; [exact E|]. split; assumption.
Qed.

(** C2, as amended.  With a symbol repository whose reads are queries
    and a retargeting that does not fail and leaves the answers of the
    fingerprint lookup alone, the move-detection loop never raises an
    error, and in every run that resolves, full or incremental:
    the snapshot is taken before anything is deleted or indexed and
    holds, for each deleted file, the symbols the repository has for it
    then; and among all the calls of the run,
    [retargetRelations(project, oldPath, symbol.name, match.filePath,
    match.name)] is called exactly for the symbols of the snapshot whose
    fingerprint is neither null nor empty and for which
    [getByFingerprint(project, fingerprint)], asked after the deletions
    and the indexing, returns exactly one match. *)
Theorem retargetRelations_iff_unique_match
  (events : option (list FileChangeEvent.t)) (useTransaction : bool)
  (s s' : @State W Paths) (result : IndexResult.t) :
  (forall A (fn : M (@State W Paths) A),
     Appends notRetarget fn -> Appends notRetarget (transaction opts A fn)) ->
  _doIndex opts env events useTransaction s = (Ok result, s') ->
  (forall snapshot st, fst (retargetMoved opts env snapshot st) = Ok tt) /\
  exists changed deleted paths s0 snapshot s1 totals s2 added,
    (awaitBoundariesRefresh ;;; findChangeset opts env events) s
      = (Ok (changed, deleted), s0) /\
    tsconfigPathsRaw s0 = Ok paths /\
    snapshotDeleted opts env deleted [] s0 = (Ok snapshot, s1) /\
    applyChangeset opts env changed deleted paths useTransaction s1
      = (Ok totals, s2) /\
    retargetMoved opts env snapshot s2 = (Ok tt, s') /\
    IndexResult.deletedFiles result = deleted /\
    (forall evs, events = Some evs ->
       deleted = deletedOf evs /\ world s0 = world s) /\
    (forall oldFile syms,
       In (oldFile, syms) snapshot <->
       In oldFile deleted /\
       syms = symbolsOf (resolveFileProject env oldFile (boundaries s0))
                oldFile (world s0)) /\
    calls s' = calls s ++ added /\
    forall project oldFile oldSymbol newFile newSymbol,
      In (RetargetRelations project oldFile oldSymbol newFile newSymbol) added
      <->
      exists sym fp m,
        In oldFile deleted /\
        In sym (symbolsOf (resolveFileProject env oldFile (boundaries s0))
                  oldFile (world s0)) /\
        SymbolRecord.fingerprint sym = Some fp /\ fp <> EmptyString /\
        project = resolveFileProject env oldFile (boundaries s2) /\
        lookup project fp (world s2) = [m] /\
        oldSymbol = Some (SymbolRecord.name sym) /\
        newFile = SymbolRecord.filePath m /\
        newSymbol = Some (SymbolRecord.name m).
Proof.
  intros Htx Erun. split.
  { intros snapshot st.
    destruct (retargetMoved_calls snapshot st) as (st' & E & _).
    now rewrite E. }
  destruct (_doIndex_phases events useTransaction s s' result Erun)
    as (changed & deleted & paths & s0 & snapshot & s1 & totals & s2 &
        Efound & Hpaths & Esnap & Eapply & Emoves & Hdeleted & _ & _).
  (* the snapshot *)
  destruct (snapshotDeleted_query deleted [] s0) as (s1' & Eq & Hw1 & Hb1).
  rewrite Esnap in Eq. inversion Eq as [[Hsnapshot Hs1]]. clear Eq.
  assert (Hentries : forall oldFile syms,
            In (oldFile, syms) snapshot <->
            In oldFile deleted /\
            syms = symbolsOf (resolveFileProject env oldFile (boundaries s0))
                     oldFile (world s0)).
  { intros oldFile syms. rewrite Hsnapshot.
    pose proof (fold_mapSet_entries
                  (fun f => symbolsOf
                              (resolveFileProject env f (boundaries s0)) f
                              (world s0))
                  deleted [] (NoDup_nil _) (fun k v H => match H with end)
                  oldFile syms) as H.
    cbv zeta in H. rewrite H. cbn [In]. intuition. }
  (* the calls *)
  destruct (appends_run _ _ _ _ _ (findChangeset_quiet events) Efound)
    as (e1 & Hc1 & Hq1).
  destruct (appends_run _ _ _ _ _ (snapshotDeleted_quiet deleted []) Esnap)
    as (e2 & Hc2 & Hq2).
  destruct (appends_run _ _ _ _ _
              (applyChangeset_quiet changed deleted paths useTransaction Htx)
              Eapply) as (e3 & Hc3 & Hq3).
  destruct (retargetMoved_calls snapshot s2) as (s'' & Em & Hcm & _ & _).
  rewrite Emoves in Em. inversion Em; subst s''. clear Em.
  exists changed, deleted, paths, s0, snapshot, s1, totals, s2.
  exists ((e1 ++ e2 ++ e3) ++
          movesOf env (fun p fp => lookup p fp (world s2)) (boundaries s2)
            snapshot).
  split; [exact Efound|]. split; [exact Hpaths|]. split; [exact Esnap|].
  split; [exact Eapply|]. split; [exact Emoves|]. split; [exact Hdeleted|].
  split.
  { intros evs ->. unfold bind at 1 in Efound.
    unfold awaitBoundariesRefresh, bind, get in Efound.
    destruct (boundariesRefresh s) as [[b|e]|];
      cbn in Efound; inversion Efound; subst; split; reflexivity. }
  split; [exact Hentries|].
  split.
  { rewrite Hcm, Hc3, Hc2, Hc1, <- !app_assoc. reflexivity. }
  intros project oldFile oldSymbol newFile newSymbol.
  rewrite in_app_iff.
  assert (Hquiet : forallb notRetarget (e1 ++ e2 ++ e3) = true)
    by (rewrite !forallb_app, Hq1, Hq2, Hq3; reflexivity).
  unfold movesOf. rewrite in_flat_map. split.
  - intros [Hin|([o syms] & Hentry & Hin)].
    { exfalso. exact (not_retargeted _ _ _ _ _ _ Hquiet Hin). }
    cbn [fst snd] in Hin.
    apply in_flat_map in Hin. destruct Hin as (sym & Hsym & Hin).
    apply in_movesOfSymbol in Hin.
    destruct Hin as (fp & m & Hf & Hne & -> & Hp & Hfind & Ho & Hn & Hns).
    apply Hentries in Hentry. destruct Hentry as [Hdel ->].
    exists sym, fp, m. subst project. repeat split; auto.
  - intros (sym & fp & m & Hdel & Hsym & Hf & Hne & Hp & Hfind &
            Ho & Hn & Hns).
    right.
    exists (oldFile,
            symbolsOf (resolveFileProject env oldFile (boundaries s0))
              oldFile (world s0)).
    split; [apply Hentries; now split|]. cbn [fst snd].
    apply in_flat_map. exists sym. split; [exact Hsym|].
    apply in_movesOfSymbol. exists fp, m. subst project.
    repeat split; auto.
Qed.

End MoveDetection.

(* ------------------------------------------------------------------ *)
(** ** The coordinator as a state machine                              *)
(* ------------------------------------------------------------------ *)

Lemma sameQueue_refl (s : @State W Paths) : sameQueue s s.
Proof. repeat split. Qed.

Lemma sameQueue_trans (s1 s2 s3 : @State W Paths) :
  sameQueue s1 s2 -> sameQueue s2 s3 -> sameQueue s1 s3.
Proof. unfold sameQueue. intuition congruence. Qed.

Lemma call_sameQueue {A : Type} (c : Call) (m : M W A) (s : @State W Paths) :
  sameQueue s (snd (call c m s)) /\
  calls (snd (call c m s)) = calls s ++ [c].
Proof.
  unfold call. destruct (m (world s)) as [r w]. cbn. repeat split.
Qed.

Lemma forEach_subscribers (f : nat -> M (@State W Paths) unit) (l : list nat) :
  (forall cb s,
     fst (f cb s) = Ok tt /\
     sameQueue s (snd (f cb s)) /\
     filter isCallback (calls (snd (f cb s))) =
       filter isCallback (calls s) ++ [Callback cb] /\
     filter isDoIndex (calls (snd (f cb s))) = filter isDoIndex (calls s)) ->
  forall s,
    sameQueue s (snd (forEach l f s)) /\
    filter isCallback (calls (snd (forEach l f s))) =
      filter isCallback (calls s) ++ map Callback l /\
    filter isDoIndex (calls (snd (forEach l f s))) = filter isDoIndex (calls s).
Proof.
  intros Hf. induction l as [|cb rest IH]; intros s.
  - cbn. rewrite app_nil_r. repeat split.
  - cbn [forEach]. unfold bind.
    destruct (Hf cb s) as (Hok & Hq & Hcb & Hdo).
    destruct (f cb s) as [[u|e] s1]; cbn [fst snd] in *; [|discriminate].
    destruct (IH s1) as (Hq' & Hcb' & Hdo').
    split; [exact (sameQueue_trans _ _ _ Hq Hq')|].
    rewrite Hcb', Hdo', Hcb, Hdo. cbn [map].
    rewrite <- app_assoc. split; reflexivity.
Qed.

Lemma subscriber_step (result : IndexResult.t) (cb : nat)
  (s : @State W Paths) :
  let step :=
    r <- attempt (call (Callback cb) (subscriber env cb result)) ;;
    match r with
    | Ok _ => ret tt
    | Throw _ => record (ConsoleError callbackMessage)
    end in
  fst (step s) = Ok tt /\
  sameQueue s (snd (step s)) /\
  filter isCallback (calls (snd (step s))) =
    filter isCallback (calls s) ++ [Callback cb] /\
  filter isDoIndex (calls (snd (step s))) = filter isDoIndex (calls s).
Proof.
  cbv zeta. unfold bind, attempt.
  destruct (call_sameQueue (Callback cb) (subscriber env cb result) s)
    as [Hq Hc].
  destruct (call (Callback cb) (subscriber env cb result) s) as [[u|e] s1];
    cbn [fst snd] in *.
  - cbn. rewrite Hc, !filter_app. cbn. rewrite app_nil_r. auto.
  - cbn. rewrite Hc, !filter_app. cbn. rewrite !app_nil_r.
    repeat split; apply Hq.
Qed.

Lemma fireCallbacks_fields (result : IndexResult.t) (s : @State W Paths) :
  sameQueue s (snd (_fireCallbacks env result s)) /\
  filter isCallback (calls (snd (_fireCallbacks env result s))) =
    filter isCallback (calls s) ++ map Callback (callbacks s) /\
  startedRuns (snd (_fireCallbacks env result s)) = startedRuns s.
Proof.
  unfold _fireCallbacks. unfold bind at 1 2 3, get. cbn [fst snd].
  destruct (forEach_subscribers _ (callbacks s)
              (subscriber_step result) s) as (Hq & Hcb & Hdo).
  unfold startedRuns. auto.
Qed.

(** Every subscriber hears of the run, whatever the others do.
    [_fireCallbacks] returns normally even when subscribers throw; it
    calls each registered subscriber exactly once, in the order of
    registration, also after one that threw; and it changes nothing of
    the coordinator's lock, queue or timer. *)
Theorem fireCallbacks_reaches_every_subscriber (result : IndexResult.t)
  (s : @State W Paths) :
  let s' := snd (_fireCallbacks env result s) in
  fst (_fireCallbacks env result s) = Ok tt /\
  filter isCallback (calls s') =
    filter isCallback (calls s) ++ map Callback (callbacks s) /\
  startedRuns s' = startedRuns s /\
  sameQueue s s'.
Proof.
  cbv zeta. split; [apply _fireCallbacks_ok|].
  destruct (fireCallbacks_fields result s) as (Hq & Hcb & Hdo). auto.
Qed.

Lemma filter_isDoIndex_snoc (cs : list Call) (c : Call) :
  isDoIndex c = false -> filter isDoIndex (cs ++ [c]) = filter isDoIndex cs.
Proof.
  intros Hc. rewrite filter_app. cbn. rewrite Hc. apply app_nil_r.
Qed.

(** A watcher event that is not for [tsconfig.json], field by field. *)
Lemma handleWatcherEvent_fields (event : FileChangeEvent.t)
  (s : @State W Paths) :
  isTsconfig event = false ->
  let s' := snd (handleWatcherEvent opts env event s) in
  indexingLock s' = indexingLock s /\
  currentIndexing s' = currentIndexing s /\
  _pendingFullIndex s' = _pendingFullIndex s /\
  callbacks s' = callbacks s /\
  pendingEvents s' = pendingEvents s ++ [event] /\
  debounceTimer s' =
    Some (match debounceTimer s with Some h => h | None => nextId s end) /\
  nextId s' =
    match debounceTimer s with Some _ => nextId s | None => S (nextId s) end /\
  startedRuns s' = startedRuns s /\
  filter isSetTimeout (calls s') =
    filter isSetTimeout (calls s) ++
    match debounceTimer s with
    | Some _ => []
    | None => [SetTimeout (nextId s) WATCHER_DEBOUNCE_MS]
    end.
Proof.
  intros Hts. cbv zeta. unfold handleWatcherEvent.
  unfold isTsconfig in Hts. rewrite Hts.
  unfold startedRuns.
  destruct (endsWith (FileChangeEvent.filePath event) "package.json").
  - unfold bind, attempt, modify, get, fresh, record, ret, call.
    destruct (discover opts env (projectRoot opts) (world s)) as [r w].
    cbn. destruct (debounceTimer s) as [h|] eqn:Hd; cbn;
      rewrite ?filter_app; cbn; rewrite ?app_nil_r, ?Hd; repeat split.
  - unfold bind, modify, get, fresh, record, ret. cbn.
    destruct (debounceTimer s) as [h|] eqn:Hd; cbn;
      rewrite ?filter_app; cbn; rewrite ?app_nil_r, ?Hd; repeat split.
Qed.

(** A watcher event for [tsconfig.json], field by field: the reload
    leaves the queue alone, and unless clearing the cache throws the
    call ends in [fullIndex()]. *)
Lemma handleWatcherEvent_tsconfig (event : FileChangeEvent.t)
  (s : @State W Paths) :
  isTsconfig event = true ->
  exists s1 : @State W Paths,
    sameQueue s s1 /\
    startedRuns s1 = startedRuns s /\
    filter isSetTimeout (calls s1) = filter isSetTimeout (calls s) /\
    (snd (handleWatcherEvent opts env event s) = snd (fullIndex s1) \/
     snd (handleWatcherEvent opts env event s) = s1).
Proof.
  intros Hts. unfold handleWatcherEvent. unfold isTsconfig in Hts.
  rewrite Hts. unfold bind, modify, call, startedRuns.
  destruct (clearTsconfigPathsCache env (projectRoot opts) (world s))
    as [[[]|e] w1]; cbn.
  - destruct (loadTsconfigPaths env (projectRoot opts) w1) as [p w2]. cbn.
    eexists. split; [|split; [|split; [|left; reflexivity]]].
    + repeat split.
    + cbn. rewrite !filter_app. cbn. now rewrite !app_nil_r.
    + cbn. rewrite !filter_app. cbn. now rewrite !app_nil_r.
  - eexists. split; [|split; [|split; [|right; reflexivity]]].
    + repeat split.
    + cbn. rewrite !filter_app. cbn. now rewrite !app_nil_r.
    + cbn. rewrite !filter_app. cbn. now rewrite !app_nil_r.
Qed.

Lemma _startIndex_consistent (events : option (list FileChangeEvent.t))
  (useTransaction : bool) (s : @State W Paths) :
  (indexingLock s = true -> Consistent s) ->
  Consistent (snd (_startIndex events useTransaction s)).
Proof.
  intros Hs. unfold _startIndex.
  destruct (indexingLock s) eqn:Hlock.
  - destruct (Hs eq_refl) as (H1 & H2 & H3).
    destruct useTransaction; cbn [snd]; [|exact (conj H1 (conj H2 H3))].
    unfold Consistent. cbn.
    split; [exact H1|]. split; [intros _; exact Hlock|exact H3].
  - unfold Consistent. cbn. repeat split; auto; discriminate.
Qed.

Lemma finalizer_consistent (s : @State W Paths) : Consistent (finalizer s).
Proof.
  unfold finalizer, drain.
  destruct (_pendingFullIndex (release s)) eqn:Hfull.
  - apply _startIndex_consistent. cbn. discriminate.
  - destruct (pendingEvents (release s)) as [|e rest] eqn:Hp.
    + unfold Consistent. cbn in *. rewrite Hfull, Hp.
      repeat split; try discriminate; congruence.
    + apply _startIndex_consistent. cbn. discriminate.
Qed.

Lemma timerFires_consistent (handle : nat) (s : @State W Paths) :
  Consistent s -> Consistent (timerFires handle s).
Proof.
  intros Hs. unfold timerFires.
  destruct (debounceTimer s) as [h|] eqn:Hd; [|exact Hs].
  destruct (Nat.eqb h handle); [|exact Hs].
  unfold _flushPending. cbn [indexingLock setDebounceTimer].
  destruct (indexingLock s) eqn:Hlock.
  - destruct Hs as (H1 & H2 & H3). unfold Consistent. cbn.
    split; [exact H1|]. split; [exact H2|]. intros _. now left.
  - cbn [pendingEvents setDebounceTimer].
    destruct (pendingEvents s) as [|e rest] eqn:Hp.
    + destruct Hs as (H1 & H2 & H3). unfold Consistent. cbn.
      split; [exact H1|]. split; [exact H2|]. rewrite Hp. congruence.
    + apply _startIndex_consistent. cbn. rewrite Hlock. discriminate.
Qed.

Lemma handleWatcherEvent_consistent (event : FileChangeEvent.t)
  (s : @State W Paths) :
  Consistent s -> Consistent (snd (handleWatcherEvent opts env event s)).
Proof.
  intros Hs. destruct (isTsconfig event) eqn:Hts.
  - destruct (handleWatcherEvent_tsconfig event s Hts)
      as (s1 & Hq & _ & _ & Hend).
    assert (Hs1 : Consistent s1).
    { destruct Hs as (H1 & H2 & H3).
      destruct Hq as (Q1 & Q2 & Q3 & Q4 & Q5 & _).
      unfold Consistent. rewrite Q1, Q2, Q3, Q4, Q5. auto. }
    destruct Hend as [-> | ->]; [|exact Hs1].
    apply _startIndex_consistent. intros _. exact Hs1.
  - pose proof (handleWatcherEvent_fields event s Hts) as Hf.
    cbv zeta in Hf.
    destruct Hf as (F1 & F2 & F3 & _ & F5 & F6 & _).
    destruct Hs as (H1 & H2 & H3).
    unfold Consistent. rewrite F1, F2, F3, F6.
    split; [exact H1|]. split; [exact H2|]. intros _. right. discriminate.
Qed.

(** The lock and the queue stay consistent.  A new coordinator is
    consistent, and every call of its interface other than
    [shutdown], the timer firing and the settling of a run keep it so:
    the lock is held exactly while a run's promise is in flight, a full
    index is queued only under the lock, and buffered events always have
    the lock or an armed timer that will hand them to a run.  After a
    run settles this holds whatever the state was before. *)
Theorem coordinator_stays_consistent :
  (forall boundaries w, Consistent (create opts env boundaries w)) /\
  (forall op (s : @State W Paths),
     isShutdown op = false -> Consistent s ->
     Consistent (perform opts env op s)) /\
  (forall outcome (s : @State W Paths),
     Consistent (snd (settle env outcome s))).
Proof.
  split; [|split].
  - intros boundaries w. unfold create.
    destruct (loadTsconfigPaths env (projectRoot opts) w) as [p w'].
    unfold Consistent. cbn. repeat split; try discriminate; congruence.
  - intros op s Hop Hs. destruct op; cbn [perform]; try discriminate.
    + apply _startIndex_consistent. intros _. exact Hs.
    + apply _startIndex_consistent. intros _. exact Hs.
    + now apply handleWatcherEvent_consistent.
    + now apply timerFires_consistent.
    + rewrite (proj1 (settle_is_finalizer outcome s)).
      apply finalizer_consistent.
    + unfold onIndexed. destruct (existsb _ _); exact Hs.
    + exact Hs.
  - intros outcome s. rewrite (proj1 (settle_is_finalizer outcome s)).
    apply finalizer_consistent.
Qed.

Lemma _startIndex_runs (events : option (list FileChangeEvent.t))
  (useTransaction : bool) (s : @State W Paths) :
  startedRuns (snd (_startIndex events useTransaction s)) =
    startedRuns s ++
    (if indexingLock s then []
     else [DoIndex (nextId s) events useTransaction]).
Proof.
  unfold _startIndex, startedRuns.
  destruct (indexingLock s).
  - rewrite app_nil_r. destruct useTransaction; reflexivity.
  - cbn. rewrite filter_app. reflexivity.
Qed.

(** One run at a time.  While the lock is held, nothing but the
    settling of the run in flight starts a run or touches its promise:
    [fullIndex()] only sets the pending flag, [incrementalIndex(events)]
    changes nothing at all (its events are not queued), a watcher event
    is buffered or, for [tsconfig.json], queues a full index, and the
    timer leaves the buffer as it is. *)
Theorem one_run_at_a_time (op : Op) (s : @State W Paths) :
  indexingLock s = true -> isSettle op = false ->
  startedRuns (perform opts env op s) = startedRuns s /\
  indexingLock (perform opts env op s) = true /\
  currentIndexing (perform opts env op s) = currentIndexing s /\
  (forall events, perform opts env (OpIncrementalIndex events) s = s) /\
  _pendingFullIndex (perform opts env OpFullIndex s) = true /\
  (forall handle,
     pendingEvents (perform opts env (OpTimerFires handle) s)
     = pendingEvents s).
Proof.
  intros Hlock Hop.
  assert (Hstart : forall events tx (s0 : @State W Paths),
            indexingLock s0 = true ->
            startedRuns (snd (_startIndex events tx s0)) = startedRuns s0 /\
            indexingLock (snd (_startIndex events tx s0)) = true /\
            currentIndexing (snd (_startIndex events tx s0))
            = currentIndexing s0).
  { intros events tx s0 H0. rewrite _startIndex_runs, H0, app_nil_r.
    unfold _startIndex. rewrite H0. destruct tx; cbn; auto. }
  assert (Htimer : forall handle,
            timerFires handle s = s \/
            timerFires handle s = setDebounceTimer s None).
  { intros handle. unfold timerFires.
    destruct (debounceTimer s) as [h|]; [|now left].
    destruct (Nat.eqb h handle); [|now left].
    unfold _flushPending. cbn. rewrite Hlock. now right. }
  split; [|split; [|split; [|split; [|split]]]].
  - destruct op; cbn [perform]; try discriminate;
      try (apply Hstart; exact Hlock).
    + destruct (isTsconfig event) eqn:Hts.
      * destruct (handleWatcherEvent_tsconfig event s Hts)
          as (s1 & Hq & Hr & _ & [-> | ->]); [|exact Hr].
        destruct Hq as (Q1 & _). unfold fullIndex.
        rewrite (proj1 (Hstart None true s1 (eq_trans Q1 Hlock))). exact Hr.
      * apply (handleWatcherEvent_fields event s Hts).
    + destruct (Htimer handle) as [-> | ->]; reflexivity.
    + unfold onIndexed. destruct (existsb _ _); reflexivity.
    + reflexivity.
    + unfold shutdown, startedRuns. destruct (debounceTimer s); cbn;
        [apply filter_isDoIndex_snoc|]; reflexivity.
  - destruct op; cbn [perform]; try discriminate;
      try (apply Hstart; exact Hlock).
    + destruct (isTsconfig event) eqn:Hts.
      * destruct (handleWatcherEvent_tsconfig event s Hts)
          as (s1 & Hq & _ & _ & [-> | ->]); destruct Hq as (Q1 & _).
        -- apply Hstart. congruence.
        -- congruence.
      * rewrite (proj1 (handleWatcherEvent_fields event s Hts)). exact Hlock.
    + destruct (Htimer handle) as [-> | ->]; exact Hlock.
    + unfold onIndexed. destruct (existsb _ _); exact Hlock.
    + exact Hlock.
    + unfold shutdown. destruct (debounceTimer s); exact Hlock.
  - destruct op; cbn [perform]; try discriminate;
      try (apply Hstart; exact Hlock).
    + destruct (isTsconfig event) eqn:Hts.
      * destruct (handleWatcherEvent_tsconfig event s Hts)
          as (s1 & Hq & _ & _ & [-> | ->]);
          destruct Hq as (Q1 & Q2 & _).
        -- unfold fullIndex.
           rewrite (proj2 (proj2 (Hstart None true s1 (eq_trans Q1 Hlock)))).
           exact Q2.
        -- exact Q2.
      * apply (handleWatcherEvent_fields event s Hts).
    + destruct (Htimer handle) as [-> | ->]; reflexivity.
    + unfold onIndexed. destruct (existsb _ _); reflexivity.
    + reflexivity.
    + unfold shutdown. destruct (debounceTimer s); reflexivity.
  - intros events. cbn. unfold incrementalIndex, _startIndex.
    now rewrite Hlock.
  - cbn. unfold fullIndex, _startIndex. now rewrite Hlock.
  - intros handle. cbn [perform].
    destruct (Htimer handle) as [-> | ->]; reflexivity.
Qed.

(** A burst of watcher events becomes one run.  Watcher events that
    are not for [tsconfig.json], handled one after the other, start no
    run and are all buffered in arrival order behind what was buffered
    already; a timer is armed once, by the first of them, and only if
    none was armed.  If the coordinator was idle with an empty buffer,
    the firing of that timer starts exactly one incremental run, over
    exactly these events in arrival order, and empties the buffer. *)
Theorem watcher_burst_becomes_one_run (events : list FileChangeEvent.t)
  (s : @State W Paths) :
  forallb (fun e => negb (isTsconfig e)) events = true ->
  let s' := handleWatcherEvents opts env events s in
  pendingEvents s' = pendingEvents s ++ events /\
  startedRuns s' = startedRuns s /\
  indexingLock s' = indexingLock s /\
  filter isSetTimeout (calls s') =
    filter isSetTimeout (calls s) ++
    match debounceTimer s, events with
    | None, _ :: _ => [SetTimeout (nextId s) WATCHER_DEBOUNCE_MS]
    | _, _ => []
    end /\
  (events <> [] ->
   debounceTimer s' =
     Some (match debounceTimer s with Some h => h | None => nextId s end)) /\
  (events <> [] -> indexingLock s = false -> debounceTimer s = None ->
   pendingEvents s = [] ->
   startedRuns (timerFires (nextId s) s') =
     startedRuns s ++ [DoIndex (S (nextId s)) (Some events) false] /\
   pendingEvents (timerFires (nextId s) s') = []).
Proof.
  intros Hev. cbv zeta.
  assert (Hmain : forall evs (s0 : @State W Paths),
            forallb (fun e => negb (isTsconfig e)) evs = true ->
            let s' := handleWatcherEvents opts env evs s0 in
            pendingEvents s' = pendingEvents s0 ++ evs /\
            startedRuns s' = startedRuns s0 /\
            indexingLock s' = indexingLock s0 /\
            filter isSetTimeout (calls s') =
              filter isSetTimeout (calls s0) ++
              match debounceTimer s0, evs with
              | None, _ :: _ => [SetTimeout (nextId s0) WATCHER_DEBOUNCE_MS]
              | _, _ => []
              end /\
            (evs <> [] ->
             debounceTimer s' =
               Some (match debounceTimer s0 with
                     | Some h => h
                     | None => nextId s0
                     end)) /\
            nextId s' =
              match debounceTimer s0, evs with
              | None, _ :: _ => S (nextId s0)
              | _, _ => nextId s0
              end).
  { induction evs as [|e rest IH]; intros s0 H0; cbv zeta.
    - cbn. destruct (debounceTimer s0); rewrite !app_nil_r;
        repeat split; congruence.
    - cbn in H0. apply andb_true_iff in H0. destruct H0 as [He Hrest].
      apply negb_true_iff in He.
      pose proof (handleWatcherEvent_fields e s0 He) as Hf. cbv zeta in Hf.
      destruct Hf as (F1 & F2 & F3 & F4 & F5 & F6 & F7 & F8 & F9).
      specialize (IH (snd (handleWatcherEvent opts env e s0)) Hrest).
      cbv zeta in IH. destruct IH as (I1 & I2 & I3 & I4 & I5 & I6).
      unfold handleWatcherEvents in *. cbn [fold_left].
      rewrite I1, I2, I3, I4, I6, F5, F8, F1, F9, F6, F7.
      rewrite <- !app_assoc. cbn [app].
      split; [reflexivity|]. split; [reflexivity|]. split; [reflexivity|].
      split; [|split].
      + destruct (debounceTimer s0); destruct rest; rewrite ?app_nil_r;
          reflexivity.
      + intros _. destruct rest as [|e' rest'].
        * cbn. exact F6.
        * rewrite I5 by discriminate. rewrite F6. reflexivity.
      + destruct (debounceTimer s0); destruct rest; reflexivity. }
  destruct (Hmain events s Hev) as (M1 & M2 & M3 & M4 & M5 & M6).
  cbv zeta in *.
  split; [exact M1|]. split; [exact M2|]. split; [exact M3|].
  split; [exact M4|]. split; [exact M5|].
  intros Hne Hlock Htimer Hempty.
  rewrite Htimer in M5, M6. specialize (M5 Hne).
  destruct events as [|e rest]; [congruence|].
  unfold timerFires. rewrite M5, Nat.eqb_refl.
  unfold _flushPending. cbn [indexingLock pendingEvents setDebounceTimer].
  rewrite M3, Hlock, M1, Hempty. cbn [app].
  rewrite _startIndex_runs. cbn [indexingLock setPendingEvents
                                   setDebounceTimer nextId].
  rewrite M3, Hlock, M6.
  split.
  - unfold startedRuns in *. cbn [calls setPendingEvents setDebounceTimer].
    now rewrite M2.
  - assert (Hl : indexingLock
                   (setPendingEvents
                      (setDebounceTimer
                         (handleWatcherEvents opts env (e :: rest) s) None)
                      []) = false)
      by (cbn [indexingLock setPendingEvents setDebounceTimer];
          now rewrite M3).
    destruct (_startIndex_unlocked (Some (e :: rest)) false _ Hl)
      as (_ & _ & _ & _ & _ & Hp & _).
    exact Hp.
Qed.

Lemma _startIndex_refresh (events : option (list FileChangeEvent.t))
  (useTransaction : bool) (s : @State W Paths) :
  boundariesRefresh (snd (_startIndex events useTransaction s))
  = boundariesRefresh s.
Proof.
  unfold _startIndex. destruct (indexingLock s); [|reflexivity].
  destruct useTransaction; reflexivity.
Qed.

Lemma finalizer_refresh (s : @State W Paths) :
  boundariesRefresh (finalizer s) = boundariesRefresh s.
Proof.
  unfold finalizer, drain.
  destruct (_pendingFullIndex (release s)).
  - now rewrite _startIndex_refresh.
  - destruct (pendingEvents (release s)); [reflexivity|].
    now rewrite _startIndex_refresh.
Qed.

(** A run that starts on a rejected refresh.  A run whose body starts
    while the pending refresh of the project boundaries is one that
    rejects with [e] awaits it first and so rejects with [e]: it calls
    no collaborator and changes no field of the coordinator, the
    pending refresh included.  The synchronous steps of the coordinator
    (a call of [fullIndex], [incrementalIndex], [onIndexed], its
    unsubscribe function or [shutdown], the debounce timer firing, and
    the [then] and [finally] callbacks of a settling run, with
    subscribers that only return or throw) leave the pending refresh as
    it is as well.  A run that started earlier and resumes after its
    own [await] is not such a step: it clears the field. *)
Theorem run_on_rejected_refresh_rejects (e : Exn) (s : @State W Paths) :
  boundariesRefresh s = Some (Throw e) ->
  (forall events useTransaction,
     _doIndex opts env events useTransaction s = (Throw e, s)) /\
  (forall op,
     match op with OpWatcherEvent _ => False | _ => True end ->
     boundariesRefresh (perform opts env op s) = Some (Throw e)).
Proof.
  intros Href. split.
  - intros events tx. unfold _doIndex. unfold bind at 1, peek at 1.
    unfold bind at 1. unfold awaitBoundariesRefresh, bind at 1, get at 1.
    now rewrite Href.
  - intros op Hop. rewrite <- Href.
    destruct op; cbn [perform]; try contradiction.
    + apply _startIndex_refresh.
    + apply _startIndex_refresh.
    + unfold timerFires. destruct (debounceTimer s) as [h|]; [|reflexivity].
      destruct (Nat.eqb h handle); [|reflexivity].
      unfold _flushPending. cbn [indexingLock setDebounceTimer].
      destruct (indexingLock s); [reflexivity|].
      cbn [pendingEvents setDebounceTimer].
      destruct (pendingEvents s); [reflexivity|].
      now rewrite _startIndex_refresh.
    + rewrite (proj1 (settle_is_finalizer outcome s)), finalizer_refresh.
      unfold beforeFinalizer. destruct outcome as [result|e0]; [|reflexivity].
      apply (fireCallbacks_fields result s).
    + unfold onIndexed. destruct (existsb _ _); reflexivity.
    + reflexivity.
    + unfold shutdown. destruct (debounceTimer s); reflexivity.
Qed.

Lemma processChangedFrom_failed (changed : list FileChange.t) (paths : Paths) :
  forall acc (s s' : @State W Paths) counts,
    processChangedFrom opts env acc changed paths s = (Ok counts, s') ->
    incl (failed counts) (failed acc ++ map FileChange.filePath changed).
Proof.
  induction changed as [|file rest IH]; intros acc s s' counts E.
  - cbn in E. inversion E; subst. rewrite app_nil_r. apply incl_refl.
  - cbn [processChangedFrom] in E. unfold bind at 1, attempt in E.
    destruct (_processFile opts env (FileChange.filePath file)
                (knownHashOf file) paths s) as [[[sc rc]|e] s1].
    + apply IH in E. cbn [failed] in E. cbn [map].
      intros x Hx. specialize (E x Hx). apply in_app_iff in E.
      apply in_app_iff. destruct E; [now left|right; now right].
    + unfold bind at 1, record, modify in E. apply IH in E.
      cbn [failed] in E. cbn [map].
      intros x Hx. specialize (E x Hx). rewrite <- app_assoc in E. exact E.
Qed.

Lemma events_partition (events : list FileChangeEvent.t) :
  (count (changedOf events) + count (deletedOf events) = count events)%Z.
Proof.
  unfold count, changedOf, deletedOf. rewrite !length_map.
  rewrite <- Nat2Z.inj_add. f_equal.
  induction events as [|e rest IH]; [reflexivity|].
  cbn [filter]. unfold isCreateOrChange at 1, isDelete at 1.
  destruct (FileChangeEvent.eventType e); cbn [List.length]; lia.
Qed.

(** What a run reports.  When a run over an explicit event list
    resolves, its [changedFiles] are the paths of the create and change
    events and its [deletedFiles] those of the delete events, each in
    arrival order; [indexedFiles] and [removedFiles] are their numbers,
    so [indexedFiles] counts the files that failed as well, and the two
    add up to the number of events; every failed file is one of the
    changed files; and a full run never reports a failed file. *)
Theorem run_reports_its_events (events : list FileChangeEvent.t)
  (useTransaction : bool) (s s' : @State W Paths) (result : IndexResult.t) :
  _doIndex opts env (Some events) useTransaction s = (Ok result, s') ->
  IndexResult.changedFiles result
    = map FileChangeEvent.filePath (filter isCreateOrChange events) /\
  IndexResult.deletedFiles result
    = map FileChangeEvent.filePath (filter isDelete events) /\
  IndexResult.indexedFiles result = count (filter isCreateOrChange events) /\
  IndexResult.removedFiles result = count (filter isDelete events) /\
  (IndexResult.indexedFiles result + IndexResult.removedFiles result
   = count events)%Z /\
  incl (IndexResult.failedFiles result) (IndexResult.changedFiles result) /\
  (useTransaction = true -> IndexResult.failedFiles result = []).
Proof.
  intros E. unfold _doIndex in E.
  apply bind_ok in E. destruct E as (start & s1 & _ & E).
  apply bind_ok in E. destruct E as ([] & s2 & _ & E).
  apply bind_ok in E. destruct E as (found & s3 & Efound & E).
  unfold ret in Efound. inversion Efound; subst found s3. clear Efound.
  apply bind_ok in E. destruct E as (s4 & s5 & _ & E).
  apply bind_ok in E. destruct E as (paths & s6 & _ & E).
  cbn [fst snd] in E. unfold indexChangeset in E.
  apply bind_ok in E. destruct E as (ds & s7 & _ & E).
  apply bind_ok in E. destruct E as (totals & s8 & Etotals & E).
  apply bind_ok in E. destruct E as ([] & s9 & _ & E).
  apply bind_ok in E. destruct E as (finish & s10 & _ & E).
  unfold ret in E. inversion E; subst result s'. clear E.
  cbn [IndexResult.changedFiles IndexResult.deletedFiles
       IndexResult.indexedFiles IndexResult.removedFiles
       IndexResult.failedFiles].
  assert (Hc : map FileChange.filePath (changedOf events)
               = map FileChangeEvent.filePath (filter isCreateOrChange events)).
  { unfold changedOf. rewrite map_map. reflexivity. }
  assert (Hn : count (changedOf events)
               = count (filter isCreateOrChange events)).
  { unfold count, changedOf. now rewrite length_map. }
  assert (Hd : count (deletedOf events) = count (filter isDelete events)).
  { unfold count, deletedOf. now rewrite length_map. }
  split; [exact Hc|]. split; [reflexivity|]. split; [exact Hn|].
  split; [exact Hd|]. split; [apply events_partition|].
  destruct useTransaction.
  - apply bind_ok in Etotals. destruct Etotals as (s11 & s12 & _ & Et).
    apply bind_ok in Et. destruct Et as (pre & s13 & _ & Et).
    apply bind_ok in Et. destruct Et as ([] & s14 & _ & Et).
    apply bind_ok in Et. destruct Et as (sr & s15 & _ & Et).
    unfold ret in Et. inversion Et; subst totals s8. cbn [failed].
    split; [intros x []|reflexivity].
  - apply bind_ok in Etotals. destruct Etotals as ([] & s11 & _ & Et).
    unfold processChanged in Et. apply processChangedFrom_failed in Et.
    cbn [failed app] in Et.
    split; [exact Et|discriminate].
Qed.

(** [shutdown()] cancels the timer, not the drain.  [shutdown()]
    returns the promise of the run in flight and clears an armed
    debounce timer, which then never fires; it starts nothing and
    leaves the lock and the buffered events as they are.  So when the
    run it waits for settles with events still buffered (and no full
    index queued), the finalizer starts a new incremental run over
    them, after [shutdown()]. *)
Theorem shutdown_cancels_timer_not_drain (s : @State W Paths) :
  let s1 := snd (shutdown s) in
  fst (shutdown s) = currentIndexing s /\
  debounceTimer s1 = None /\
  (forall handle, timerFires handle s1 = s1) /\
  indexingLock s1 = indexingLock s /\
  pendingEvents s1 = pendingEvents s /\
  startedRuns s1 = startedRuns s /\
  (forall outcome,
     _pendingFullIndex s = false -> pendingEvents s <> [] ->
     startedRuns (snd (settle env outcome s1)) =
       startedRuns s ++ [DoIndex (nextId s) (Some (pendingEvents s)) false]).
Proof.
  cbv zeta.
  assert (Hs1 : sameQueue s (setDebounceTimer (snd (shutdown s))
                               (debounceTimer s)) /\
                debounceTimer (snd (shutdown s)) = None /\
                fst (shutdown s) = currentIndexing s /\
                startedRuns (snd (shutdown s)) = startedRuns s).
  { unfold shutdown, startedRuns. destruct (debounceTimer s) as [h|] eqn:Hd.
    - cbn. rewrite filter_app. cbn. rewrite app_nil_r. repeat split.
      now rewrite Hd.
    - cbn. repeat split; try reflexivity; now rewrite Hd. }
  destruct Hs1 as (Hq & Hnone & Hfst & Hruns).
  destruct Hq as (Q1 & Q2 & Q3 & Q4 & _ & Q6 & _). cbn in Q1, Q2, Q3, Q4, Q6.
  split; [exact Hfst|]. split; [exact Hnone|].
  split; [intros handle; unfold timerFires; now rewrite Hnone|].
  split; [exact Q1|]. split; [exact Q4|]. split; [exact Hruns|].
  intros outcome Hfull Hpending.
  rewrite (proj1 (settle_is_finalizer outcome (snd (shutdown s)))).
  set (s0 := beforeFinalizer env outcome (snd (shutdown s))).
  assert (H0 : sameQueue (snd (shutdown s)) s0 /\
               startedRuns s0 = startedRuns (snd (shutdown s))).
  { unfold s0, beforeFinalizer. destruct outcome as [result|e].
    - destruct (fireCallbacks_fields result (snd (shutdown s)))
        as (Hq & _ & Hr). split; assumption.
    - split; [apply sameQueue_refl|reflexivity]. }
  destruct H0 as ((P1 & P2 & P3 & P4 & _ & P6 & _) & Hr0).
  unfold finalizer, drain.
  change (_pendingFullIndex (release s0)) with (_pendingFullIndex s0).
  change (pendingEvents (release s0)) with (pendingEvents s0).
  rewrite P3, Q3, Hfull, P4, Q4.
  destruct (pendingEvents s) as [|e rest] eqn:Hp; [congruence|].
  rewrite _startIndex_runs. cbn [indexingLock setPendingEvents release
                                   setCurrentIndexing setIndexingLock nextId].
  rewrite P6, Q6. unfold startedRuns in *.
  cbn [calls setPendingEvents release setCurrentIndexing setIndexingLock].
  now rewrite Hr0, Hruns.
Qed.

(* ------------------------------------------------------------------ *)
(** ** Subscriptions, and the order of a full run                      *)
(* ------------------------------------------------------------------ *)

(** The subscribers are a set.  On a coordinator whose subscribers are
    distinct, [onIndexed(cb)] registers [cb] once however often it is
    called and keeps the others in their order, and the function it
    returns removes [cb] and only [cb]: the next run calls every other
    subscriber and not [cb]. *)
Theorem subscriptions_are_a_set (cb : nat) (s : @State W Paths) :
  NoDup (callbacks s) ->
  NoDup (callbacks (onIndexed cb s)) /\
  In cb (callbacks (onIndexed cb s)) /\
  onIndexed cb (onIndexed cb s) = onIndexed cb s /\
  (forall c, c <> cb ->
     (In c (callbacks (onIndexed cb s)) <-> In c (callbacks s)) /\
     (In c (callbacks (unsubscribe cb s)) <-> In c (callbacks s))) /\
  ~ In cb (callbacks (unsubscribe cb s)) /\
  (forall result,
     filter isCallback
       (calls (snd (_fireCallbacks env result (unsubscribe cb s)))) =
     filter isCallback (calls s) ++
     map Callback (filter (fun c => negb (Nat.eqb cb c)) (callbacks s))).
Proof.
  intros Hnd.
  assert (Hin : In cb (callbacks (onIndexed cb s))).
  { unfold onIndexed. destruct (existsb (Nat.eqb cb) (callbacks s)) eqn:Hex.
    - apply existsb_exists in Hex. destruct Hex as (x & Hx & Heq).
      apply Nat.eqb_eq in Heq. now subst x.
    - cbn. apply in_or_app. right. now left. }
  split; [|split; [exact Hin|split; [|split; [|split]]]].
  - unfold onIndexed. destruct (existsb (Nat.eqb cb) (callbacks s)) eqn:Hex;
      [exact Hnd|].
    cbn. apply NoDup_app; [exact Hnd|repeat constructor; intros []|].
    intros x Hx [Heq|[]]. subst x.
    assert (existsb (Nat.eqb cb) (callbacks s) = true)
      by (apply existsb_exists; exists cb; split;
          [exact Hx|apply Nat.eqb_refl]).
    congruence.
  - unfold onIndexed at 1.
    assert (Hex : existsb (Nat.eqb cb) (callbacks (onIndexed cb s)) = true)
      by (apply existsb_exists; exists cb; split;
          [exact Hin|apply Nat.eqb_refl]).
    now rewrite Hex.
  - intros c Hc. split.
    + unfold onIndexed. destruct (existsb (Nat.eqb cb) (callbacks s));
        [reflexivity|].
      cbn. rewrite in_app_iff. cbn. intuition congruence.
    + unfold unsubscribe. cbn. rewrite filter_In, negb_true_iff, Nat.eqb_neq.
      intuition congruence.
  - unfold unsubscribe. cbn. rewrite filter_In, negb_true_iff, Nat.eqb_neq.
    intros [_ H]. now apply H.
  - intros result.
    destruct (fireCallbacks_fields result (unsubscribe cb s)) as (_ & H & _).
    exact H.
Qed.

Lemma readsFirst_late {A : Type} (m : M (@State W Paths) A) :
  Appends notBunFile m -> ReadsFirst m.
Proof.
  intros Hm s. destruct (Hm s) as (extra & Hc & Hp).
  exists [], extra. auto.
Qed.

Lemma readsFirst_bind_early {A B : Type} (m : M (@State W Paths) A)
  (k : A -> M (@State W Paths) B) :
  Appends notTransaction m -> (forall a, ReadsFirst (k a)) ->
  ReadsFirst (bind m k).
Proof.
  intros Hm Hk s. unfold bind. destruct (Hm s) as (e1 & Hc1 & Hp1).
  destruct (m s) as [[a|e] s1]; cbn [snd] in *.
  - destruct (Hk a s1) as (pre & post & Hc2 & Hpre & Hpost).
    exists (e1 ++ pre), post. rewrite Hc2, Hc1, <- !app_assoc.
    split; [reflexivity|]. now rewrite forallb_app, Hp1, Hpre.
  - exists e1, []. rewrite app_nil_r. auto.
Qed.

Lemma readsFirst_bind_late {A B : Type} (m : M (@State W Paths) A)
  (k : A -> M (@State W Paths) B) :
  ReadsFirst m -> (forall a, Appends notBunFile (k a)) ->
  ReadsFirst (bind m k).
Proof.
  intros Hm Hk s. unfold bind.
  destruct (Hm s) as (pre & post & Hc1 & Hpre & Hpost).
  destruct (m s) as [[a|e] s1]; cbn [snd] in *.
  - destruct (Hk a s1) as (e2 & Hc2 & Hp2).
    exists pre, (post ++ e2). rewrite Hc2, Hc1, <- !app_assoc.
    split; [reflexivity|]. split; [exact Hpre|].
    now rewrite forallb_app, Hpost, Hp2.
  - exists pre, post. auto.
Qed.

Lemma startReads_early (changed : list FileChange.t) :
  Appends notTransaction (startReads opts env changed).
Proof.
  induction changed as [|file rest IH]; cbn [startReads].
  - apply appends_ret.
  - appends. exact IH.
Qed.

Lemma prereadAll_early (changed : list FileChange.t) :
  Appends notTransaction (prereadAll opts env changed).
Proof.
  unfold prereadAll.
  apply appends_bind; [apply startReads_early|intros texts].
  apply appends_bind; [apply appends_get|intros s].
  destruct (prereadOf opts env (world s) changed texts); appends.
Qed.

Lemma aggregateFiles_early (bs : list ProjectBoundary.t) :
  forall m, Appends notTransaction (aggregateFiles opts bs m).
Proof.
  induction bs as [|b rest IH]; intros m; cbn [aggregateFiles].
  - apply appends_ret.
  - appends. apply IH.
Qed.

Lemma snapshotDeleted_early (deleted : list string) :
  forall acc, Appends notTransaction (snapshotDeleted opts env deleted acc).
Proof.
  induction deleted as [|f rest IH]; intros acc; cbn [snapshotDeleted].
  - apply appends_ret.
  - appends. apply IH.
Qed.

Lemma indexPreread_appends (bs : list ProjectBoundary.t) (paths : Paths)
  (preread : list Preread) :
  forall totals, Appends notBunFile (indexPreread opts env bs paths preread totals).
Proof.
  induction preread as [|fd rest IH]; intros totals; cbn [indexPreread].
  - apply appends_ret.
  - appends. apply IH.
Qed.

Lemma rebuild_appends (bs : list ProjectBoundary.t) (paths : Paths)
  (preread : list Preread) :
  Appends notBunFile (rebuild opts env bs paths preread).
Proof.
  unfold rebuild. apply appends_bind.
  - apply appends_forEach. intros b. appends.
    apply appends_forEach. intros f. appends.
  - intros _. apply indexPreread_appends.
Qed.

(** A full run reads every file before the transaction.  If
    [dbConnection.transaction] itself reads no source file, then in a
    full run, whether it resolves or rejects, every [Bun.file] read
    comes before the transaction is entered: what the run adds to the
    record of calls is a part without the transaction mark followed by
    a part without a file read. *)
Theorem full_run_reads_before_transaction
  (events : option (list FileChangeEvent.t)) :
  (forall A (fn : M (@State W Paths) A),
     Appends notBunFile fn -> Appends notBunFile (transaction opts A fn)) ->
  ReadsFirst (_doIndex opts env events true).
Proof.
  intros Htx. unfold _doIndex.
  apply readsFirst_bind_early; [apply appends_peek|intros start].
  apply readsFirst_bind_early.
  { unfold awaitBoundariesRefresh. appends.
    destruct (boundariesRefresh a) as [[b|e]|]; appends;
      try (apply appends_modify; reflexivity). }
  intros _. apply readsFirst_bind_early.
  { destruct events as [evs|]; appends. apply aggregateFiles_early. }
  intros found. apply readsFirst_bind_early; [apply appends_get|intros s0].
  apply readsFirst_bind_early.
  { destruct (tsconfigPathsRaw s0); appends. }
  intros paths. unfold indexChangeset.
  apply readsFirst_bind_early; [apply snapshotDeleted_early|intros ds].
  apply readsFirst_bind_late.
  - apply readsFirst_bind_early; [apply appends_get|intros s1].
    apply readsFirst_bind_early; [apply prereadAll_early|intros preread].
    apply readsFirst_late. appends. apply Htx. apply rebuild_appends.
  - intros totals. appends. apply retargetMoved_appends.
Qed.

End CoordinatorFacts.

(* ================================================================== *)
(** * The coordinator tests, replayed                                  *)
(* ================================================================== *)

Section Scenarios.

Import IndexCoordinator.

(** "should call retargetRelations when deleted and new symbol share
    the same fingerprint": the run over the deletion of [src/old.ts] and
    the creation of [src/new.ts]. *)
Lemma retargetRelations_iff_unique_match_witness :
  let opts := Mock.opts [Scenario.oldSym] [Scenario.newSym] [] in
  let s := Mock.coordinator [Scenario.oldSym] [Scenario.newSym] [] in
  exists result s' added,
    _doIndex opts Mock.env (Some Scenario.moveEvents) false s
    = (Ok result, s') /\
    calls s' = calls s ++ added /\
    In (RetargetRelations "test-project" "src/old.ts" (Some "myFn")
          "src/new.ts" (Some "myFn")) added.
Proof.
  cbv zeta.
  destruct (_doIndex (Mock.opts [Scenario.oldSym] [Scenario.newSym] [])
              Mock.env (Some Scenario.moveEvents) false
              (Mock.coordinator [Scenario.oldSym] [Scenario.newSym] []))
    as [[result|e] s'] eqn:E; [|vm_compute in E; discriminate].
  destruct (retargetRelations_iff_unique_match
              (Mock.opts [Scenario.oldSym] [Scenario.newSym] []) Mock.env
              (fun _ _ _ => [Scenario.oldSym])
              (fun p f w => eq_refl)
              (fun _ _ _ => [Scenario.newSym])
              (fun p fp w => eq_refl)
              (fun p o os n ns w =>
                 ex_intro _ w (conj eq_refl (fun p' fp => eq_refl)))
              (Some Scenario.moveEvents) false
              (Mock.coordinator [Scenario.oldSym] [Scenario.newSym] [])
              s' result (fun A fn Hfn => Hfn) E)
    as (_ & changed & deleted & paths & s0 & snapshot & s1 & totals & s2 &
        added & _ & _ & _ & _ & _ & _ & Hevents & _ & Hcalls & Hiff).
  exists result, s', added. split; [reflexivity|]. split; [exact Hcalls|].
  apply Hiff. exists Scenario.oldSym, "fp001", Scenario.newSym.
  destruct (Hevents _ eq_refl) as [-> _].
  repeat split; try reflexivity.
  - left. reflexivity.
  - left. reflexivity.
  - discriminate.
Defined.

(** C2, the claim as stated is false: in the same run, a symbol of the
    deleted file whose fingerprint is the empty string has a fingerprint
    that is not null, and the lookup returns exactly one match for it,
    yet the run skips the symbol: it takes the snapshot of the deleted
    file and resolves without calling [retargetRelations]. *)
Lemma retargetRelations_skips_empty_fingerprint :
  let opts := Mock.opts [Scenario.oldBlank] [Scenario.newBlank] [] in
  let s := Mock.coordinator [Scenario.oldBlank] [Scenario.newBlank] [] in
  let run := _doIndex opts Mock.env (Some Scenario.moveEvents) false s in
  getFileSymbols opts "test-project" "src/old.ts" tt
    = (Ok [Scenario.oldBlank], tt) /\
  SymbolRecord.fingerprint Scenario.oldBlank = Some EmptyString /\
  getByFingerprint opts "test-project" EmptyString tt
    = (Ok [Scenario.newBlank], tt) /\
  (exists result,
     fst run = Ok result /\
     IndexResult.deletedFiles result = ["src/old.ts"]) /\
  In (GetFileSymbols "test-project" "src/old.ts") (calls (snd run)) /\
  existsb isRetargetRelations (calls (snd run)) = false.
Proof.
  cbv zeta. split; [reflexivity|]. split; [reflexivity|].
  split; [reflexivity|]. split.
  - eexists. split; vm_compute; reflexivity.
  - split; [vm_compute; right; left; reflexivity|vm_compute; reflexivity].
Qed.

(** The same run with the fingerprint [fp001] retargets. *)
Example move_is_retargeted :
  exists result s',
    Scenario.runIncremental [Scenario.oldSym] [Scenario.newSym] []
      Scenario.moveEvents = (Ok result, s') /\
    filter isRetargetRelations (calls s')
    = [RetargetRelations "test-project" "src/old.ts" (Some "myFn")
         "src/new.ts" (Some "myFn")].
Proof. eexists. eexists. split; vm_compute; reflexivity. Qed.


(** In that run the third file, after the failing one, is indexed: its
    seven calls end the record of the run. *)
Example file_after_failure_is_indexed :
  let opts := Mock.opts [] [] ["/project/src/b.ts"] in
  let run := _doIndex opts Mock.env (Some Scenario.batchEvents) false
               (Mock.coordinator [] [] []) in
  let recorded := calls (snd run) in
  skipn (List.length recorded - 7) recorded =
    processedCalls opts Mock.env Mock.BOUNDARIES "src/c.ts"
      {| FileRecord.project := "test-project";
         FileRecord.filePath := "src/c.ts";
         FileRecord.mtimeMs := 1000;
         FileRecord.size := 100;
         FileRecord.contentHash := "0123456789abcdef";
         FileRecord.updatedAt := "2026-01-01T00:00:00.000Z" |}.
Proof. vm_compute. reflexivity. Qed.

(** The whole run of that batch: the promise resolves, the lock is
    released and the callbacks would see the failed file. *)
Example incremental_run_resolves :
  exists result s',
    Scenario.runIncremental [] [] ["/project/src/b.ts"] Scenario.batchEvents
    = (Ok result, s') /\
    IndexResult.indexedFiles result = 3%Z /\
    IndexResult.changedFiles result = ["src/a.ts"; "src/b.ts"; "src/c.ts"] /\
    IndexResult.failedFiles result = ["src/b.ts"] /\
    indexingLock s' = false /\
    currentIndexing s' = None.
Proof. eexists. eexists. split; [vm_compute; reflexivity|]. repeat split. Qed.

(** One event for a source file on an idle coordinator. *)
Lemma handleWatcherEvent_buffers_witness :
  let event := Mock.event EventType.change "src/a.ts" in
  let s' := snd (handleWatcherEvent (Mock.opts [] [] []) Mock.env event
                   (Mock.coordinator [] [] [])) in
  startedRuns s' = [] /\
  indexingLock s' = false /\
  pendingEvents s' = [event] /\
  debounceTimer s' = Some 0.
Proof.
  cbv zeta.
  destruct (handleWatcherEvent_buffers (Mock.opts [] [] []) Mock.env
              (Mock.event EventType.change "src/a.ts")
              (Mock.coordinator [] [] []) eq_refl)
    as (_ & _ & Hruns & Hlock & _ & _ & Hpending & Htimer & _).
  split; [exact Hruns|]. split; [exact Hlock|].
  split; [exact Hpending|exact Htimer].
Defined.

(** C6, the claim as stated is false: for an event on [tsconfig.json],
    [handleWatcherEvent] reloads the alias table and calls [fullIndex]
    before it returns.  On an idle coordinator the call returns with a
    full run started and the lock taken, the event not buffered and no
    timer armed. *)
Lemma handleWatcherEvent_tsconfig_starts_run :
  let event := Mock.event EventType.change "tsconfig.json" in
  let s := Mock.coordinator [] [] [] in
  let out := handleWatcherEvent (Mock.opts [] [] []) Mock.env event s in
  startedRuns s = [] /\
  indexingLock s = false /\
  fst out = Ok tt /\
  startedRuns (snd out) = [DoIndex 0 None true] /\
  indexingLock (snd out) = true /\
  currentIndexing (snd out) = Some 0 /\
  pendingEvents (snd out) = [] /\
  debounceTimer (snd out) = None.
Proof. cbv zeta. vm_compute. repeat split. Qed.

(** Three events within the debounce window arm one timer and, when it
    fires, make one incremental run of the three, in arrival order. *)
Example watcher_events_coalesce :
  let o := Mock.opts [] [] [] in
  let a := Mock.event EventType.change "src/a.ts" in
  let b := Mock.event EventType.change "src/b.ts" in
  let c := Mock.event EventType.change "src/c.ts" in
  let s1 := snd (handleWatcherEvent o Mock.env a (Mock.coordinator [] [] [])) in
  let s2 := snd (handleWatcherEvent o Mock.env b s1) in
  let s3 := snd (handleWatcherEvent o Mock.env c s2) in
  let s4 := timerFires 0 s3 in
  startedRuns s3 = [] /\
  filter (fun c => match c with SetTimeout _ _ => true | _ => false end)
    (calls s3) = [SetTimeout 0 100%Z] /\
  startedRuns s4 = [DoIndex 1 (Some [a; b; c]) false] /\
  exists result s5,
    (let (outcome, s) := _doIndex o Mock.env (Some [a; b; c]) false s4 in
     settle Mock.env outcome s) = (Ok result, s5) /\
    IndexResult.indexedFiles result = 3%Z /\
    IndexResult.changedFiles result = ["src/a.ts"; "src/b.ts"; "src/c.ts"] /\
    indexingLock s5 = false.
Proof.
  cbv zeta. split; [vm_compute; reflexivity|].
  split; [vm_compute; reflexivity|]. split; [vm_compute; reflexivity|].
  eexists. eexists. split; [vm_compute; reflexivity|]. repeat split.
Qed.

(** A full run rejects while a watcher event is buffered: the finalizer
    still releases the lock and drains the buffer into a new run. *)
Example finalizer_drains_after_rejection :
  let a := Mock.event EventType.change "src/a.ts" in
  let s0 := Mock.coordinator [] [] [] in
  let s1 := snd (fullIndex s0) in
  let s2 := snd (handleWatcherEvent (Mock.opts [] [] []) Mock.env a s1) in
  let s3 := snd (settle Mock.env (Throw Mock.parseError) s2) in
  indexingLock s1 = true /\
  pendingEvents s2 = [a] /\
  startedRuns s2 = [DoIndex 0 None true] /\
  startedRuns s3 = [DoIndex 0 None true; DoIndex 2 (Some [a]) false] /\
  indexingLock s3 = true /\
  currentIndexing s3 = Some 2 /\
  pendingEvents s3 = [].
Proof. cbv zeta. vm_compute. repeat split. Qed.

End Scenarios.

(* ================================================================== *)
(** * The state machine theorems on the test coordinator               *)
(* ================================================================== *)

Section StateMachineScenarios.

Import IndexCoordinator.

(** A second [fullIndex()] while the first is in flight. *)
Lemma one_run_at_a_time_witness :
  let s := snd (fullIndex (Mock.coordinator [] [] [])) in
  startedRuns (perform (Mock.opts [] [] []) Mock.env OpFullIndex s)
  = [DoIndex 0 None true] /\
  _pendingFullIndex (perform (Mock.opts [] [] []) Mock.env OpFullIndex s)
  = true.
Proof.
  cbv zeta.
  destruct (one_run_at_a_time (Mock.opts [] [] []) Mock.env OpFullIndex
              (snd (fullIndex (Mock.coordinator [] [] []))) eq_refl eq_refl)
    as (Hruns & _ & _ & _ & Hfull & _).
  split; [exact Hruns|exact Hfull].
Defined.

(** Three changes in a row on an idle coordinator. *)
Lemma watcher_burst_becomes_one_run_witness :
  let events :=
    [Mock.event EventType.change "src/a.ts";
     Mock.event EventType.change "src/b.ts";
     Mock.event EventType.change "package.json"] in
  let s' := handleWatcherEvents (Mock.opts [] [] []) Mock.env events
              (Mock.coordinator [] [] []) in
  startedRuns s' = [] /\
  filter isSetTimeout (calls s') = [SetTimeout 0 100%Z] /\
  startedRuns (timerFires 0 s') = [DoIndex 1 (Some events) false].
Proof.
  cbv zeta.
  destruct (watcher_burst_becomes_one_run (Mock.opts [] [] []) Mock.env
              [Mock.event EventType.change "src/a.ts";
               Mock.event EventType.change "src/b.ts";
               Mock.event EventType.change "package.json"]
              (Mock.coordinator [] [] []) eq_refl)
    as (_ & Hruns & _ & Htimer & _ & Hflush).
  split; [exact Hruns|]. split; [exact Htimer|].
  apply Hflush; [discriminate|reflexivity|reflexivity|reflexivity].
Defined.

(** A coordinator whose boundary refresh was rejected. *)
Lemma run_on_rejected_refresh_rejects_witness :
  let s := setBoundariesRefresh (Mock.coordinator [] [] [])
             (Some (Throw Mock.parseError)) in
  _doIndex (Mock.opts [] [] []) Mock.env None true s
  = (Throw Mock.parseError, s) /\
  boundariesRefresh (snd (settle Mock.env (Throw Mock.parseError) s))
  = Some (Throw Mock.parseError).
Proof.
  cbv zeta.
  destruct (run_on_rejected_refresh_rejects (Mock.opts [] [] []) Mock.env
              Mock.parseError
              (setBoundariesRefresh (Mock.coordinator [] [] [])
                 (Some (Throw Mock.parseError))) eq_refl)
    as (Hrun & Hkeep).
  split; [apply Hrun|].
  exact (Hkeep (OpSettle (Throw Mock.parseError)) I).
Defined.

(** The batch of three with the parser failing on the second. *)
Lemma run_reports_its_events_witness :
  exists result s',
    _doIndex (Mock.opts [] [] ["/project/src/b.ts"]) Mock.env
      (Some Scenario.batchEvents) false (Mock.coordinator [] [] [])
    = (Ok result, s') /\
    IndexResult.indexedFiles result = 3%Z /\
    IndexResult.removedFiles result = 0%Z /\
    incl (IndexResult.failedFiles result) ["src/a.ts"; "src/b.ts"; "src/c.ts"].
Proof.
  destruct (_doIndex (Mock.opts [] [] ["/project/src/b.ts"]) Mock.env
              (Some Scenario.batchEvents) false (Mock.coordinator [] [] []))
    as [[result|e] s'] eqn:E; [|vm_compute in E; discriminate].
  exists result, s'. split; [reflexivity|].
  destruct (run_reports_its_events (Mock.opts [] [] ["/project/src/b.ts"])
              Mock.env Scenario.batchEvents false
              (Mock.coordinator [] [] []) s' result E)
    as (Hchanged & _ & Hn & Hr & _ & Hfailed & _).
  split; [exact Hn|]. split; [exact Hr|].
  rewrite Hchanged in Hfailed. exact Hfailed.
Defined.

(** Two subscribers, one of which unsubscribes. *)
Lemma subscriptions_are_a_set_witness :
  let s := onIndexed 2 (onIndexed 1 (Mock.coordinator [] [] [])) in
  callbacks (onIndexed 1 s) = [1; 2] /\
  ~ In 1 (callbacks (unsubscribe 1 s)).
Proof.
  cbv zeta.
  destruct (subscriptions_are_a_set Mock.env 1
              (onIndexed 2 (onIndexed 1 (Mock.coordinator [] [] []))))
    as (_ & _ & _ & _ & Hgone & _).
  - cbn. repeat constructor; cbn; intuition discriminate.
  - split; [reflexivity|exact Hgone].
Defined.

(** A full run over two files with the pass-through transaction of the
    tests. *)
Lemma full_run_reads_before_transaction_witness :
  let events := Some [Mock.event EventType.change "src/a.ts";
                      Mock.event EventType.change "src/b.ts"] in
  exists pre post,
    calls (snd (_doIndex (Mock.opts [] [] []) Mock.env events true
                  (Mock.coordinator [] [] [])))
    = calls (Mock.coordinator [] [] []) ++ pre ++ post /\
    forallb notTransaction pre = true /\
    forallb notBunFile post = true.
Proof.
  cbv zeta.
  apply (full_run_reads_before_transaction (Mock.opts [] [] []) Mock.env).
  intros A fn Hfn. exact Hfn.
Defined.

End StateMachineScenarios.
